(** * Contact book (main.py): fields, records, the address book, the
      upcoming-birthday query and the command handlers.

    The development follows main.py top-down.  Python values are embedded
    as follows.

    - [str] is a sequence of Unicode code points: [pystr := list N].
      String literals of the source are written [lit "..."].
    - Exceptions are values of [exn]; a call that may raise returns a
      [result].  Handlers that mutate the book run in the state-and-exception
      monad [M], in which the state written before a raise survives it (as
      in Python, where nothing is rolled back).
    - The part of the Python library the program calls ([str.isdigit],
      [datetime.strptime], [date.replace], date comparison, subtraction,
      [weekday], [date + timedelta], [strftime]) is modelled in the modules
      [Unicode] and [datetime], following the CPython 3 sources and
      documentation. *)

From Stdlib Require Import ZArith NArith Lia List String Ascii DecimalString.
From stdpp Require Import base decidable option list.

Local Open Scope Z_scope.

(** ** Python strings *)

Definition pystr := list N.

Definition lit (s : string) : pystr :=
  map N_of_ascii (list_ascii_of_string s).

(** [sep.join(parts)] *)
Fixpoint join (sep : pystr) (parts : list pystr) : pystr :=
  match parts with
  | [] => []
  | [p] => p
  | p :: ps => p ++ sep ++ join sep ps
  end.

(** [str(n)] for an int. *)
Definition str_of_int (n : Z) : pystr :=
  lit (NilZero.string_of_int (Z.to_int n)).

(** ** The Unicode character database, as far as the program reads it

    [str.isdigit] is true of a character whose Numeric_Type is Decimal or
    Digit; the [\d] of [re] (on a [str] pattern) and [int()] read the
    characters of Numeric_Type Decimal (general category Nd).  The tables
    are those of Unicode 15 (CPython 3.12, 3.13). *)
Module Unicode.

(** First code point of every run of ten consecutive decimal digits
    (the characters valued 0 to 9 in this order). *)
Definition decimal_blocks : list N :=
  [ 0x0030; 0x0660; 0x06F0; 0x07C0; 0x0966; 0x09E6; 0x0A66; 0x0AE6;
    0x0B66; 0x0BE6; 0x0C66; 0x0CE6; 0x0D66; 0x0DE6; 0x0E50; 0x0ED0;
    0x0F20; 0x1040; 0x1090; 0x17E0; 0x1810; 0x1946; 0x19D0; 0x1A80;
    0x1A90; 0x1B50; 0x1BB0; 0x1C40; 0x1C50; 0xA620; 0xA8D0; 0xA900;
    0xA9D0; 0xA9F0; 0xAA50; 0xABF0; 0xFF10;
    0x104A0; 0x10D30; 0x11066; 0x110F0; 0x11136; 0x111D0; 0x112F0;
    0x11450; 0x114D0; 0x11650; 0x116C0; 0x11730; 0x118E0; 0x11950;
    0x11C50; 0x11D50; 0x11DA0; 0x11F50; 0x16A60; 0x16AC0; 0x16B50;
    0x1D7CE; 0x1D7D8; 0x1D7E2; 0x1D7EC; 0x1D7F6;
    0x1E140; 0x1E2F0; 0x1E4F0; 0x1E950; 0x1FBF0 ]%N.

(** Inclusive ranges of the characters of Numeric_Type Digit:
    superscripts and subscripts, circled and parenthesized digits,
    Ethiopic, New Tai Lue tham one, Kharoshthi, Rumi, Brahmi. *)
Definition digit_ranges : list (N * N) :=
  [ (0x00B2, 0x00B3); (0x00B9, 0x00B9); (0x1369, 0x1371);
    (0x19DA, 0x19DA); (0x2070, 0x2070); (0x2074, 0x2079);
    (0x2080, 0x2089); (0x2460, 0x2468); (0x2474, 0x247C);
    (0x2488, 0x2490); (0x24EA, 0x24EA); (0x24F5, 0x24FD);
    (0x24FF, 0x24FF); (0x2776, 0x277E); (0x2780, 0x2788);
    (0x278A, 0x2792); (0x10A40, 0x10A43); (0x10E60, 0x10E68);
    (0x11052, 0x1105A); (0x1F100, 0x1F10A) ]%N.

Fixpoint block_value (blocks : list N) (c : N) : option N :=
  match blocks with
  | [] => None
  | b :: bs =>
      if ((b <=? c) && (c <? b + 10))%N then Some (c - b)%N
      else block_value bs c
  end.

(** The decimal value of a character, when it has one. *)
Definition decimal (c : N) : option N := block_value decimal_blocks c.

Definition isdecimal (c : N) : bool :=
  match decimal c with Some _ => true | None => false end.

Definition in_range (c : N) (r : N * N) : bool :=
  ((fst r <=? c) && (c <=? snd r))%N.

Definition isdigit (c : N) : bool :=
  isdecimal c || existsb (in_range c) digit_ranges.

(** The ten characters the spec calls digits. *)
Definition is_ascii_digit (c : N) : bool := ((48 <=? c) && (c <=? 57))%N.

Definition is_ascii (c : N) : bool := (c <? 128)%N.

End Unicode.

(** [s.isdigit()]: every character is a digit and there is at least one. *)
Definition str_isdigit (s : pystr) : bool :=
  match s with
  | [] => false
  | _ => forallb Unicode.isdigit s
  end.

(** [len(s)] *)
Definition len (s : pystr) : Z := Z.of_nat (length s).

(** ** Exceptions *)

Inductive exn : Type :=
| ValueError (msg : pystr)
| IndexError
| KeyError
| OverflowError (msg : pystr).

Inductive result (A : Type) : Type :=
| Ok (a : A)
| Raise (e : exn).
Arguments Ok {A} a.
Arguments Raise {A} e.

Definition rbind {A B} (r : result A) (k : A -> result B) : result B :=
  match r with
  | Ok a => k a
  | Raise e => Raise e
  end.

Declare Scope result_scope.
Delimit Scope result_scope with result.
Notation "'let?' x ':=' r 'in' k" := (rbind r (fun x => k))
  (at level 10, x pattern, r at level 100, k at level 200) : result_scope.
Local Open Scope result_scope.

Definition is_ok {A} (r : result A) : bool :=
  match r with Ok _ => true | Raise _ => false end.

(** ** The datetime library

    After Lib/_pydatetime.py and Modules/_datetimemodule.c of CPython 3.
    A [date] is a triple of ints; the constructor checks the fields and the
    other operations are defined on the proleptic Gregorian ordinal. *)
Module datetime.

Definition MINYEAR : Z := 1.
Definition MAXYEAR : Z := 9999.
Definition MAXORDINAL : Z := 3652059.

Definition is_leap (year : Z) : bool :=
  (year mod 4 =? 0) && (negb (year mod 100 =? 0) || (year mod 400 =? 0)).

Definition days_before_year (year : Z) : Z :=
  let y := year - 1 in
  y * 365 + y / 4 - y / 100 + y / 400.

Definition DAYS_IN_MONTH : list Z :=
  [-1; 31; 28; 31; 30; 31; 30; 31; 31; 30; 31; 30; 31].

Definition DAYS_BEFORE_MONTH : list Z :=
  [-1; 0; 31; 59; 90; 120; 151; 181; 212; 243; 273; 304; 334].

Definition days_in_month (year month : Z) : Z :=
  if (month =? 2) && is_leap year then 29
  else nth (Z.to_nat month) DAYS_IN_MONTH 0.

Definition days_before_month (year month : Z) : Z :=
  nth (Z.to_nat month) DAYS_BEFORE_MONTH 0
  + (if (2 <? month) && is_leap year then 1 else 0).

Definition ymd2ord (year month day : Z) : Z :=
  days_before_year year + days_before_month year month + day.

Definition DI400Y : Z := Eval cbv in days_before_year 401.
Definition DI100Y : Z := Eval cbv in days_before_year 101.
Definition DI4Y : Z := Eval cbv in days_before_year 5.

Record date : Type := Date { year : Z; month : Z; day : Z }.

(** [_ord2ymd] *)
Definition ord2ymd (n : Z) : date :=
  let n := n - 1 in
  let n400 := n / DI400Y in
  let n := n mod DI400Y in
  let year := n400 * 400 + 1 in
  let n100 := n / DI100Y in
  let n := n mod DI100Y in
  let n4 := n / DI4Y in
  let n := n mod DI4Y in
  let n1 := n / 365 in
  let n := n mod 365 in
  let year := year + n100 * 100 + n4 * 4 + n1 in
  if (n1 =? 4) || (n100 =? 4) then Date (year - 1) 12 31
  else
    let leapyear := (n1 =? 3) && (negb (n4 =? 24) || (n100 =? 3)) in
    let month := Z.shiftr (n + 50) 5 in
    let preceding :=
      nth (Z.to_nat month) DAYS_BEFORE_MONTH 0
      + (if (2 <? month) && leapyear then 1 else 0) in
    if n <? preceding then
      let month := month - 1 in
      let preceding :=
        preceding
        - (nth (Z.to_nat month) DAYS_IN_MONTH 0
           + (if (month =? 2) && leapyear then 1 else 0)) in
      Date year month (n - preceding + 1)
    else Date year month (n - preceding + 1).

(** The messages are those of the C implementation, which CPython
    loads by default. *)
Definition year_out_of_range (y : Z) : pystr :=
  lit "year " ++ str_of_int y ++ lit " is out of range".
Definition month_out_of_range : pystr := lit "month must be in 1..12".
Definition day_out_of_range : pystr := lit "day is out of range for month".

(** [date(year, month, day)] *)
Definition new (y m d : Z) : result date :=
  if negb ((MINYEAR <=? y) && (y <=? MAXYEAR)) then
    Raise (ValueError (year_out_of_range y))
  else if negb ((1 <=? m) && (m <=? 12)) then
    Raise (ValueError month_out_of_range)
  else if negb ((1 <=? d) && (d <=? days_in_month y m)) then
    Raise (ValueError day_out_of_range)
  else Ok (Date y m d).

(** [d.replace(year=y)] *)
Definition replace_year (d : date) (y : Z) : result date :=
  new y (month d) (day d).

Definition toordinal (d : date) : Z := ymd2ord (year d) (month d) (day d).

Definition fromordinal (n : Z) : date := ord2ymd n.

(** [a < b]: the order of the triples (year, month, day). *)
Definition ltb (a b : date) : bool :=
  (year a <? year b)
  || ((year a =? year b)
      && ((month a <? month b)
          || ((month a =? month b) && (day a <? day b)))).

(** [(a - b).days] *)
Definition sub_days (a b : date) : Z := toordinal a - toordinal b.

(** [d.weekday()]: Monday is 0, Sunday is 6. *)
Definition weekday (d : date) : Z := (toordinal d + 6) mod 7.

(** [d + timedelta(days=n)] *)
Definition add_days (d : date) (n : Z) : result date :=
  let o := toordinal d + n in
  if (0 <? o) && (o <=? MAXORDINAL) then Ok (fromordinal o)
  else Raise (OverflowError (lit "date value out of range")).

(** Zero-padded decimal of a non-negative int. *)
Definition zfill (width : nat) (n : Z) : pystr :=
  let s := str_of_int n in
  repeat 48%N (width - length s) ++ s.

(** [d.strftime("%d.%m.%Y")].  The format goes to the [strftime] of the
    C library, whose [%Y] (glibc) is the year as a decimal number, not
    padded: the year 999 is written 999. *)
Definition strftime_dmY (d : date) : pystr :=
  zfill 2 (day d) ++ lit "." ++ zfill 2 (month d) ++ lit "."
  ++ str_of_int (year d).

Definition valid (d : date) : Prop :=
  MINYEAR <= year d <= MAXYEAR /\ 1 <= month d <= 12
  /\ 1 <= day d <= days_in_month (year d) (month d).

End datetime.

(** ** Regular expressions, as [datetime.strptime] uses them

    [run r s] lists the ways [r] matches a prefix of [s], as pairs of the
    matched text and the rest, in the order in which the backtracking
    matcher of [re] tries them: the alternatives of [|] left to right. *)
Module re.

Inductive regex : Type :=
| Chr (c : N)              (* a literal character *)
| Rng (lo hi : N)          (* [lo-hi] *)
| Digit                    (* \d: any Unicode decimal digit *)
| Cat (r1 r2 : regex)
| Alt (r1 r2 : regex).

Definition accepts (r : regex) (c : N) : bool :=
  match r with
  | Chr x => (c =? x)%N
  | Rng lo hi => ((lo <=? c) && (c <=? hi))%N
  | Digit => Unicode.isdecimal c
  | _ => false
  end.

Definition one (r : regex) (s : pystr) : list (pystr * pystr) :=
  match s with
  | c :: s' => if accepts r c then [([c], s')] else []
  | [] => []
  end.

Fixpoint run (r : regex) (s : pystr) : list (pystr * pystr) :=
  match r with
  | Cat r1 r2 =>
      '(m1, s1) ← run r1 s; '(m2, s2) ← run r2 s1; [(m1 ++ m2, s2)]
  | Alt r1 r2 => run r1 s ++ run r2 s
  | _ => one r s
  end.

End re.

(** [int(s)] on the text of a regex group: leading blanks are skipped and
    the rest is read as Unicode decimal digits, at least one.  (Signs,
    underscores and base prefixes, which [int] also reads, occur in no
    group of the format below.) *)
Fixpoint int_digits (s : pystr) (acc : Z) : option Z :=
  match s with
  | [] => Some acc
  | c :: s' =>
      match Unicode.decimal c with
      | Some v => int_digits s' (10 * acc + Z.of_N v)
      | None => None
      end
  end.

Fixpoint lstrip (s : pystr) : pystr :=
  match s with
  | c :: s' => if (c =? 32)%N then lstrip s' else s
  | [] => []
  end.

Definition py_int (s : pystr) : option Z :=
  match lstrip s with
  | [] => None
  | s' => int_digits s' 0
  end.

(** [datetime.strptime(data, "%d.%m.%Y").date()], after Lib/_strptime.py.
    The format compiles to the regular expression
    [(?P<d>3[0-1]|[1-2]\d|0[1-9]|[1-9]| [1-9])\.(?P<m>1[0-2]|0[1-9]|[1-9])\.(?P<Y>\d\d\d\d)]
    (the IGNORECASE flag it is compiled with changes nothing for these
    characters); [data] must match it from its start and up to its end;
    the groups are converted by [int] and the date is constructed. *)
Module strptime.

Import re.

Definition re_d : regex :=
  Alt (Cat (Chr 51) (Rng 48 49))
 (Alt (Cat (Rng 49 50) Digit)
 (Alt (Cat (Chr 48) (Rng 49 57))
 (Alt (Rng 49 57)
      (Cat (Chr 32) (Rng 49 57))))).

Definition re_m : regex :=
  Alt (Cat (Chr 49) (Rng 48 50))
 (Alt (Cat (Chr 48) (Rng 49 57))
      (Rng 49 57)).

Definition re_Y : regex := Cat Digit (Cat Digit (Cat Digit Digit)).

Definition dot : regex := Chr 46.

(** The matches of the whole pattern: groups d, m, Y and the
    unconverted rest. *)
Definition matches (data : pystr) : list (pystr * pystr * pystr * pystr) :=
  '(d, s1) ← run re_d data;
  '(_, s2) ← run dot s1;
  '(m, s3) ← run re_m s2;
  '(_, s4) ← run dot s3;
  '(y, s5) ← run re_Y s4;
  [(d, m, y, s5)].

(** [repr] of the data, exact when it has no quote, backslash or
    non-printable character. *)
Definition repr (s : pystr) : pystr := lit "'" ++ s ++ lit "'".

Definition no_match (data : pystr) : pystr :=
  lit "time data " ++ repr data ++ lit " does not match format '%d.%m.%Y'".

Definition unconverted (rest : pystr) : pystr :=
  lit "unconverted data remains: " ++ rest.

Definition bad_int : pystr := lit "invalid literal for int() with base 10".

Definition to_int (s : pystr) : result Z :=
  match py_int s with
  | Some n => Ok n
  | None => Raise (ValueError bad_int)
  end.

Definition parse (data : pystr) : result datetime.date :=
  match head (matches data) with
  | None => Raise (ValueError (no_match data))
  | Some (d, m, y, rest) =>
      match rest with
      | _ :: _ => Raise (ValueError (unconverted rest))
      | [] =>
          let? year := to_int y in
          let? month := to_int m in
          let? day := to_int d in
          datetime.new year month day
      end
  end.

End strptime.

(** ** State and exceptions

    A method or handler is a function of the object it mutates: it returns
    its result or the exception it raises, and the object as it has left
    it. *)
Definition M (S A : Type) : Type := S -> result A * S.

Definition ret {S A} (a : A) : M S A := fun s => (Ok a, s).
Definition raise {S A} (e : exn) : M S A := fun s => (Raise e, s).
Definition lift {S A} (r : result A) : M S A := fun s => (r, s).
Definition get {S} : M S S := fun s => (Ok s, s).
Definition modify {S} (f : S -> S) : M S unit := fun s => (Ok tt, f s).

Definition bind {S A B} (m : M S A) (k : A -> M S B) : M S B :=
  fun s =>
    match m s with
    | (Ok a, s') => k a s'
    | (Raise e, s') => (Raise e, s')
    end.

Declare Scope M_scope.
Delimit Scope M_scope with M.
Notation "x <- m ;; k" := (bind m (fun x => k))
  (at level 100, m at next level, right associativity) : M_scope.
Notation "m ;; k" := (bind m (fun _ => k))
  (at level 100, right associativity) : M_scope.

(** ** Fields (main.py, lines 5-30) *)

Module Field.
Record t : Type := init { value : pystr }.
Definition str (f : t) : pystr := value f.
End Field.

Module Name.
Definition init (value : pystr) : Field.t := Field.init value.
End Name.

Module Phone.
Definition error : pystr := lit "Phone number must contain exactly 10 digits".

Definition init (value : pystr) : result Field.t :=
  if negb (str_isdigit value && (len value =? 10)) then
    Raise (ValueError error)
  else Ok (Field.init value).
End Phone.

Module Birthday.
Definition error : pystr := lit "Invalid date format. Use DD.MM.YYYY".

Definition init (value : pystr) : result Field.t :=
  match strptime.parse value with
  | Raise (ValueError _) => Raise (ValueError error)
  | Raise e => Raise e
  | Ok _ => Ok (Field.init value)
  end.
End Birthday.

(** ** Records (main.py, lines 33-64)

    The class is [Record] in the source; the word is reserved here. *)

Module ContactRecord.

Record t : Type := mk {
  name : Field.t;
  phones : list Field.t;
  birthday : option Field.t
}.

Definition init (name : pystr) : t := mk (Name.init name) [] None.

Definition set_phones (ps : list Field.t) (r : t) : t :=
  mk (name r) ps (birthday r).

Definition set_birthday (b : option Field.t) (r : t) : t :=
  mk (name r) (phones r) b.

Local Open Scope M_scope.

Definition add_phone (phone : pystr) : M t unit :=
  p <- lift (Phone.init phone) ;;
  modify (fun self => set_phones (phones self ++ [p]) self).

Definition remove_phone (phone : pystr) : M t unit :=
  modify (fun self =>
    set_phones
      (filter (fun p => Field.value p <> phone) (phones self)) self).

Definition not_found : pystr := lit "Phone not found".

(** The loop of [edit_phone]: [rest] is what [enumerate] has still to
    yield, from index [i] on. *)
Fixpoint edit_phone_loop (i : nat) (rest : list Field.t)
    (old_phone new_phone : pystr) : M t unit :=
  match rest with
  | [] => raise (ValueError not_found)
  | p :: rest' =>
      if decide (Field.value p = old_phone) then
        q <- lift (Phone.init new_phone) ;;
        modify (fun self => set_phones (<[i := q]> (phones self)) self)
      else edit_phone_loop (S i) rest' old_phone new_phone
  end.

Definition edit_phone (old_phone new_phone : pystr) : M t unit :=
  fun self => edit_phone_loop 0 (phones self) old_phone new_phone self.

Fixpoint find_phone_loop (rest : list Field.t) (phone : pystr)
    : option Field.t :=
  match rest with
  | [] => None
  | p :: rest' =>
      if decide (Field.value p = phone) then Some p
      else find_phone_loop rest' phone
  end.

Definition find_phone (self : t) (phone : pystr) : option Field.t :=
  find_phone_loop (phones self) phone.

Definition add_birthday (birthday : pystr) : M t unit :=
  b <- lift (Birthday.init birthday) ;;
  modify (set_birthday (Some b)).

Definition str (self : t) : pystr :=
  let phones := join (lit "; ") (map Field.value (phones self)) in
  let birthday :=
    match birthday self with
    | Some b => Field.value b
    | None => lit "None"
    end in
  lit "Contact name: " ++ Field.value (name self)
  ++ lit ", phones: " ++ phones ++ lit ", birthday: " ++ birthday.

End ContactRecord.

(** ** The address book (main.py, lines 67-109)

    [UserDict.data] is a dict: its keys are unique and it iterates in the
    order in which the keys were first inserted.  It is kept as the list of
    its items in that order.

    The values are Record objects, which the handlers mutate through the
    reference that [find] returns.  A Record never changes its name and
    [add_record] files it under that name, so the object a handler holds is
    the one stored under the key it looked up: [on_record] runs a method on
    it and stores what the method has left. *)
Module AddressBook.

Definition t : Type := list (pystr * ContactRecord.t).

(** [data[key] = record] *)
Fixpoint setitem (key : pystr) (record : ContactRecord.t) (data : t) : t :=
  match data with
  | [] => [(key, record)]
  | (k, r) :: data' =>
      if decide (k = key) then (key, record) :: data'
      else (k, r) :: setitem key record data'
  end.

(** [data.get(key)] *)
Fixpoint getitem (key : pystr) (data : t) : option ContactRecord.t :=
  match data with
  | [] => None
  | (k, r) :: data' =>
      if decide (k = key) then Some r else getitem key data'
  end.

(** [del data[key]] *)
Fixpoint delitem (key : pystr) (data : t) : t :=
  match data with
  | [] => []
  | (k, r) :: data' =>
      if decide (k = key) then data' else (k, r) :: delitem key data'
  end.

Definition values (data : t) : list ContactRecord.t := map snd data.

Definition add_record (record : ContactRecord.t) : M t unit :=
  modify (setitem (Field.value (ContactRecord.name record)) record).

Definition find (name : pystr) : M t (option ContactRecord.t) :=
  fun self => (Ok (getitem name self), self).

Definition delete (name : pystr) : M t unit :=
  fun self =>
    match getitem name self with
    | Some _ => (Ok tt, delitem name self)
    | None => (Ok tt, self)
    end.

Definition on_record {A} (record : ContactRecord.t)
    (method : M ContactRecord.t A) : M t A :=
  fun self =>
    let (res, record') := method record in
    (res, setitem (Field.value (ContactRecord.name record)) record' self).

(** An element of the list [get_upcoming_birthdays] returns: a dict with
    the keys "name" and "birthday". *)
Record entry : Type := Entry { name : pystr; birthday : pystr }.

(** Lines 87-90: the birthday moved to the year of [today], and to the
    next year when that is past. *)
Definition occurrence (today bday : datetime.date) : result datetime.date :=
  let? bday_this_year := datetime.replace_year bday (datetime.year today) in
  if datetime.ltb bday_this_year today then
    datetime.replace_year bday_this_year (datetime.year today + 1)
  else Ok bday_this_year.

(** Lines 95-99. *)
Definition congratulation (bday_this_year : datetime.date)
    : result datetime.date :=
  let congrat_date := bday_this_year in
  if datetime.weekday congrat_date =? 5 then
    datetime.add_days congrat_date 2
  else if datetime.weekday congrat_date =? 6 then
    datetime.add_days congrat_date 1
  else Ok congrat_date.

(** The body of the loop, lines 83-104: the list [result] (here [res])
    after the iteration on [record]. *)
Definition visit (today : datetime.date) (record : ContactRecord.t)
    (res : list entry) : result (list entry) :=
  match ContactRecord.birthday record with
  | None => Ok res
  | Some b =>
      let? bday := strptime.parse (Field.value b) in
      let? bday_this_year := occurrence today bday in
      let delta := datetime.sub_days bday_this_year today in
      if (0 <=? delta) && (delta <=? 7) then
        let? congrat_date := congratulation bday_this_year in
        Ok (res ++
            [Entry (Field.value (ContactRecord.name record))
                   (datetime.strftime_dmY congrat_date)])
      else Ok res
  end.

Fixpoint loop (today : datetime.date) (records : list ContactRecord.t)
    (res : list entry) : result (list entry) :=
  match records with
  | [] => Ok res
  | record :: records' =>
      let? res := visit today record res in
      loop today records' res
  end.

(** [today] is [datetime.today().date()], the reading of the clock. *)
Definition get_upcoming_birthdays (today : datetime.date) (self : t)
    : result (list entry) :=
  loop today (values self) [].

Definition str (self : t) : pystr :=
  join (lit (String "010" EmptyString)) (map ContactRecord.str (values self)).

End AddressBook.

(** ** The command handlers (main.py, lines 112-191) *)

Definition not_enough_arguments : pystr := lit "Not enough arguments.".
Definition contact_not_found : pystr := lit "Contact not found.".

(** The decorator: what the wrapped handler returns, or the message for
    the exception it raises; any other exception passes through. *)
Definition input_error {S A} (func : A -> M S pystr) : A -> M S pystr :=
  fun args book =>
    match func args book with
    | (Ok s, book') => (Ok s, book')
    | (Raise (ValueError e), book') => (Ok e, book')
    | (Raise IndexError, book') => (Ok not_enough_arguments, book')
    | (Raise KeyError, book') => (Ok contact_not_found, book')
    | (Raise e, book') => (Raise e, book')
    end.

(** Unpacking a list into [n] targets ([a, b = args]).  With too many
    values CPython 3.14 adds the count to the message. *)
Definition unpack_error (n : nat) (args : list pystr) : exn :=
  if (length args <? n)%nat then
    ValueError (lit "not enough values to unpack (expected "
                ++ str_of_int (Z.of_nat n) ++ lit ", got "
                ++ str_of_int (Z.of_nat (length args)) ++ lit ")")
  else
    ValueError (lit "too many values to unpack (expected "
                ++ str_of_int (Z.of_nat n) ++ lit ")").

Definition unpack2 (args : list pystr) : result (pystr * pystr) :=
  match args with
  | [a; b] => Ok (a, b)
  | _ => Raise (unpack_error 2 args)
  end.

Definition unpack3 (args : list pystr) : result (pystr * pystr * pystr) :=
  match args with
  | [a; b; c] => Ok (a, b, c)
  | _ => Raise (unpack_error 3 args)
  end.

(** [args[0]] *)
Definition item0 (args : list pystr) : result pystr :=
  match args with
  | a :: _ => Ok a
  | [] => Raise IndexError
  end.

Section Handlers.

Local Open Scope M_scope.
Import AddressBook.

Definition add_contact_body (args : list pystr) : M AddressBook.t pystr :=
  np <- lift (unpack2 args) ;;
  let (name, phone) := np : pystr * pystr in
  record <- find name ;;
  match record with
  | None =>
      let record := ContactRecord.init name in
      add_record record ;;
      on_record record (ContactRecord.add_phone phone) ;;
      ret (lit "Contact added.")
  | Some record =>
      on_record record (ContactRecord.add_phone phone) ;;
      ret (lit "Contact updated.")
  end.

Definition add_contact := input_error add_contact_body.

Definition change_contact_body (args : list pystr) : M AddressBook.t pystr :=
  non <- lift (unpack3 args) ;;
  let '(name, old_phone, new_phone) := non : pystr * pystr * pystr in
  record <- find name ;;
  match record with
  | None => raise KeyError
  | Some record =>
      on_record record (ContactRecord.edit_phone old_phone new_phone) ;;
      ret (lit "Phone updated.")
  end.

Definition change_contact := input_error change_contact_body.

Definition show_phone_body (args : list pystr) : M AddressBook.t pystr :=
  name <- lift (item0 args) ;;
  record <- find name ;;
  match record with
  | None => raise KeyError
  | Some record =>
      ret (join (lit "; ") (map Field.value (ContactRecord.phones record)))
  end.

Definition show_phone := input_error show_phone_body.

Definition show_all_body (_ : list pystr) : M AddressBook.t pystr :=
  book <- get ;;
  match book with
  | [] => ret (lit "No contacts.")
  | _ => ret (AddressBook.str book)
  end.

Definition show_all := input_error show_all_body.

Definition add_birthday_body (args : list pystr) : M AddressBook.t pystr :=
  nb <- lift (unpack2 args) ;;
  let (name, birthday) := nb : pystr * pystr in
  record <- find name ;;
  match record with
  | None => raise KeyError
  | Some record =>
      on_record record (ContactRecord.add_birthday birthday) ;;
      ret (lit "Birthday added.")
  end.

Definition add_birthday := input_error add_birthday_body.

Definition show_birthday_body (args : list pystr) : M AddressBook.t pystr :=
  name <- lift (item0 args) ;;
  record <- find name ;;
  match record with
  | None => ret (lit "Birthday not set.")
  | Some record =>
      match ContactRecord.birthday record with
      | None => ret (lit "Birthday not set.")
      | Some b => ret (Field.value b)
      end
  end.

Definition show_birthday := input_error show_birthday_body.

(** U+2014, the dash of the f-string of [birthdays]. *)
Definition em_dash : pystr := [32; 8212; 32]%N.

Definition birthdays_body (today : datetime.date) (_ : list pystr)
    : M AddressBook.t pystr :=
  book <- get ;;
  upcoming <- lift (get_upcoming_birthdays today book) ;;
  match upcoming with
  | [] => ret (lit "No birthdays in the next 7 days.")
  | _ =>
      ret (join (lit (String "010" EmptyString))
             (map (fun u => name u ++ em_dash ++ birthday u) upcoming))
  end.

Definition birthdays (today : datetime.date) :=
  input_error (birthdays_body today).

End Handlers.

(** ** The command loop (main.py, lines 125-127 and 194-218) *)

(** [c.isspace()]: the characters [str.split] with no separator splits
    at (bidirectional type WS, B or S, or category Zs). *)
Definition isspace (c : N) : bool :=
  (((0x09 <=? c) && (c <=? 0x0D)) || ((0x1C <=? c) && (c <=? 0x20))
   || (c =? 0x85) || (c =? 0xA0) || (c =? 0x1680)
   || ((0x2000 <=? c) && (c <=? 0x200A)) || (c =? 0x2028) || (c =? 0x2029)
   || (c =? 0x202F) || (c =? 0x205F) || (c =? 0x3000))%N.

(** [s.split()]: the maximal runs of characters that are not whitespace.
    [word] is the run being read, when one has begun. *)
Fixpoint split_from (s : pystr) (word : option pystr) : list pystr :=
  match s with
  | [] =>
      match word with
      | Some w => [w]
      | None => []
      end
  | c :: s' =>
      if isspace c then
        match word with
        | Some w => w :: split_from s' None
        | None => split_from s' None
        end
      else
        split_from s'
          (Some (match word with
                 | Some w => w ++ [c]
                 | None => [c]
                 end))
  end.

Definition split (s : pystr) : list pystr := split_from s None.

(** What is on the terminal: the texts of [print] and the prompts of
    [input]. *)
Inductive event : Type :=
| Print (text : pystr)
| Prompt (text : pystr).

(** How [main] ends: it returns after [close] or [exit]; [input] raises
    EOFError when the input has ended; an exception leaves it. *)
Inductive ending : Type :=
| Returned
| EndOfInput
| Uncaught (e : exn).

(** The branch of the chain of [if] and [elif] that a command takes. *)
Inductive branch : Type :=
| Bye
| Hello
| Handler (handler : list pystr -> M AddressBook.t pystr)
| Nothing.

Section CommandLoop.

(** [str.lower], the lowercasing of the Unicode database. *)
Variable lower : pystr -> pystr.

Definition parse_input (user_input : pystr) : result (pystr * list pystr) :=
  match split user_input with
  | [] =>
      Raise (ValueError
               (lit "not enough values to unpack (expected at least 1, got 0)"))
  | cmd :: args => Ok (lower cmd, args)
  end.

(** The chain of [if] and [elif] of lines 202-218. *)
Definition choose (command : pystr) : branch :=
  if decide (command = lit "close" \/ command = lit "exit") then Bye
  else if decide (command = lit "hello") then Hello
  else if decide (command = lit "add") then Handler add_contact
  else if decide (command = lit "change") then Handler change_contact
  else if decide (command = lit "phone") then Handler show_phone
  else if decide (command = lit "all") then Handler show_all
  else if decide (command = lit "add-birthday") then Handler add_birthday
  else if decide (command = lit "show-birthday") then Handler show_birthday
  else Nothing.

Definition prompt : event := Prompt (lit "Enter a command: ").

(** The loop of [main] on the lines that [input] will return. *)
Fixpoint main_loop (inputs : list pystr) (book : AddressBook.t)
    : list event * AddressBook.t * ending :=
  match inputs with
  | [] => ([prompt], book, EndOfInput)
  | user_input :: inputs' =>
      match parse_input user_input with
      | Raise e => ([prompt], book, Uncaught e)
      | Ok (command, args) =>
          match choose command with
          | Bye => ([prompt; Print (lit "Good bye!")], book, Returned)
          | Hello =>
              let '(events, book', e) := main_loop inputs' book in
              (prompt :: Print (lit "How can I help you?") :: events, book', e)
          | Handler handler =>
              match handler args book with
              | (Ok text, book1) =>
                  let '(events, book', e) := main_loop inputs' book1 in
                  (prompt :: Print text :: events, book', e)
              | (Raise e, book1) => ([prompt], book1, Uncaught e)
              end
          | Nothing =>
              let '(events, book', e) := main_loop inputs' book in
              (prompt :: events, book', e)
          end
      end
  end.

Definition main (inputs : list pystr) : list event * AddressBook.t * ending :=
  let '(events, book, e) := main_loop inputs [] in
  (Print (lit "Welcome to the assistant bot!") :: events, book, e).

End CommandLoop.

(** ** Predicates of the specification *)

(** A phone as the spec words it: exactly 10 ASCII decimal digits. *)
Definition ten_ascii_digits (s : pystr) : Prop :=
  length s = 10%nat /\ Forall (fun c => Unicode.is_ascii_digit c = true) s.

(** A phone as [Phone] checks it: exactly 10 characters that [str.isdigit]
    takes for digits. *)
Definition ten_digits (s : pystr) : Prop :=
  length s = 10%nat /\ Forall (fun c => Unicode.isdigit c = true) s.

Definition ascii_only (s : pystr) : Prop :=
  Forall (fun c => Unicode.is_ascii c = true) s.

(** The digits ٠١٢٣٤٥٦٧٨٩ (U+0660 to U+0669). *)
Definition arabic_indic_digits : pystr :=
  [0x660; 0x661; 0x662; 0x663; 0x664; 0x665; 0x666; 0x667; 0x668; 0x669]%N.

(** The invariant of the stored phones, as the code keeps it. *)
Definition record_inv (r : ContactRecord.t) : Prop :=
  Forall (fun p => ten_digits (Field.value p)) (ContactRecord.phones r).

Definition book_inv (book : AddressBook.t) : Prop :=
  Forall (fun kr => record_inv (snd kr)) book.

(** The occurrence of a birthday as the spec words it: the day and month
    of the birthday in the year of [today], or in the next year when that
    date is strictly earlier than [today]. *)
Definition claimed_occurrence (today bday : datetime.date) : datetime.date :=
  let occurrence :=
    datetime.Date (datetime.year today) (datetime.month bday)
      (datetime.day bday) in
  if datetime.ltb occurrence today then
    datetime.Date (datetime.year today + 1) (datetime.month bday)
      (datetime.day bday)
  else occurrence.


(** The congratulation date as the spec words it: two days after a
    Saturday, one day after a Sunday, the date itself otherwise. *)
Definition claimed_congratulation (occurrence : datetime.date)
    : datetime.date :=
  if datetime.weekday occurrence =? 5 then
    datetime.fromordinal (datetime.toordinal occurrence + 2)
  else if datetime.weekday occurrence =? 6 then
    datetime.fromordinal (datetime.toordinal occurrence + 1)
  else occurrence.

(** The names of the records of an address book are distinct: its keys
    are, and a record is stored under its name. *)
Definition record_name (r : ContactRecord.t) : pystr :=
  Field.value (ContactRecord.name r).

Definition unique_names (book : AddressBook.t) : Prop :=
  NoDup (map record_name (AddressBook.values book)).

Definition keyed_by_name (book : AddressBook.t) : Prop :=
  NoDup (map fst book) /\ Forall (fun kr => record_name (snd kr) = fst kr) book.

(** The errors the spec documents: InvalidFormat of either validator and
    NotFound. *)
Definition documented (msg : pystr) : Prop :=
  msg = Phone.error \/ msg = Birthday.error \/ msg = ContactRecord.not_found.

(** The test of line 94 on an occurrence. *)
Definition in_window (today occ : datetime.date) : bool :=
  (0 <=? datetime.sub_days occ today) && (datetime.sub_days occ today <=? 7).

(** What one iteration of the loop of [get_upcoming_birthdays] appends. *)
Definition produced (today : datetime.date) (record : ContactRecord.t)
    : result (list AddressBook.entry) :=
  AddressBook.visit today record [].

Definition entries_of (today : datetime.date) (record : ContactRecord.t)
    : list AddressBook.entry :=
  match produced today record with
  | Ok es => es
  | Raise _ => []
  end.

(** An error of the date library: a ValueError whose message starts
    with a letter other than the P and I of the documented messages. *)
Definition library_error (e : exn) : Prop :=
  exists msg c, e = ValueError msg /\ head msg = Some c
                /\ c <> 80%N /\ c <> 73%N.

(** The occurrence of the birthday of a record can be constructed. *)
Definition constructible (today : datetime.date) (record : ContactRecord.t)
    : Prop :=
  forall b, ContactRecord.birthday record = Some b ->
    exists bday occ, strptime.parse (Field.value b) = Ok bday
                     /\ AddressBook.occurrence today bday = Ok occ.

(** The scenarios of the spec. *)
Definition with_birthday (name birthday : string) : pystr * ContactRecord.t :=
  (lit name,
   ContactRecord.mk (Name.init (lit name)) [] (Some (Field.init (lit birthday)))).

(** The texts a regular expression matches. *)
Inductive lang : re.regex -> pystr -> Prop :=
| lang_one r c : re.accepts r c = true -> lang r [c]
| lang_cat r1 r2 s1 s2 : lang r1 s1 -> lang r2 s2 -> lang (re.Cat r1 r2) (s1 ++ s2)
| lang_alt_l r1 r2 s : lang r1 s -> lang (re.Alt r1 r2) s
| lang_alt_r r1 r2 s : lang r2 s -> lang (re.Alt r1 r2) s.

(** Some character class of the expression takes the character. *)
Fixpoint may_match (r : re.regex) (c : N) : bool :=
  match r with
  | re.Cat r1 r2 | re.Alt r1 r2 => may_match r1 c || may_match r2 c
  | _ => re.accepts r c
  end.

(** Every text of the expression has [n] characters. *)
Fixpoint fixed_length (r : re.regex) (n : nat) : Prop :=
  match r with
  | re.Cat r1 r2 =>
      exists n1 n2, fixed_length r1 n1 /\ fixed_length r2 n2 /\ n = (n1 + n2)%nat
  | re.Alt r1 r2 => fixed_length r1 n /\ fixed_length r2 n
  | _ => n = 1%nat
  end.

(** A birthday text as [Birthday] takes it: day, month and year as the
    pattern of [strptime] takes them, separated by dots, the numbers they
    read as making a date of the years 1 to 9999. *)
Definition date_text (raw : pystr) (dt : datetime.date) : Prop :=
  exists d m y,
    raw = d ++ [46%N] ++ m ++ [46%N] ++ y
    /\ lang strptime.re_d d /\ lang strptime.re_m m /\ lang strptime.re_Y y
    /\ py_int d = Some (datetime.day dt)
    /\ py_int m = Some (datetime.month dt)
    /\ py_int y = Some (datetime.year dt)
    /\ datetime.valid dt.

(** The same for a text of ASCII characters, by the shape of the numbers:
    ASCII digits, [k] of them. *)
Definition ascii_digits (k : nat) (s : pystr) : Prop :=
  length s = k /\ Forall (fun c => Unicode.is_ascii_digit c = true) s.

(** The number a text of ASCII digits, after blanks, reads as. *)
Definition number (s : pystr) : Z :=
  fold_left (fun acc c => 10 * acc + (Z.of_N c - 48)) (lstrip s) 0.

Definition day_shape (d : pystr) : Prop :=
  ascii_digits 1 d \/ ascii_digits 2 d
  \/ exists c, d = [32%N; c] /\ Unicode.is_ascii_digit c = true.

Definition month_shape (m : pystr) : Prop :=
  ascii_digits 1 m \/ ascii_digits 2 m.

Definition ascii_date_text (raw : pystr) : Prop :=
  exists d m y,
    raw = d ++ [46%N] ++ m ++ [46%N] ++ y
    /\ day_shape d /\ month_shape m /\ ascii_digits 4 y
    /\ datetime.valid (datetime.Date (number y) (number m) (number d)).

(** The pattern of the spec: two digits, two digits, four digits. *)
Definition claimed_date_text (raw : pystr) : Prop :=
  exists d m y,
    raw = d ++ [46%N] ++ m ++ [46%N] ++ y
    /\ ascii_digits 2 d /\ ascii_digits 2 m /\ ascii_digits 4 y
    /\ datetime.valid (datetime.Date (number y) (number m) (number d)).

(** The invariant of the stored birthday: [Birthday] has taken it. *)
Definition birthday_inv (r : ContactRecord.t) : Prop :=
  forall b, ContactRecord.birthday r = Some b ->
    exists dt, date_text (Field.value b) dt.

(** ** Reading a rendered record back

    The spec asks that the text of [Record.__str__] can be parsed back;
    the source has no parser.  [parse_back] is one: it cuts the text at its
    last two commas, which are those of ", phones: " and ", birthday: "
    since neither a phone nor a birthday has a comma. *)

(** [s] without the prefix [p], when it starts with it. *)
Fixpoint strip_prefix (p s : pystr) : option pystr :=
  match p, s with
  | [], _ => Some s
  | a :: p', b :: s' => if (a =? b)%N then strip_prefix p' s' else None
  | _ :: _, [] => None
  end.

(** [s] cut at the last occurrence of [c]. *)
Fixpoint split_last (c : N) (s : pystr) : option (pystr * pystr) :=
  match s with
  | [] => None
  | a :: s' =>
      match split_last c s' with
      | Some (x, y) => Some (a :: x, y)
      | None => if (a =? c)%N then Some ([], s') else None
      end
  end.

(** [s] cut at every occurrence of [c]. *)
Fixpoint split_on (c : N) (s : pystr) : list pystr :=
  match s with
  | [] => [[]]
  | a :: s' =>
      if (a =? c)%N then [] :: split_on c s'
      else
        match split_on c s' with
        | h :: t => (a :: h) :: t
        | [] => [[a]]
        end
  end.

Definition parse_phones (joined : pystr) : list Field.t :=
  match joined with
  | [] => []
  | _ =>
      match split_on 59 joined with
      | [] => []
      | p :: ps => map Field.init (p :: map (drop 1) ps)
      end
  end.

Definition parse_back (text : pystr) : option ContactRecord.t :=
  s ← strip_prefix (lit "Contact name: ") text;
  '(x, b) ← split_last 44 s;
  birthday ← strip_prefix (lit " birthday: ") b;
  '(name, j) ← split_last 44 x;
  phones ← strip_prefix (lit " phones: ") j;
  Some (ContactRecord.mk (Name.init name) (parse_phones phones)
          (if decide (birthday = lit "None") then None
           else Some (Field.init birthday))).

(** The records the program can build: a new record, and what the
    methods make of one (whether they return or raise). *)
Inductive built : ContactRecord.t -> Prop :=
| built_init name : built (ContactRecord.init name)
| built_add_phone r phone :
    built r -> built (snd (ContactRecord.add_phone phone r))
| built_remove_phone r phone :
    built r -> built (snd (ContactRecord.remove_phone phone r))
| built_edit_phone r old_phone new_phone :
    built r -> built (snd (ContactRecord.edit_phone old_phone new_phone r))
| built_add_birthday r birthday :
    built r -> built (snd (ContactRecord.add_birthday birthday r)).

(** A record with a name that itself looks like a rendered record. *)
Definition tricky_record : ContactRecord.t :=
  snd (ContactRecord.add_birthday (lit "1.1.2024")
    (snd (ContactRecord.add_phone (lit "9876543210")
      (snd (ContactRecord.add_phone (lit "0123456789")
        (ContactRecord.init
           (lit "A, phones: 1111111111, birthday: None"))))))).

(** [s] is a text of [r] that [int] reads as [n]. *)
Definition reads_as (r : re.regex) (n : Z) (s : pystr) : bool :=
  existsb (fun p => match snd p with [] => true | _ => false end) (re.run r s)
  && match py_int s with
     | Some k => k =? n
     | None => false
     end.

(** February 29. *)
Definition feb29 (d : datetime.date) : Prop :=
  datetime.month d = 2 /\ datetime.day d = 29.

(** Every stored birthday of the book is one [Birthday] has taken. *)
Definition birthdays_inv (book : AddressBook.t) : Prop :=
  Forall (fun kr => birthday_inv (snd kr)) book.



(** A book with one record, Ann, who has one phone and a birthday. *)
Definition sample_record : ContactRecord.t :=
  ContactRecord.mk (Name.init (lit "Ann")) [Field.init (lit "0123456789")]
    (Some (Field.init (lit "17.06.1990"))).

Definition sample_book : AddressBook.t := [(lit "Ann", sample_record)].

(** The exceptions for which the decorator [input_error] has a clause. *)
Definition caught (e : exn) : Prop :=
  match e with
  | OverflowError _ => False
  | _ => True
  end.

(** The invariants of a book the handlers have built: the records are
    filed under their names, which are distinct, and their phones and
    birthdays are texts the validators have taken. *)
Definition book_wf (book : AddressBook.t) : Prop :=
  keyed_by_name book /\ book_inv book /\ birthdays_inv book.

(** A token of [str.split]: not empty, without whitespace. *)
Definition token (t : pystr) : Prop :=
  t <> [] /\ Forall (fun c => isspace c = false) t.

(** A line of whitespace only (the empty line is one). *)
Definition blank (line : pystr) : Prop :=
  Forall (fun c => isspace c = true) line.

(** The names of the commands [main] has a branch for. *)
Definition command_names : list pystr :=
  [lit "close"; lit "exit"; lit "hello"; lit "add"; lit "change"; lit "phone";
   lit "all"; lit "add-birthday"; lit "show-birthday"].

Definition unpack_at_least_1 : exn :=
  ValueError (lit "not enough values to unpack (expected at least 1, got 0)").

(** [str.lower] on a text of ASCII characters. *)
Definition ascii_lower (s : pystr) : pystr :=
  map (fun c => if ((65 <=? c) && (c <=? 90))%N then (c + 32)%N else c) s.

(** The parts of what [main] gives. *)
Definition events_of (r : list event * AddressBook.t * ending) : list event :=
  fst (fst r).
Definition final_book (r : list event * AddressBook.t * ending)
    : AddressBook.t :=
  snd (fst r).
Definition ending_of (r : list event * AddressBook.t * ending) : ending :=
  snd r.

(** The names under which the records are filed are tokens. *)
Definition names_tokens (book : AddressBook.t) : Prop :=
  Forall (fun kr => token (fst kr)) book.

(** * Theorems *)

(** ** Characters *)

Lemma ascii_isdigit c :
  Unicode.is_ascii c = true ->
  Unicode.isdigit c = Unicode.is_ascii_digit c.
Proof.
  intros Hc.
  assert (Hall : forallb
            (fun n => Bool.eqb (Unicode.isdigit n) (Unicode.is_ascii_digit n))
            (map N.of_nat (seq 0 128)) = true) by (vm_compute; reflexivity).
  rewrite forallb_forall in Hall.
  apply Bool.eqb_prop, Hall.
  apply in_map_iff. exists (N.to_nat c). split; [apply N2Nat.id|].
  apply in_seq. unfold Unicode.is_ascii in Hc.
  apply N.ltb_lt in Hc. lia.
Qed.

Lemma ascii_digit_isdigit c :
  Unicode.is_ascii_digit c = true -> Unicode.isdigit c = true.
Proof.
  intros Hc. rewrite ascii_isdigit; [exact Hc|].
  unfold Unicode.is_ascii_digit, Unicode.is_ascii in *.
  apply andb_prop in Hc as [_ Hc]. apply N.leb_le in Hc.
  apply N.ltb_lt. lia.
Qed.

Lemma str_isdigit_spec s :
  str_isdigit s = true <->
  s <> [] /\ Forall (fun c => Unicode.isdigit c = true) s.
Proof.
  unfold str_isdigit. destruct s as [|c s'].
  - split; [discriminate | intros [H _]; congruence].
  - rewrite forallb_forall, List.Forall_forall.
    split; [intros H; split; [discriminate | exact H] | intros [_ H]; exact H].
Qed.

Lemma len_10 s : (len s =? 10) = true <-> length s = 10%nat.
Proof. unfold len. rewrite Z.eqb_eq. lia. Qed.

(** ** Phone *)

Lemma Phone_init_ok raw :
  ten_digits raw -> Phone.init raw = Ok (Field.init raw).
Proof.
  intros [Hlen Hall]. unfold Phone.init.
  assert (H1 : str_isdigit raw = true).
  { apply str_isdigit_spec. split; [|exact Hall].
    intros ->. discriminate Hlen. }
  assert (H2 : (len raw =? 10) = true) by (apply len_10; exact Hlen).
  rewrite H1, H2. reflexivity.
Qed.

Lemma Phone_init_raise raw :
  ~ ten_digits raw -> Phone.init raw = Raise (ValueError Phone.error).
Proof.
  intros Hn. unfold Phone.init.
  destruct (str_isdigit raw) eqn:H1; [|reflexivity].
  destruct (len raw =? 10) eqn:H2; [|reflexivity].
  exfalso. apply Hn. split; [apply len_10; exact H2|].
  apply str_isdigit_spec in H1. apply H1.
Qed.

Lemma ten_digits_dec raw : {ten_digits raw} + {~ ten_digits raw}.
Proof.
  unfold ten_digits.
  destruct (Nat.eq_dec (length raw) 10%nat) as [Hl|Hl]; [|right; tauto].
  destruct (forallb Unicode.isdigit raw) eqn:Hf.
  - left. split; [exact Hl|]. apply List.Forall_forall, forallb_forall, Hf.
  - right. intros [_ H]. rewrite List.Forall_forall, <- forallb_forall in H.
    congruence.
Qed.

Lemma Phone_init_inv raw p :
  Phone.init raw = Ok p -> p = Field.init raw /\ ten_digits raw.
Proof.
  intros H. destruct (ten_digits_dec raw) as [Hd|Hd].
  - rewrite (Phone_init_ok _ Hd) in H. inversion H. auto.
  - rewrite (Phone_init_raise _ Hd) in H. discriminate.
Qed.

Lemma Phone_init_cases raw :
  Phone.init raw = Ok (Field.init raw)
  \/ Phone.init raw = Raise (ValueError Phone.error).
Proof.
  destruct (ten_digits_dec raw) as [Hd|Hd];
    [left; apply Phone_init_ok | right; apply Phone_init_raise]; exact Hd.
Qed.

(** C4, as the code has it.  [Phone(raw)] succeeds exactly on the strings
    of 10 characters that [str.isdigit] takes for digits, stores [raw]
    unchanged, and raises the ValueError of the validator on every other
    string; on a string of ASCII characters these are the strings of
    exactly 10 characters 0-9, and every such string is accepted. *)
Theorem Phone_init_spec (raw : pystr) :
  (Phone.init raw = Ok (Field.init raw) <-> ten_digits raw)
  /\ (forall p, Phone.init raw = Ok p -> Field.value p = raw)
  /\ (~ ten_digits raw <-> Phone.init raw = Raise (ValueError Phone.error))
  /\ (ascii_only raw -> (ten_digits raw <-> ten_ascii_digits raw))
  /\ (ten_ascii_digits raw -> Phone.init raw = Ok (Field.init raw)).
Proof.
  split; [|split; [|split; [|split]]].
  - split; [intros H; apply Phone_init_inv in H; apply H | apply Phone_init_ok].
  - intros p H. apply Phone_init_inv in H as [-> _]. reflexivity.
  - split; [apply Phone_init_raise|].
    intros H Hd. rewrite (Phone_init_ok _ Hd) in H. discriminate.
  - intros Ha. unfold ten_digits, ten_ascii_digits, ascii_only in *.
    rewrite !List.Forall_forall in *.
    split; intros [Hl Hd]; (split; [exact Hl|]); intros c Hc.
    + rewrite <- ascii_isdigit; auto.
    + rewrite ascii_isdigit; auto.
  - intros [Hl Hd]. apply Phone_init_ok. split; [exact Hl|].
    eapply Forall_impl; [exact Hd|]. intros c. apply ascii_digit_isdigit.
Qed.

(** C4 as the spec states it fails: the ten Arabic-Indic digits are
    accepted, and none of them is an ASCII digit. *)
Lemma Phone_init_accepts_non_ascii :
  Phone.init arabic_indic_digits = Ok (Field.init arabic_indic_digits)
  /\ ~ ten_ascii_digits arabic_indic_digits.
Proof.
  split; [reflexivity|].
  intros [_ H]. inversion H as [|c l Hc _]. discriminate Hc.
Qed.

(** ** Record.edit_phone *)

Section EditPhone.

Import ContactRecord.
Variables old_phone new_phone : pystr.

Lemma edit_phone_loop_absent rest i self :
  (forall p, In p rest -> Field.value p <> old_phone) ->
  edit_phone_loop i rest old_phone new_phone self
  = (Raise (ValueError not_found), self).
Proof.
  revert i. induction rest as [|p rest IH]; intros i Hno; simpl.
  - reflexivity.
  - destruct (decide (Field.value p = old_phone)) as [Heq|_].
    + exfalso. apply (Hno p); [left; reflexivity | exact Heq].
    + apply IH. intros x Hx. apply Hno. right. exact Hx.
Qed.

Lemma edit_phone_loop_found pre p post i self :
  Field.value p = old_phone ->
  (forall x, In x pre -> Field.value x <> old_phone) ->
  edit_phone_loop i (pre ++ p :: post) old_phone new_phone self
  = match Phone.init new_phone with
    | Ok q =>
        (Ok tt, set_phones (<[(i + length pre)%nat := q]> (phones self)) self)
    | Raise e => (Raise e, self)
    end.
Proof.
  intros Hp. revert i. induction pre as [|x pre IH]; intros i Hno; simpl.
  - destruct (decide (Field.value p = old_phone)) as [_|Hne]; [|contradiction].
    unfold bind, lift, modify. rewrite Nat.add_0_r.
    destruct (Phone.init new_phone); reflexivity.
  - destruct (decide (Field.value x = old_phone)) as [Heq|_].
    + exfalso. apply (Hno x); [left; reflexivity | exact Heq].
    + rewrite IH by (intros y Hy; apply Hno; right; exact Hy).
      replace (S i + length pre)%nat with (i + S (length pre))%nat by lia.
      reflexivity.
Qed.

Lemma insert_middle {A} (pre post : list A) (x y : A) :
  <[length pre := y]> (pre ++ x :: post) = pre ++ y :: post.
Proof. induction pre as [|a pre IH]; simpl; [reflexivity | now rewrite IH]. Qed.

Lemma first_match (l : list Field.t) :
  (forall p, In p l -> Field.value p <> old_phone)
  \/ exists pre p post, l = pre ++ p :: post /\ Field.value p = old_phone
       /\ (forall x, In x pre -> Field.value x <> old_phone).
Proof.
  induction l as [|a l IH].
  - left. intros p [].
  - destruct (decide (Field.value a = old_phone)) as [Ha|Ha].
    + right. exists [], a, l. split; [reflexivity|]. split; [exact Ha|].
      intros x [].
    + destruct IH as [IH|(pre & p & post & -> & Hp & Hpre)].
      * left. intros p [<-|Hp]; [exact Ha | apply IH, Hp].
      * right. exists (a :: pre), p, post. split; [reflexivity|].
        split; [exact Hp|]. intros x [<-|Hx]; [exact Ha | apply Hpre, Hx].
Qed.

(** C6.  [edit_phone] raises "Phone not found" when no phone equals
    [old_phone]; otherwise it validates [new_phone] and puts it at the
    position of the first phone equal to [old_phone], or raises the
    validator's error; whenever it raises, the record is as it was. *)
Theorem edit_phone_spec (self : ContactRecord.t) :
  ((forall p, In p (phones self) -> Field.value p <> old_phone) ->
   edit_phone old_phone new_phone self
   = (Raise (ValueError not_found), self))
  /\ (forall pre p post,
        phones self = pre ++ p :: post ->
        Field.value p = old_phone ->
        (forall x, In x pre -> Field.value x <> old_phone) ->
        (ten_digits new_phone ->
         edit_phone old_phone new_phone self
         = (Ok tt, set_phones (pre ++ Field.init new_phone :: post) self))
        /\ (~ ten_digits new_phone ->
            edit_phone old_phone new_phone self
            = (Raise (ValueError Phone.error), self)))
  /\ (forall e self',
        edit_phone old_phone new_phone self = (Raise e, self') ->
        self' = self /\ phones self' = phones self).
Proof.
  assert (Hfound : forall pre p post,
    phones self = pre ++ p :: post ->
    Field.value p = old_phone ->
    (forall x, In x pre -> Field.value x <> old_phone) ->
    (ten_digits new_phone ->
     edit_phone old_phone new_phone self
     = (Ok tt, set_phones (pre ++ Field.init new_phone :: post) self))
    /\ (~ ten_digits new_phone ->
        edit_phone old_phone new_phone self
        = (Raise (ValueError Phone.error), self))).
  { intros pre p post Hphones Hp Hpre. unfold edit_phone.
    rewrite Hphones, (edit_phone_loop_found pre p post 0 self Hp Hpre).
    split; intros Hnew.
    - rewrite (Phone_init_ok _ Hnew). simpl.
      rewrite Hphones, insert_middle. reflexivity.
    - rewrite (Phone_init_raise _ Hnew). reflexivity. }
  split; [|split].
  - intros Hno. apply edit_phone_loop_absent, Hno.
  - exact Hfound.
  - intros e self' Hraise.
    enough (self' = self) as -> by (split; reflexivity).
    destruct (first_match (phones self))
      as [Hno|(pre & p & post & Hphones & Hp & Hpre)].
    + unfold edit_phone in Hraise.
      rewrite (edit_phone_loop_absent _ _ _ Hno) in Hraise.
      inversion Hraise. reflexivity.
    + destruct (Hfound pre p post Hphones Hp Hpre) as [Hok Hbad].
      destruct (ten_digits_dec new_phone) as [Hnew|Hnew].
      * rewrite (Hok Hnew) in Hraise. discriminate.
      * rewrite (Hbad Hnew) in Hraise. inversion Hraise. reflexivity.
Qed.

End EditPhone.

(** ** The dict of the address book *)

Section Dict.

Import AddressBook.

Lemma setitem_fresh key record (data : AddressBook.t) :
  getitem key data = None -> setitem key record data = data ++ [(key, record)].
Proof.
  induction data as [|[k r] data IH]; simpl; [reflexivity|].
  destruct (decide (k = key)); [discriminate|].
  intros H. rewrite (IH H). reflexivity.
Qed.

Lemma setitem_last key record record' (data : AddressBook.t) :
  getitem key data = None ->
  setitem key record' (data ++ [(key, record)]) = data ++ [(key, record')].
Proof.
  induction data as [|[k r] data IH]; simpl.
  - destruct (decide (key = key)); [reflexivity | contradiction].
  - destruct (decide (k = key)); [discriminate|].
    intros H. rewrite (IH H). reflexivity.
Qed.

Lemma setitem_same key record (data : AddressBook.t) :
  getitem key data = Some record -> setitem key record data = data.
Proof.
  induction data as [|[k r] data IH]; simpl; [discriminate|].
  destruct (decide (k = key)) as [->|_].
  - intros [= ->]. reflexivity.
  - intros H. rewrite (IH H). reflexivity.
Qed.

Lemma book_inv_setitem key record data :
  book_inv data -> record_inv record -> book_inv (setitem key record data).
Proof.
  unfold book_inv. intros Hd Hr.
  induction data as [|[k r] data IH]; simpl.
  - constructor; [exact Hr | constructor].
  - inversion Hd as [|x l Hx Hl]; subst.
    destruct (decide (k = key)); constructor; auto.
Qed.

Lemma book_inv_delitem key data :
  book_inv data -> book_inv (delitem key data).
Proof.
  unfold book_inv. intros Hd.
  induction data as [|[k r] data IH]; simpl; [constructor|].
  inversion Hd as [|x l Hx Hl]; subst.
  destruct (decide (k = key)); [exact Hl | constructor; auto].
Qed.

Lemma book_inv_getitem key data record :
  book_inv data -> getitem key data = Some record -> record_inv record.
Proof.
  unfold book_inv. intros Hd.
  induction data as [|[k r] data IH]; simpl; [discriminate|].
  inversion Hd as [|x l Hx Hl]; subst.
  destruct (decide (k = key)); [intros [= <-]; exact Hx | auto].
Qed.

Lemma book_inv_on_record {A} record (method : M ContactRecord.t A) data :
  book_inv data -> record_inv (snd (method record)) ->
  book_inv (snd (on_record record method data)).
Proof.
  intros Hd Hr. unfold on_record.
  destruct (method record) as [res record']. simpl in *.
  apply book_inv_setitem; assumption.
Qed.

End Dict.

(** ** The invariant of the stored phones *)

Section Invariant.

Import ContactRecord.

Lemma record_inv_init name : record_inv (init name).
Proof. constructor. Qed.

Lemma record_inv_add_phone phone self :
  record_inv self -> record_inv (snd (add_phone phone self)).
Proof.
  intros Hr. unfold add_phone, bind, lift, modify.
  destruct (Phone.init phone) as [p|e] eqn:Hp; simpl; [|exact Hr].
  apply Phone_init_inv in Hp as [-> Hd].
  unfold record_inv in *. simpl. apply Forall_app. split; [exact Hr|].
  constructor; [exact Hd | constructor].
Qed.

Lemma record_inv_remove_phone phone self :
  record_inv self -> record_inv (snd (remove_phone phone self)).
Proof.
  unfold record_inv, remove_phone, modify. simpl.
  rewrite !List.Forall_forall. intros Hr p Hp. apply Hr.
  apply list_elem_of_In. apply list_elem_of_In in Hp.
  apply list_elem_of_filter in Hp. apply Hp.
Qed.

Lemma record_inv_edit_phone_loop old_phone new_phone rest i self :
  record_inv self ->
  record_inv (snd (edit_phone_loop i rest old_phone new_phone self)).
Proof.
  intros Hr. revert i. induction rest as [|p rest IH]; intros i; simpl.
  - exact Hr.
  - destruct (decide (Field.value p = old_phone)) as [_|_]; [|apply IH].
    unfold bind, lift, modify.
    destruct (Phone.init new_phone) as [q|err] eqn:Hq; simpl; [|exact Hr].
    apply Phone_init_inv in Hq as [-> Hd].
    unfold record_inv in *. simpl. apply Forall_insert; assumption.
Qed.

Lemma record_inv_edit_phone old_phone new_phone self :
  record_inv self -> record_inv (snd (edit_phone old_phone new_phone self)).
Proof. intros Hr. apply record_inv_edit_phone_loop, Hr. Qed.

Lemma record_inv_add_birthday birthday self :
  record_inv self -> record_inv (snd (add_birthday birthday self)).
Proof.
  intros Hr. unfold add_birthday, bind, lift, modify.
  destruct (Birthday.init birthday); simpl; exact Hr.
Qed.

End Invariant.

(** ** The handlers *)

Lemma input_error_state {S A} (func : A -> M S pystr) args (s : S) :
  snd (input_error func args s) = snd (func args s).
Proof.
  unfold input_error. destruct (func args s) as [[r|[msg| | |msg]] s'];
    reflexivity.
Qed.

Lemma unpack2_cases args :
  (exists a b, args = [a; b] /\ unpack2 args = Ok (a, b))
  \/ unpack2 args = Raise (unpack_error 2 args).
Proof.
  destruct args as [|a [|b [|c l]]]; eauto.
Qed.

Lemma unpack3_cases args :
  (exists a b c, args = [a; b; c] /\ unpack3 args = Ok (a, b, c))
  \/ unpack3 args = Raise (unpack_error 3 args).
Proof.
  destruct args as [|a [|b [|c [|d l]]]]; eauto 6.
Qed.

Section HandlersState.

Import AddressBook.
Variable book : AddressBook.t.

Lemma show_phone_state args : snd (show_phone args book) = book.
Proof.
  unfold show_phone. rewrite input_error_state.
  unfold show_phone_body, bind, lift, find.
  destruct args as [|name args]; simpl; [reflexivity|].
  destruct (getitem name book); reflexivity.
Qed.

Lemma show_all_state args : snd (show_all args book) = book.
Proof.
  unfold show_all. rewrite input_error_state.
  unfold show_all_body, bind, get. destruct book; reflexivity.
Qed.

Lemma show_birthday_state args : snd (show_birthday args book) = book.
Proof.
  unfold show_birthday. rewrite input_error_state.
  unfold show_birthday_body, bind, lift, find.
  destruct args as [|name args]; simpl; [reflexivity|].
  destruct (getitem name book) as [record|]; [|reflexivity].
  destruct (ContactRecord.birthday record); reflexivity.
Qed.

Lemma birthdays_state today args : snd (birthdays today args book) = book.
Proof.
  unfold birthdays. rewrite input_error_state.
  unfold birthdays_body, bind, get, lift.
  destruct (get_upcoming_birthdays today book) as [[|u l]|e]; reflexivity.
Qed.

End HandlersState.

Section HandlersInvariant.

Import AddressBook.
Variable book : AddressBook.t.
Hypothesis Hbook : book_inv book.

Lemma book_inv_add_contact args : book_inv (snd (add_contact args book)).
Proof.
  unfold add_contact. rewrite input_error_state.
  unfold add_contact_body, bind, lift.
  destruct (unpack2_cases args) as [(name & phone & -> & ->)| ->];
    [|exact Hbook].
  unfold find. destruct (getitem name book) as [record|] eqn:Hget.
  - pose proof (book_inv_on_record record (ContactRecord.add_phone phone) book
      Hbook (record_inv_add_phone phone record
               (book_inv_getitem _ _ _ Hbook Hget))) as H.
    destruct (on_record record (ContactRecord.add_phone phone) book)
      as [[u|e] book']; exact H.
  - unfold add_record, modify.
    set (book1 := setitem _ _ book).
    assert (H1 : book_inv book1)
      by (apply book_inv_setitem; [exact Hbook | apply record_inv_init]).
    pose proof (book_inv_on_record (ContactRecord.init name)
      (ContactRecord.add_phone phone) book1 H1
      (record_inv_add_phone phone _ (record_inv_init name))) as H.
    destruct (on_record (ContactRecord.init name)
                (ContactRecord.add_phone phone) book1) as [[u|e] book'];
      exact H.
Qed.

Lemma book_inv_change_contact args : book_inv (snd (change_contact args book)).
Proof.
  unfold change_contact. rewrite input_error_state.
  unfold change_contact_body, bind, lift.
  destruct (unpack3_cases args) as [(name & old & new & -> & ->)| ->];
    [|exact Hbook].
  unfold find. destruct (getitem name book) as [record|] eqn:Hget;
    [|exact Hbook].
  pose proof (book_inv_on_record record (ContactRecord.edit_phone old new) book
    Hbook (record_inv_edit_phone old new record
             (book_inv_getitem _ _ _ Hbook Hget))) as H.
  destruct (on_record record (ContactRecord.edit_phone old new) book)
    as [[u|e] book']; exact H.
Qed.

Lemma book_inv_add_birthday args : book_inv (snd (add_birthday args book)).
Proof.
  unfold add_birthday. rewrite input_error_state.
  unfold add_birthday_body, bind, lift.
  destruct (unpack2_cases args) as [(name & birthday & -> & ->)| ->];
    [|exact Hbook].
  unfold find. destruct (getitem name book) as [record|] eqn:Hget;
    [|exact Hbook].
  pose proof (book_inv_on_record record (ContactRecord.add_birthday birthday)
    book Hbook (record_inv_add_birthday birthday record
                  (book_inv_getitem _ _ _ Hbook Hget))) as H.
  destruct (on_record record (ContactRecord.add_birthday birthday) book)
    as [[u|e] book']; exact H.
Qed.

End HandlersInvariant.

(** C8, as the code keeps it.  Every phone stored in a record is a string
    of exactly 10 characters that [str.isdigit] takes for digits: a new
    record has none, and the methods of a record, the operations of the
    address book and the handlers keep the property. *)
Theorem stored_phones_invariant :
  (forall name, record_inv (ContactRecord.init name))
  /\ (forall self, record_inv self ->
        (forall phone, record_inv (snd (ContactRecord.add_phone phone self)))
        /\ (forall phone, record_inv (snd (ContactRecord.remove_phone phone self)))
        /\ (forall old_phone new_phone,
              record_inv (snd (ContactRecord.edit_phone old_phone new_phone self)))
        /\ (forall birthday,
              record_inv (snd (ContactRecord.add_birthday birthday self))))
  /\ (forall book, book_inv book ->
        (forall record, record_inv record ->
           book_inv (snd (AddressBook.add_record record book)))
        /\ (forall name, book_inv (snd (AddressBook.delete name book)))
        /\ (forall name record,
              fst (AddressBook.find name book) = Ok (Some record) ->
              record_inv record)
        /\ (forall args, book_inv (snd (add_contact args book)))
        /\ (forall args, book_inv (snd (change_contact args book)))
        /\ (forall args, book_inv (snd (show_phone args book)))
        /\ (forall args, book_inv (snd (show_all args book)))
        /\ (forall args, book_inv (snd (add_birthday args book)))
        /\ (forall args, book_inv (snd (show_birthday args book)))
        /\ (forall today args, book_inv (snd (birthdays today args book)))).
Proof.
  split; [exact record_inv_init|]. split.
  - intros self Hr. repeat split; intros.
    + apply record_inv_add_phone, Hr.
    + apply record_inv_remove_phone, Hr.
    + apply record_inv_edit_phone, Hr.
    + apply record_inv_add_birthday, Hr.
  - intros book Hb. repeat split; intros.
    + apply book_inv_setitem; assumption.
    + unfold AddressBook.delete.
      destruct (AddressBook.getitem name book); simpl;
        [apply book_inv_delitem|]; exact Hb.
    + simpl in H. injection H as H. eapply book_inv_getitem; eassumption.
    + apply book_inv_add_contact, Hb.
    + apply book_inv_change_contact, Hb.
    + rewrite show_phone_state. exact Hb.
    + rewrite show_all_state. exact Hb.
    + apply book_inv_add_birthday, Hb.
    + rewrite show_birthday_state. exact Hb.
    + rewrite birthdays_state. exact Hb.
Qed.

(** C8 as the spec states it fails: [add_phone] stores the ten
    Arabic-Indic digits, which are not ASCII digits. *)
Lemma add_phone_stores_non_ascii :
  ContactRecord.phones
    (snd (ContactRecord.add_phone arabic_indic_digits
            (ContactRecord.init (lit "Ann"))))
  = [Field.init arabic_indic_digits]
  /\ ~ ten_ascii_digits (Field.value (Field.init arabic_indic_digits)).
Proof.
  split; [reflexivity|].
  intros [_ H]. inversion H as [|c l Hc _]. discriminate Hc.
Qed.

(** C10.  [add_contact] with a name the book does not know and a phone
    the validator refuses returns the validator's message, and the book has
    a new record under that name, without phones and without birthday. *)
Theorem add_contact_invalid_phone (book : AddressBook.t) (name phone : pystr) :
  AddressBook.getitem name book = None ->
  is_ok (Phone.init phone) = false ->
  add_contact [name; phone] book
  = (Ok Phone.error, book ++ [(name, ContactRecord.init name)])
  /\ Phone.init phone = Raise (ValueError Phone.error)
  /\ ContactRecord.phones (ContactRecord.init name) = []
  /\ ContactRecord.birthday (ContactRecord.init name) = None.
Proof.
  intros Hget Hbad.
  assert (Hp : Phone.init phone = Raise (ValueError Phone.error)).
  { destruct (Phone_init_cases phone) as [H|H]; [|exact H].
    rewrite H in Hbad. discriminate. }
  repeat split; [|exact Hp].
  unfold add_contact, input_error, add_contact_body, bind, lift. simpl.
  unfold AddressBook.find. rewrite Hget.
  unfold AddressBook.add_record, modify, AddressBook.on_record.
  unfold ContactRecord.add_phone, bind, lift. rewrite Hp. simpl.
  rewrite (setitem_fresh _ _ _ Hget), (setitem_last _ _ _ _ Hget).
  reflexivity.
Qed.

Lemma add_contact_invalid_phone_witness :
  add_contact [lit "John"; lit "123"] []
  = (Ok Phone.error, [] ++ [(lit "John", ContactRecord.init (lit "John"))])
  /\ Phone.init (lit "123") = Raise (ValueError Phone.error)
  /\ ContactRecord.phones (ContactRecord.init (lit "John")) = []
  /\ ContactRecord.birthday (ContactRecord.init (lit "John")) = None.
Proof.
  apply (add_contact_invalid_phone [] (lit "John") (lit "123"));
    reflexivity.
Defined.

(** The unpacking of too few values raises a ValueError, which the
    decorator returns as its message; indexing an empty list raises the
    IndexError for which the decorator has "Not enough arguments.". *)
Lemma unpack_error_text n args :
  (length args < n)%nat ->
  exists msg, unpack_error n args = ValueError msg
              /\ msg <> not_enough_arguments.
Proof.
  intros Hlt. unfold unpack_error.
  apply Nat.ltb_lt in Hlt. rewrite Hlt.
  eexists. split; [reflexivity|]. discriminate.
Qed.

Lemma add_contact_too_few args book :
  (length args < 2)%nat ->
  exists msg, add_contact args book = (Ok msg, book)
              /\ msg <> not_enough_arguments.
Proof.
  intros Hlt. destruct (unpack_error_text 2 args Hlt) as (msg & He & Hne).
  exists msg. split; [|exact Hne].
  unfold add_contact, input_error, add_contact_body, bind, lift.
  destruct args as [|a [|b [|c l]]]; simpl in Hlt; try lia;
    simpl unpack2; rewrite He; reflexivity.
Qed.

Lemma change_contact_too_few args book :
  (length args < 3)%nat ->
  exists msg, change_contact args book = (Ok msg, book)
              /\ msg <> not_enough_arguments.
Proof.
  intros Hlt. destruct (unpack_error_text 3 args Hlt) as (msg & He & Hne).
  exists msg. split; [|exact Hne].
  unfold change_contact, input_error, change_contact_body, bind, lift.
  destruct args as [|a [|b [|c [|d l]]]]; simpl in Hlt; try lia;
    simpl unpack3; rewrite He; reflexivity.
Qed.

Lemma add_birthday_too_few args book :
  (length args < 2)%nat ->
  exists msg, add_birthday args book = (Ok msg, book)
              /\ msg <> not_enough_arguments.
Proof.
  intros Hlt. destruct (unpack_error_text 2 args Hlt) as (msg & He & Hne).
  exists msg. split; [|exact Hne].
  unfold add_birthday, input_error, add_birthday_body, bind, lift.
  destruct args as [|a [|b [|c l]]]; simpl in Hlt; try lia;
    simpl unpack2; rewrite He; reflexivity.
Qed.

Lemma show_phone_too_few book :
  show_phone [] book = (Ok not_enough_arguments, book).
Proof. reflexivity. Qed.

Lemma show_birthday_too_few book :
  show_birthday [] book = (Ok not_enough_arguments, book).
Proof. reflexivity. Qed.

(** C7 on the code.  With too few tokens, [add], [change] and
    [add-birthday] return the message of the failed unpacking, which is not
    "Not enough arguments."; [phone] and [show-birthday] return
    "Not enough arguments.". *)
Theorem too_few_arguments :
  add_contact [lit "John"] []
  = (Ok (lit "not enough values to unpack (expected 2, got 1)"), [])
  /\ change_contact [lit "John"; lit "0123456789"] []
     = (Ok (lit "not enough values to unpack (expected 3, got 2)"), [])
  /\ add_birthday [lit "John"] []
     = (Ok (lit "not enough values to unpack (expected 2, got 1)"), [])
  /\ lit "not enough values to unpack (expected 2, got 1)"
     <> not_enough_arguments
  /\ lit "not enough values to unpack (expected 3, got 2)"
     <> not_enough_arguments
  /\ show_phone [] [] = (Ok not_enough_arguments, [])
  /\ show_birthday [] [] = (Ok not_enough_arguments, []).
Proof.
  repeat split; try reflexivity; discriminate.
Qed.

(** ** Dates *)

Section Dates.

Import datetime.

Lemma new_inv y m d dt :
  new y m d = Ok dt -> dt = Date y m d /\ valid dt.
Proof.
  unfold new, valid.
  destruct ((MINYEAR <=? y) && (y <=? MAXYEAR)) eqn:Hy; simpl; [|discriminate].
  destruct ((1 <=? m) && (m <=? 12)) eqn:Hm; simpl; [|discriminate].
  destruct ((1 <=? d) && (d <=? days_in_month y m)) eqn:Hd; simpl;
    [|discriminate].
  intros [= <-]. simpl. split; [reflexivity|].
  apply andb_prop in Hy as [Hy1 Hy2], Hm as [Hm1 Hm2], Hd as [Hd1 Hd2].
  rewrite !Z.leb_le in *. lia.
Qed.

Lemma new_valid y m d :
  valid (Date y m d) -> new y m d = Ok (Date y m d).
Proof.
  unfold new, valid. simpl. intros (Hy & Hm & Hd).
  assert (H1 : (MINYEAR <=? y) && (y <=? MAXYEAR) = true)
    by (apply andb_true_intro; rewrite !Z.leb_le; lia).
  assert (H2 : (1 <=? m) && (m <=? 12) = true)
    by (apply andb_true_intro; rewrite !Z.leb_le; lia).
  assert (H3 : (1 <=? d) && (d <=? days_in_month y m) = true)
    by (apply andb_true_intro; rewrite !Z.leb_le; lia).
  rewrite H1, H2, H3. reflexivity.
Qed.

(** February 29 in a year that is not a leap year. *)
Lemma new_feb29 y :
  MINYEAR <= y <= MAXYEAR -> is_leap y = false ->
  new y 2 29 = Raise (ValueError day_out_of_range).
Proof.
  intros Hy Hleap. unfold new.
  assert (H1 : (MINYEAR <=? y) && (y <=? MAXYEAR) = true)
    by (apply andb_true_intro; rewrite !Z.leb_le; lia).
  rewrite H1. simpl. unfold days_in_month. rewrite Hleap. reflexivity.
Qed.

Lemma days_in_month_bounds y m :
  1 <= m <= 12 -> 28 <= days_in_month y m <= 31.
Proof.
  intros Hm. unfold days_in_month.
  assert (Hc : m = 1 \/ m = 2 \/ m = 3 \/ m = 4 \/ m = 5 \/ m = 6 \/ m = 7
               \/ m = 8 \/ m = 9 \/ m = 10 \/ m = 11 \/ m = 12) by lia.
  destruct (is_leap y);
    repeat (destruct Hc as [->|Hc]; [simpl; lia|]); subst; simpl; lia.
Qed.

Lemma day_of_year_bounds y m d :
  1 <= m <= 12 -> 1 <= d <= days_in_month y m ->
  1 <= days_before_month y m + d <= 365 + (if is_leap y then 1 else 0).
Proof.
  intros Hm. unfold days_in_month, days_before_month.
  assert (Hc : m = 1 \/ m = 2 \/ m = 3 \/ m = 4 \/ m = 5 \/ m = 6 \/ m = 7
               \/ m = 8 \/ m = 9 \/ m = 10 \/ m = 11 \/ m = 12) by lia.
  destruct (is_leap y);
    repeat (destruct Hc as [->|Hc]; [simpl; lia|]); subst; simpl; lia.
Qed.

Lemma year_length y :
  days_before_year (y + 1)
  = days_before_year y + 365 + (if is_leap y then 1 else 0).
Proof.
  unfold days_before_year, is_leap.
  replace (y + 1 - 1) with y by lia.
  destruct (y mod 4 =? 0) eqn:H4; destruct (y mod 100 =? 0) eqn:H100;
    destruct (y mod 400 =? 0) eqn:H400; simpl;
    rewrite ?Z.eqb_eq, ?Z.eqb_neq in *;
    Z.div_mod_to_equations; lia.
Qed.

Lemma days_before_year_mono y1 y2 :
  y1 <= y2 -> days_before_year y1 <= days_before_year y2.
Proof.
  unfold days_before_year. intros H. Z.div_mod_to_equations. lia.
Qed.

Lemma toordinal_bounds dt :
  valid dt -> 1 <= toordinal dt <= MAXORDINAL.
Proof.
  destruct dt as [y m d]. unfold valid, toordinal, ymd2ord. simpl.
  intros (Hy & Hm & Hd).
  pose proof (day_of_year_bounds y m d Hm Hd) as Hdoy.
  pose proof (year_length y) as Hlen.
  pose proof (days_before_year_mono 1 y (proj1 Hy)) as Hlo.
  assert (Hhi : days_before_year (y + 1) <= days_before_year 10000)
    by (apply days_before_year_mono; unfold MAXYEAR in Hy; lia).
  change (days_before_year 1) with 0 in Hlo.
  change (days_before_year 10000) with 3652059 in Hhi.
  unfold MAXORDINAL. lia.
Qed.

(** A weekend day is followed by a Monday within the range of dates:
    the last date, 31.12.9999, is a Friday. *)
Lemma add_days_weekend dt :
  valid dt ->
  (weekday dt = 5 -> add_days dt 2 = Ok (fromordinal (toordinal dt + 2)))
  /\ (weekday dt = 6 -> add_days dt 1 = Ok (fromordinal (toordinal dt + 1))).
Proof.
  intros Hv. pose proof (toordinal_bounds dt Hv) as Hb.
  unfold weekday, add_days, MAXORDINAL in *.
  split; intros Hw.
  - assert (H : (0 <? toordinal dt + 2) && (toordinal dt + 2 <=? 3652059)
                = true).
    { apply andb_true_intro. rewrite Z.ltb_lt, Z.leb_le.
      Z.div_mod_to_equations. lia. }
    rewrite H. reflexivity.
  - assert (H : (0 <? toordinal dt + 1) && (toordinal dt + 1 <=? 3652059)
                = true).
    { apply andb_true_intro. rewrite Z.ltb_lt, Z.leb_le.
      Z.div_mod_to_equations. lia. }
    rewrite H. reflexivity.
Qed.

End Dates.

(** ** Ordinals: [fromordinal] is the inverse of [toordinal] *)

Section Ordinals.

Import datetime.

Lemma ord_decomposition n0 :
  0 <= n0 ->
  let a := n0 / DI400Y in
  let r400 := n0 mod DI400Y in
  let b := r400 / DI100Y in
  let r100 := r400 mod DI100Y in
  let c := r100 / DI4Y in
  let r4 := r100 mod DI4Y in
  let e := r4 / 365 in
  let r1 := r4 mod 365 in
  n0 = 146097 * a + 36524 * b + 1461 * c + 365 * e + r1
  /\ 0 <= a /\ 0 <= b <= 4 /\ 0 <= c <= 24 /\ 0 <= e <= 4 /\ 0 <= r1 < 365
  /\ (b = 4 -> c = 0 /\ e = 0 /\ r1 = 0)
  /\ (e = 4 -> r1 = 0 /\ c <= 23).
Proof.
  intros Hn. cbv zeta. unfold DI400Y, DI100Y, DI4Y.
  Z.div_mod_to_equations. lia.
Qed.

(** The days before the first of January of the year
    [400 * a + 100 * b + 4 * c + e + 1]. *)
Lemma days_before_year_cycles a b c e :
  0 <= b <= 3 -> 0 <= c <= 24 -> 0 <= e <= 3 ->
  days_before_year (400 * a + 100 * b + 4 * c + e + 1)
  = 146097 * a + 36524 * b + 1461 * c + 365 * e.
Proof.
  intros Hb Hc He. unfold days_before_year. cbv zeta.
  replace (400 * a + 100 * b + 4 * c + e + 1 - 1)
    with (400 * a + 100 * b + 4 * c + e) by lia.
  Z.div_mod_to_equations. lia.
Qed.

Lemma is_leap_cycles a b c e :
  0 <= b <= 3 -> 0 <= c <= 24 -> 0 <= e <= 3 ->
  is_leap (400 * a + 100 * b + 4 * c + e + 1)
  = (e =? 3) && (negb (c =? 24) || (b =? 3)).
Proof.
  intros Hb Hc He. unfold is_leap.
  destruct (e =? 3) eqn:E3; destruct (c =? 24) eqn:E24;
    destruct (b =? 3) eqn:B3; simpl;
    rewrite ?Z.eqb_eq, ?Z.eqb_neq in *;
    repeat match goal with
    | |- context [?x mod ?k =? 0] =>
        let E := fresh in destruct (x mod k =? 0) eqn:E;
        rewrite ?Z.eqb_eq, ?Z.eqb_neq in E
    end; simpl; try reflexivity; exfalso;
    Z.div_mod_to_equations; lia.
Qed.


Lemma toordinal_fromordinal n : 1 <= n -> toordinal (fromordinal n) = n.
Proof.
  intros Hn. unfold fromordinal, ord2ymd. cbv zeta.
  destruct (ord_decomposition (n - 1) ltac:(lia))
    as (Hsum & Ha & Hb & Hc & He & Hr & Hb4 & He4).
  cbv zeta in Hsum, Ha, Hb, Hc, He, Hr, Hb4, He4.
  set (a := (n - 1) / DI400Y) in *.
  set (r400 := (n - 1) mod DI400Y) in *.
  set (b := r400 / DI100Y) in *.
  set (r100 := r400 mod DI100Y) in *.
  set (c := r100 / DI4Y) in *.
  set (r4 := r100 mod DI4Y) in *.
  set (e := r4 / 365) in *.
  set (r1 := r4 mod 365) in *.
  clearbody a b c e r1. clear r400 r100 r4.
  destruct ((e =? 4) || (b =? 4)) eqn:Hlast.
  - (* the last day of a cycle: 31 December of the year before *)
    unfold toordinal, ymd2ord, days_before_month. simpl.
    set (Y := a * 400 + 1 + b * 100 + c * 4 + e).
    pose proof (year_length (Y - 1)) as Hlen.
    replace (Y - 1 + 1) with Y in Hlen by lia.
    apply orb_true_iff in Hlast as [H4|H4]; apply Z.eqb_eq in H4.
    + destruct (He4 H4) as [Hr0 Hc23].
      assert (HY : days_before_year Y
                   = 146097 * a + 36524 * b + 1461 * (c + 1) + 365 * 0).
      { rewrite <- days_before_year_cycles by lia. f_equal. unfold Y. lia. }
      assert (b <> 4) by (intros Hb'; destruct (Hb4 Hb'); lia).
      destruct (is_leap (Y - 1)); lia.
    + destruct (Hb4 H4) as (Hc0 & He0 & Hr0).
      assert (HY : days_before_year Y
                   = 146097 * (a + 1) + 36524 * 0 + 1461 * 0 + 365 * 0).
      { rewrite <- days_before_year_cycles by lia. f_equal. unfold Y. lia. }
      destruct (is_leap (Y - 1)); lia.
  - apply orb_false_iff in Hlast as [He4' Hb4'].
    apply Z.eqb_neq in He4', Hb4'.
    set (Y := a * 400 + 1 + b * 100 + c * 4 + e).
    assert (HYform : Y = 400 * a + 100 * b + 4 * c + e + 1) by (unfold Y; lia).
    assert (Hleap : (e =? 3) && (negb (c =? 24) || (b =? 3)) = is_leap Y)
      by (rewrite HYform, is_leap_cycles by lia; reflexivity).
    assert (HY : days_before_year Y
                 = 146097 * a + 36524 * b + 1461 * c + 365 * e)
      by (rewrite HYform; apply days_before_year_cycles; lia).
    rewrite Hleap.
    set (m0 := Z.shiftr (r1 + 50) 5).
    assert (Hm0 : 32 * m0 <= r1 + 50 < 32 * m0 + 32).
    { unfold m0. rewrite Z.shiftr_div_pow2 by lia.
      change (2 ^ 5) with 32. Z.div_mod_to_equations. lia. }
    clearbody m0.
    assert (Hcases : m0 = 1 \/ m0 = 2 \/ m0 = 3 \/ m0 = 4 \/ m0 = 5 \/ m0 = 6
                     \/ m0 = 7 \/ m0 = 8 \/ m0 = 9 \/ m0 = 10 \/ m0 = 11
                     \/ m0 = 12) by lia.
    repeat (destruct Hcases as [->|Hcases]);
      [..|subst m0];
      simpl; destruct (is_leap Y) eqn:HL; simpl;
      match goal with
      | |- context [r1 <? ?p] => destruct (r1 <? p) eqn:Hlt
      end;
      unfold toordinal, ymd2ord, days_before_month; simpl;
      rewrite ?HL; simpl;
      rewrite ?Z.ltb_lt, ?Z.ltb_ge in Hlt; lia.
Qed.


Lemma fromordinal_valid n :
  1 <= n <= MAXORDINAL -> valid (fromordinal n).
Proof.
  intros Hn. unfold fromordinal, ord2ymd, MAXORDINAL in *. cbv zeta.
  destruct (ord_decomposition (n - 1) ltac:(lia))
    as (Hsum & Ha & Hb & Hc & He & Hr & Hb4 & He4).
  cbv zeta in Hsum, Ha, Hb, Hc, He, Hr, Hb4, He4.
  set (a := (n - 1) / DI400Y) in *.
  set (r400 := (n - 1) mod DI400Y) in *.
  set (b := r400 / DI100Y) in *.
  set (r100 := r400 mod DI100Y) in *.
  set (c := r100 / DI4Y) in *.
  set (r4 := r100 mod DI4Y) in *.
  set (e := r4 / 365) in *.
  set (r1 := r4 mod 365) in *.
  clearbody a b c e r1. clear r400 r100 r4.
  destruct ((e =? 4) || (b =? 4)) eqn:Hlast.
  - unfold valid, MINYEAR, MAXYEAR. simpl.
    apply orb_true_iff in Hlast as [H4|H4]; apply Z.eqb_eq in H4.
    + destruct (He4 H4) as [Hr0 Hc23].
      assert (b <> 4) by (intros Hb'; destruct (Hb4 Hb'); lia).
      unfold days_in_month. simpl. lia.
    + destruct (Hb4 H4) as (Hc0 & He0 & Hr0).
      unfold days_in_month. simpl. lia.
  - apply orb_false_iff in Hlast as [He4' Hb4'].
    apply Z.eqb_neq in He4', Hb4'.
    set (Y := a * 400 + 1 + b * 100 + c * 4 + e).
    assert (HYform : Y = 400 * a + 100 * b + 4 * c + e + 1) by (unfold Y; lia).
    assert (Hleap : (e =? 3) && (negb (c =? 24) || (b =? 3)) = is_leap Y)
      by (rewrite HYform, is_leap_cycles by lia; reflexivity).
    assert (HYear : 1 <= Y <= 9999) by lia.
    assert (Hr1 : is_leap Y = false -> r1 < 365) by lia.
    rewrite Hleap.
    set (m0 := Z.shiftr (r1 + 50) 5).
    assert (Hm0 : 32 * m0 <= r1 + 50 < 32 * m0 + 32).
    { unfold m0. rewrite Z.shiftr_div_pow2 by lia.
      change (2 ^ 5) with 32. Z.div_mod_to_equations. lia. }
    clearbody m0. clearbody Y.
    assert (Hcases : m0 = 1 \/ m0 = 2 \/ m0 = 3 \/ m0 = 4 \/ m0 = 5 \/ m0 = 6
                     \/ m0 = 7 \/ m0 = 8 \/ m0 = 9 \/ m0 = 10 \/ m0 = 11
                     \/ m0 = 12) by lia.
    repeat (destruct Hcases as [->|Hcases]);
      [..|subst m0];
      simpl; destruct (is_leap Y) eqn:HL; simpl;
      match goal with
      | |- context [r1 <? ?p] => destruct (r1 <? p) eqn:Hlt
      end;
      unfold valid, MINYEAR, MAXYEAR, days_in_month; simpl;
      rewrite ?HL; simpl;
      rewrite ?Z.ltb_lt, ?Z.ltb_ge in Hlt; lia.
Qed.

End Ordinals.

Section OrderOfDates.

Import datetime.

Lemma days_before_month_step y m :
  1 <= m <= 11 ->
  days_before_month y (m + 1) = days_before_month y m + days_in_month y m.
Proof.
  intros Hm. unfold days_before_month, days_in_month.
  assert (Hc : m = 1 \/ m = 2 \/ m = 3 \/ m = 4 \/ m = 5 \/ m = 6 \/ m = 7
               \/ m = 8 \/ m = 9 \/ m = 10 \/ m = 11) by lia.
  destruct (is_leap y);
    repeat (destruct Hc as [->|Hc]; [reflexivity|]); subst; reflexivity.
Qed.

Lemma days_before_month_mono y m1 m2 :
  1 <= m1 -> m1 <= m2 -> m2 <= 12 ->
  days_before_month y m1 <= days_before_month y m2.
Proof.
  intros H1 H12 H2.
  replace m2 with (m1 + Z.of_nat (Z.to_nat (m2 - m1))) in * by lia.
  induction (Z.to_nat (m2 - m1)) as [|k IH]; [rewrite Z.add_0_r; lia|].
  rewrite Nat2Z.inj_succ in *.
  replace (m1 + Z.succ (Z.of_nat k)) with (m1 + Z.of_nat k + 1) in * by lia.
  rewrite days_before_month_step by lia.
  pose proof (days_in_month_bounds y (m1 + Z.of_nat k)). lia.
Qed.

Lemma ltb_lt_toordinal a b :
  valid a -> valid b -> ltb a b = true -> toordinal a < toordinal b.
Proof.
  destruct a as [ya ma da], b as [yb mb db].
  unfold valid, ltb, toordinal, ymd2ord. simpl.
  intros (Hya & Hma & Hda) (Hyb & Hmb & Hdb) H.
  pose proof (day_of_year_bounds ya ma da Hma Hda) as Ha.
  pose proof (day_of_year_bounds yb mb db Hmb Hdb) as Hb.
  apply orb_true_iff in H as [H|H].
  - apply Z.ltb_lt in H.
    pose proof (year_length ya) as Hlen.
    pose proof (days_before_year_mono (ya + 1) yb ltac:(lia)). lia.
  - apply andb_true_iff in H as [Hy H]. apply Z.eqb_eq in Hy. subst yb.
    apply orb_true_iff in H as [H|H].
    + apply Z.ltb_lt in H.
      pose proof (days_before_month_step ya ma ltac:(lia)) as Hstep.
      pose proof (days_before_month_mono ya (ma + 1) mb
                    ltac:(lia) ltac:(lia) ltac:(lia)). lia.
    + apply andb_true_iff in H as [Hm H]. apply Z.eqb_eq in Hm.
      apply Z.ltb_lt in H. subst mb. lia.
Qed.

Lemma ltb_total a b : ltb a b = false -> ltb b a = false -> a = b.
Proof.
  destruct a as [ya ma da], b as [yb mb db]. unfold ltb. simpl.
  intros H1 H2.
  apply orb_false_iff in H1 as [Hy1 H1], H2 as [Hy2 H2].
  apply Z.ltb_ge in Hy1, Hy2. assert (ya = yb) as -> by lia.
  rewrite Z.eqb_refl in H1, H2. simpl in H1, H2.
  apply orb_false_iff in H1 as [Hm1 H1], H2 as [Hm2 H2].
  apply Z.ltb_ge in Hm1, Hm2. assert (ma = mb) as -> by lia.
  rewrite Z.eqb_refl in H1, H2. simpl in H1, H2.
  apply Z.ltb_ge in H1, H2. assert (da = db) as -> by lia.
  reflexivity.
Qed.

(** "Strictly earlier", on dates and on their ordinals. *)
Lemma ltb_toordinal a b :
  valid a -> valid b -> (ltb a b = true <-> toordinal a < toordinal b).
Proof.
  intros Ha Hb. split; [apply ltb_lt_toordinal; assumption|].
  intros Hlt. destruct (ltb a b) eqn:Hab; [reflexivity|].
  destruct (ltb b a) eqn:Hba.
  - pose proof (ltb_lt_toordinal b a Hb Ha Hba). lia.
  - rewrite (ltb_total a b Hab Hba) in Hlt. lia.
Qed.

End OrderOfDates.

(** ** The upcoming-birthday query *)

Section Upcoming.

Import AddressBook.
Variable today : datetime.date.

Lemma occurrence_inv bday occ :
  occurrence today bday = Ok occ ->
  occ = claimed_occurrence today bday /\ datetime.valid occ.
Proof.
  unfold occurrence, claimed_occurrence, datetime.replace_year, rbind.
  destruct (datetime.new (datetime.year today) (datetime.month bday)
              (datetime.day bday)) as [x|e] eqn:Hx; [|discriminate].
  apply new_inv in Hx as [-> Hv]. simpl.
  destruct (datetime.ltb _ today).
  - intros H. apply new_inv in H as [-> Hv']. split; [reflexivity | exact Hv'].
  - intros [= <-]. split; [reflexivity | exact Hv].
Qed.

Lemma congratulation_ok occ :
  datetime.valid occ -> congratulation occ = Ok (claimed_congratulation occ).
Proof.
  intros Hv. destruct (add_days_weekend occ Hv) as [Hsat Hsun].
  unfold congratulation, claimed_congratulation.
  destruct (datetime.weekday occ =? 5) eqn:H5.
  - apply Hsat, Z.eqb_eq, H5.
  - destruct (datetime.weekday occ =? 6) eqn:H6; [|reflexivity].
    apply Hsun, Z.eqb_eq, H6.
Qed.

Lemma in_window_spec occ :
  in_window today occ = true <-> 0 <= datetime.sub_days occ today <= 7.
Proof.
  unfold in_window. rewrite andb_true_iff, !Z.leb_le. reflexivity.
Qed.

Lemma produced_no_birthday record :
  ContactRecord.birthday record = None -> produced today record = Ok [].
Proof. unfold produced, visit. intros ->. reflexivity. Qed.

Lemma produced_parse_raise record b e :
  ContactRecord.birthday record = Some b ->
  strptime.parse (Field.value b) = Raise e ->
  produced today record = Raise e.
Proof. unfold produced, visit. intros -> ->. reflexivity. Qed.

Lemma produced_occurrence_raise record b bday e :
  ContactRecord.birthday record = Some b ->
  strptime.parse (Field.value b) = Ok bday ->
  occurrence today bday = Raise e ->
  produced today record = Raise e.
Proof.
  unfold produced, visit. intros -> Hp Ho. rewrite Hp. simpl.
  rewrite Ho. reflexivity.
Qed.

Lemma produced_occurrence_ok record b bday occ :
  ContactRecord.birthday record = Some b ->
  strptime.parse (Field.value b) = Ok bday ->
  occurrence today bday = Ok occ ->
  produced today record
  = Ok (if in_window today occ then
          [Entry (record_name record)
             (datetime.strftime_dmY (claimed_congratulation occ))]
        else []).
Proof.
  unfold produced, visit. intros -> Hp Hocc. rewrite Hp. simpl.
  rewrite Hocc. simpl.
  fold (in_window today occ). destruct (in_window today occ); [|reflexivity].
  apply occurrence_inv in Hocc as [_ Hv].
  rewrite (congratulation_ok _ Hv). reflexivity.
Qed.

Lemma visit_produced record res :
  visit today record res
  = (let? es := produced today record in Ok (res ++ es)).
Proof.
  unfold produced, visit.
  destruct (ContactRecord.birthday record) as [b|]; simpl;
    [|now rewrite app_nil_r].
  destruct (strptime.parse (Field.value b)) as [bday|e]; simpl; [|reflexivity].
  destruct (occurrence today bday) as [occ|e]; simpl; [|reflexivity].
  destruct ((0 <=? datetime.sub_days occ today)
            && (datetime.sub_days occ today <=? 7)); simpl;
    [|now rewrite app_nil_r].
  destruct (congratulation occ); reflexivity.
Qed.

Lemma loop_total records res :
  Forall (fun r => is_ok (produced today r) = true) records ->
  loop today records res = Ok (res ++ flat_map (entries_of today) records).
Proof.
  intros Hall. revert res.
  induction Hall as [|r records Hr _ IH]; intros res; simpl.
  - now rewrite app_nil_r.
  - rewrite visit_produced. unfold entries_of.
    destruct (produced today r) as [es|e]; [|discriminate]. simpl.
    rewrite IH, app_assoc. reflexivity.
Qed.

Lemma loop_inv records res res' :
  loop today records res = Ok res' ->
  Forall (fun r => is_ok (produced today r) = true) records
  /\ res' = res ++ flat_map (entries_of today) records.
Proof.
  revert res res'. induction records as [|r records IH]; intros res res'; simpl.
  - intros [= <-]. split; [constructor | now rewrite app_nil_r].
  - rewrite visit_produced. unfold entries_of at 1.
    destruct (produced today r) as [es|e] eqn:Hr; simpl; [|discriminate].
    intros H. apply IH in H as [Hall ->].
    split; [|now rewrite app_assoc].
    constructor; [rewrite Hr; reflexivity | exact Hall].
Qed.

Lemma loop_raise records res r e :
  In r records -> produced today r = Raise e ->
  exists r' e', In r' records /\ produced today r' = Raise e'
                /\ loop today records res = Raise e'.
Proof.
  revert res. induction records as [|x records IH]; intros res Hin Hr;
    [destruct Hin|].
  simpl. rewrite visit_produced.
  destruct (produced today x) as [es|ex] eqn:Hx; simpl.
  - destruct Hin as [->|Hin]; [congruence|].
    destruct (IH (res ++ es) Hin Hr) as (r' & e' & Hin' & Hr' & Hloop).
    exists r', e'. split; [right; exact Hin' | split; assumption].
  - exists x, ex. split; [left; reflexivity | split; [exact Hx | reflexivity]].
Qed.

End Upcoming.

(** ** Errors of the query *)

Lemma library_error_undocumented e :
  library_error e -> exists msg, e = ValueError msg /\ ~ documented msg.
Proof.
  intros (msg & c & -> & Hhead & H80 & H73). exists msg.
  split; [reflexivity|].
  intros [->|[->| ->]]; vm_compute in Hhead; congruence.
Qed.

Lemma new_raise y m d e : datetime.new y m d = Raise e -> library_error e.
Proof.
  unfold datetime.new.
  destruct (negb _).
  { intros [= <-]. exists (datetime.year_out_of_range y), 121%N.
    repeat split; discriminate || reflexivity. }
  destruct (negb _).
  { intros [= <-]. exists datetime.month_out_of_range, 109%N.
    repeat split; discriminate || reflexivity. }
  destruct (negb _); [|discriminate].
  intros [= <-]. exists datetime.day_out_of_range, 100%N.
  repeat split; discriminate || reflexivity.
Qed.

Lemma to_int_raise s e : strptime.to_int s = Raise e -> library_error e.
Proof.
  unfold strptime.to_int. destruct (py_int s); [discriminate|].
  intros [= <-]. exists strptime.bad_int, 105%N.
  repeat split; discriminate || reflexivity.
Qed.

Lemma parse_raise data e : strptime.parse data = Raise e -> library_error e.
Proof.
  unfold strptime.parse.
  destruct (head (strptime.matches data)) as [[[[d m] y] rest]|].
  - destruct rest as [|c rest].
    + unfold rbind.
      destruct (strptime.to_int y) eqn:Hy;
        [|intros [= <-]; eapply to_int_raise, Hy].
      destruct (strptime.to_int m) eqn:Hm;
        [|intros [= <-]; eapply to_int_raise, Hm].
      destruct (strptime.to_int d) eqn:Hd;
        [|intros [= <-]; eapply to_int_raise, Hd].
      apply new_raise.
    + intros [= <-]. exists (strptime.unconverted (c :: rest)), 117%N.
      repeat split; discriminate || reflexivity.
  - intros [= <-]. exists (strptime.no_match data), 116%N.
    repeat split; discriminate || reflexivity.
Qed.

Lemma occurrence_raise today bday e :
  AddressBook.occurrence today bday = Raise e -> library_error e.
Proof.
  unfold AddressBook.occurrence, datetime.replace_year, rbind.
  destruct (datetime.new _ _ _) as [x|ex] eqn:Hx;
    [|intros [= <-]; eapply new_raise, Hx].
  destruct (datetime.ltb x today); [apply new_raise | discriminate].
Qed.

Lemma produced_raise today record e :
  produced today record = Raise e -> library_error e.
Proof.
  destruct (ContactRecord.birthday record) as [b|] eqn:Hb;
    [|rewrite (produced_no_birthday _ _ Hb); discriminate].
  destruct (strptime.parse (Field.value b)) as [bday|ep] eqn:Hp.
  - destruct (AddressBook.occurrence today bday) as [occ|eo] eqn:Ho.
    + rewrite (produced_occurrence_ok _ _ _ _ _ Hb Hp Ho). discriminate.
    + rewrite (produced_occurrence_raise _ _ _ _ _ Hb Hp Ho).
      intros [= <-]. eapply occurrence_raise, Ho.
  - rewrite (produced_parse_raise _ _ _ _ Hb Hp).
    intros [= <-]. eapply parse_raise, Hp.
Qed.

Lemma produced_constructible today record :
  constructible today record -> is_ok (produced today record) = true.
Proof.
  intros Hc. destruct (ContactRecord.birthday record) as [b|] eqn:Hb.
  - destruct (Hc b Hb) as (bday & occ & Hp & Ho).
    rewrite (produced_occurrence_ok _ _ _ _ _ Hb Hp Ho). reflexivity.
  - rewrite (produced_no_birthday _ _ Hb). reflexivity.
Qed.

Lemma get_upcoming_birthdays_total today book :
  Forall (constructible today) (AddressBook.values book) ->
  exists res, AddressBook.get_upcoming_birthdays today book = Ok res.
Proof.
  intros Hall. eexists. unfold AddressBook.get_upcoming_birthdays.
  apply loop_total. eapply Forall_impl; [exact Hall|].
  intros r. apply produced_constructible.
Qed.

(** C1.  A record whose birthday is a February 29, in a year of [today]
    that is not a leap year: the construction of the occurrence raises
    "day is out of range for month", and the query raises a ValueError
    that is none of the documented errors (it has no handler of its
    own). *)
Theorem feb29_raises (today : datetime.date) (book : AddressBook.t)
    (record : ContactRecord.t) (b : Field.t) (bday : datetime.date) :
  datetime.valid today ->
  In record (AddressBook.values book) ->
  ContactRecord.birthday record = Some b ->
  strptime.parse (Field.value b) = Ok bday ->
  datetime.month bday = 2 -> datetime.day bday = 29 ->
  datetime.is_leap (datetime.year today) = false ->
  datetime.replace_year bday (datetime.year today)
  = Raise (ValueError datetime.day_out_of_range)
  /\ AddressBook.occurrence today bday
     = Raise (ValueError datetime.day_out_of_range)
  /\ exists msg,
       AddressBook.get_upcoming_birthdays today book = Raise (ValueError msg)
       /\ ~ documented msg.
Proof.
  intros Hv Hin Hb Hp Hm Hd Hleap.
  assert (Hr : datetime.replace_year bday (datetime.year today)
               = Raise (ValueError datetime.day_out_of_range)).
  { unfold datetime.replace_year. rewrite Hm, Hd.
    apply new_feb29; [apply Hv | exact Hleap]. }
  assert (Ho : AddressBook.occurrence today bday
               = Raise (ValueError datetime.day_out_of_range)).
  { unfold AddressBook.occurrence. rewrite Hr. reflexivity. }
  split; [exact Hr|]. split; [exact Ho|].
  pose proof (produced_occurrence_raise today _ _ _ _ Hb Hp Ho) as Hprod.
  destruct (loop_raise today _ [] _ _ Hin Hprod) as (r' & e' & _ & Hr' & Hloop).
  apply produced_raise, library_error_undocumented in Hr'
    as (msg & -> & Hmsg).
  exists msg. split; [exact Hloop | exact Hmsg].
Qed.

Lemma feb29_raises_witness :
  datetime.replace_year (datetime.Date 2000 2 29) 2023
  = Raise (ValueError datetime.day_out_of_range)
  /\ AddressBook.occurrence (datetime.Date 2023 6 15) (datetime.Date 2000 2 29)
     = Raise (ValueError datetime.day_out_of_range)
  /\ exists msg,
       AddressBook.get_upcoming_birthdays (datetime.Date 2023 6 15)
         [with_birthday "Bob" "29.02.2000"]
       = Raise (ValueError msg)
       /\ ~ documented msg.
Proof.
  apply (feb29_raises (datetime.Date 2023 6 15)
           [with_birthday "Bob" "29.02.2000"]
           (snd (with_birthday "Bob" "29.02.2000"))
           (Field.init (lit "29.02.2000")) (datetime.Date 2000 2 29)).
  - unfold datetime.valid. simpl. vm_compute. intuition discriminate.
  - left. reflexivity.
  - reflexivity.
  - reflexivity.
  - reflexivity.
  - reflexivity.
  - reflexivity.
Defined.

(** What the handler makes of it: the decorator catches the ValueError
    and returns its message. *)
Lemma birthdays_feb29 :
  birthdays (datetime.Date 2023 6 15) [] [with_birthday "Bob" "29.02.2000"]
  = (Ok datetime.day_out_of_range, [with_birthday "Bob" "29.02.2000"]).
Proof. reflexivity. Qed.

(** ** Inclusion and the reported date *)



(** What a record contributes to a result of the query. *)
Lemma entries_of_spec today record b bday :
  is_ok (produced today record) = true ->
  ContactRecord.birthday record = Some b ->
  strptime.parse (Field.value b) = Ok bday ->
  exists occ,
    AddressBook.occurrence today bday = Ok occ
    /\ entries_of today record
       = if in_window today occ then
           [AddressBook.Entry (record_name record)
              (datetime.strftime_dmY (claimed_congratulation occ))]
         else [].
Proof.
  intros Hok Hb Hp. unfold entries_of.
  destruct (AddressBook.occurrence today bday) as [occ|eo] eqn:Ho.
  - exists occ. split; [reflexivity|].
    rewrite (produced_occurrence_ok _ _ _ _ _ Hb Hp Ho). reflexivity.
  - rewrite (produced_occurrence_raise _ _ _ _ _ Hb Hp Ho) in Hok.
    discriminate.
Qed.

(** Two days after a Saturday and one day after a Sunday is the Monday
    that follows, a date within the range of dates. *)
Lemma claimed_congratulation_spec occ :
  datetime.valid occ ->
  (datetime.weekday occ = 5 ->
   datetime.toordinal (claimed_congratulation occ) = datetime.toordinal occ + 2
   /\ datetime.weekday (claimed_congratulation occ) = 0
   /\ datetime.valid (claimed_congratulation occ))
  /\ (datetime.weekday occ = 6 ->
      datetime.toordinal (claimed_congratulation occ)
      = datetime.toordinal occ + 1
      /\ datetime.weekday (claimed_congratulation occ) = 0
      /\ datetime.valid (claimed_congratulation occ))
  /\ (datetime.weekday occ <> 5 -> datetime.weekday occ <> 6 ->
      claimed_congratulation occ = occ).
Proof.
  intros Hv. pose proof (toordinal_bounds occ Hv) as Hb.
  unfold claimed_congratulation, datetime.MAXORDINAL in *.
  split; [|split].
  - intros Hw. rewrite Hw. simpl.
    assert (Hr : 1 <= datetime.toordinal occ + 2 <= 3652059)
      by (unfold datetime.weekday in Hw; Z.div_mod_to_equations; lia).
    split; [apply toordinal_fromordinal; lia|].
    split; [|apply fromordinal_valid, Hr].
    unfold datetime.weekday in *. rewrite toordinal_fromordinal by lia.
    Z.div_mod_to_equations. lia.
  - intros Hw. rewrite Hw. simpl.
    assert (Hr : 1 <= datetime.toordinal occ + 1 <= 3652059)
      by (unfold datetime.weekday in Hw; Z.div_mod_to_equations; lia).
    split; [apply toordinal_fromordinal; lia|].
    split; [|apply fromordinal_valid, Hr].
    unfold datetime.weekday in *. rewrite toordinal_fromordinal by lia.
    Z.div_mod_to_equations. lia.
  - intros H5 H6. apply Z.eqb_neq in H5, H6. rewrite H5, H6. reflexivity.
Qed.

(** C3.  The entries of a result of the query are those of the records
    whose occurrence is between 0 and 7 days after [today]; the date of an
    entry is the occurrence moved by two days from a Saturday and by one
    day from a Sunday (to the Monday that follows), and the occurrence
    itself otherwise.  The test is on the occurrence, not on the date
    reported. *)
Theorem weekend_shift (today : datetime.date) (book : AddressBook.t) :
  (Forall (constructible today) (AddressBook.values book) ->
   exists res, AddressBook.get_upcoming_birthdays today book = Ok res)
  /\ (forall res,
        AddressBook.get_upcoming_birthdays today book = Ok res ->
        forall u,
          In u res <->
          exists record b bday occ,
            In record (AddressBook.values book)
            /\ ContactRecord.birthday record = Some b
            /\ strptime.parse (Field.value b) = Ok bday
            /\ AddressBook.occurrence today bday = Ok occ
            /\ 0 <= datetime.sub_days occ today <= 7
            /\ u = AddressBook.Entry (record_name record)
                     (datetime.strftime_dmY (claimed_congratulation occ)))
  /\ (forall bday occ,
        AddressBook.occurrence today bday = Ok occ ->
        (datetime.weekday occ = 5 ->
         datetime.toordinal (claimed_congratulation occ)
         = datetime.toordinal occ + 2)
        /\ (datetime.weekday occ = 6 ->
            datetime.toordinal (claimed_congratulation occ)
            = datetime.toordinal occ + 1)
        /\ (datetime.weekday occ <> 5 -> datetime.weekday occ <> 6 ->
            claimed_congratulation occ = occ)).
Proof.
  split; [apply get_upcoming_birthdays_total|]. split.
  2:{ intros bday occ Ho. apply occurrence_inv in Ho as [_ Hv].
      destruct (claimed_congratulation_spec occ Hv) as (H5 & H6 & Hother).
      split; [intros H; apply H5, H|]. split; [intros H; apply H6, H|].
      exact Hother. }
  intros res Hres u.
  apply loop_inv in Hres as [Hall ->]. simpl.
  rewrite List.Forall_forall in Hall. rewrite in_flat_map. split.
  - intros (record & Hin & Hu). specialize (Hall _ Hin).
    destruct (ContactRecord.birthday record) as [b|] eqn:Hb.
    2:{ unfold entries_of in Hu. rewrite (produced_no_birthday _ _ Hb) in Hu.
        destruct Hu. }
    destruct (strptime.parse (Field.value b)) as [bday|ep] eqn:Hp.
    2:{ rewrite (produced_parse_raise _ _ _ _ Hb Hp) in Hall. discriminate. }
    destruct (entries_of_spec today record b bday Hall Hb Hp)
      as (occ & Ho & Hentries).
    rewrite Hentries in Hu.
    destruct (in_window today occ) eqn:Hw; [|destruct Hu].
    destruct Hu as [<-|[]].
    exists record, b, bday, occ. apply in_window_spec in Hw. auto 10.
  - intros (record & b & bday & occ & Hin & Hb & Hp & Ho & Hw & ->).
    exists record. split; [exact Hin|].
    unfold entries_of. rewrite (produced_occurrence_ok _ _ _ _ _ Hb Hp Ho).
    apply in_window_spec in Hw. rewrite Hw. left. reflexivity.
Qed.

(** The scenarios of the spec (today is Saturday 15.06.2024, or
    31.12.2024), and a Saturday on the last day of the window. *)
Example scenario_Ann :
  AddressBook.get_upcoming_birthdays (datetime.Date 2024 6 15)
    [with_birthday "Ann" "17.06.2024"]
  = Ok [AddressBook.Entry (lit "Ann") (lit "17.06.2024")].
Proof. reflexivity. Qed.

Example scenario_Bob :
  AddressBook.get_upcoming_birthdays (datetime.Date 2024 6 15)
    [with_birthday "Bob" "16.06.2024"]
  = Ok [AddressBook.Entry (lit "Bob") (lit "17.06.2024")].
Proof. reflexivity. Qed.

Example scenario_Zoe :
  AddressBook.get_upcoming_birthdays (datetime.Date 2024 12 31)
    [with_birthday "Zoe" "02.01.1990"]
  = Ok [AddressBook.Entry (lit "Zoe") (lit "02.01.2025")].
Proof. reflexivity. Qed.

Example scenario_last_day :
  AddressBook.get_upcoming_birthdays (datetime.Date 2024 6 15)
    [with_birthday "Eve" "22.06.1985"; with_birthday "Dan" "23.06.1985"]
  = Ok [AddressBook.Entry (lit "Eve") (lit "24.06.2024")].
Proof. reflexivity. Qed.

(** ** Regular expressions *)

Section Regex.

Import re.

Lemma one_sound r s m rest :
  In (m, rest) (one r s) -> s = m ++ rest /\ lang r m.
Proof.
  unfold one. destruct s as [|c s']; [intros []|].
  destruct (accepts r c) eqn:Hc; [|intros []].
  intros [[= <- <-]|[]]. split; [reflexivity | constructor; exact Hc].
Qed.

Lemma in_bind_pair {A B C} (l : list (A * B)) (f : A -> B -> list C) z :
  In z (mbind (M := list) (fun p => let '(a, b) := p in f a b) l)
  <-> exists a b, In (a, b) l /\ In z (f a b).
Proof.
  rewrite <- list_elem_of_In, list_elem_of_bind. split.
  - intros ([a b] & Hz & Hab). exists a, b.
    rewrite <- !list_elem_of_In. split; assumption.
  - intros (a & b & Hab & Hz). exists (a, b).
    rewrite !list_elem_of_In. split; assumption.
Qed.

Lemma run_sound r : forall s m rest,
  In (m, rest) (run r s) -> s = m ++ rest /\ lang r m.
Proof.
  induction r as [c|lo hi| |r1 IH1 r2 IH2|r1 IH1 r2 IH2]; intros s m rest;
    try apply one_sound.
  - simpl. rewrite in_bind_pair. intros (m1 & s1 & H1 & H).
    apply in_bind_pair in H as (m2 & s2 & H2 & [[= <- <-]|[]]).
    apply IH1 in H1 as [-> L1]. apply IH2 in H2 as [-> L2].
    split; [now rewrite app_assoc | constructor; assumption].
  - simpl. rewrite in_app_iff. intros [H|H].
    + apply IH1 in H as [-> L]. split; [reflexivity | apply lang_alt_l, L].
    + apply IH2 in H as [-> L]. split; [reflexivity | apply lang_alt_r, L].
Qed.

Lemma run_complete r m :
  lang r m -> forall rest, In (m, rest) (run r (m ++ rest)).
Proof.
  induction 1 as [r c Hc|r1 r2 s1 s2 _ IH1 _ IH2|r1 r2 s _ IH|r1 r2 s _ IH];
    intros rest.
  - assert (Hone : In ([c], rest) (one r ([c] ++ rest)))
      by (simpl; rewrite Hc; left; reflexivity).
    destruct r; try exact Hone; discriminate Hc.
  - simpl. apply in_bind_pair. exists s1, (s2 ++ rest).
    split; [rewrite <- app_assoc; apply IH1|].
    apply in_bind_pair. exists s2, rest. split; [apply IH2|].
    left. reflexivity.
  - simpl. apply in_app_iff. left. apply IH.
  - simpl. apply in_app_iff. right. apply IH.
Qed.

Lemma lang_may_match r m :
  lang r m -> forall c, In c m -> may_match r c = true.
Proof.
  induction 1 as [r c Hc|r1 r2 s1 s2 _ IH1 _ IH2|r1 r2 s _ IH|r1 r2 s _ IH];
    intros x Hx; simpl.
  - destruct Hx as [<-|[]]. destruct r; try exact Hc; discriminate Hc.
  - apply in_app_iff in Hx as [Hx|Hx]; apply orb_true_iff; auto.
  - apply orb_true_iff; auto.
  - apply orb_true_iff; auto.
Qed.

Lemma lang_fixed_length r m :
  lang r m -> forall n, fixed_length r n -> length m = n.
Proof.
  induction 1 as [r c Hc|r1 r2 s1 s2 _ IH1 _ IH2|r1 r2 s _ IH|r1 r2 s _ IH];
    intros n Hn; simpl in Hn.
  - destruct r; simpl in Hn; try (subst; reflexivity); discriminate Hc.
  - destruct Hn as (n1 & n2 & H1 & H2 & ->).
    rewrite length_app, (IH1 _ H1), (IH2 _ H2). reflexivity.
  - apply IH, Hn.
  - apply IH, Hn.
Qed.

End Regex.

(** ** strptime *)

Section Strptime.

Import strptime.

Lemma matches_spec data d m y rest :
  In (d, m, y, rest) (matches data)
  <-> data = d ++ [46%N] ++ m ++ [46%N] ++ y ++ rest
      /\ lang re_d d /\ lang re_m m /\ lang re_Y y.
Proof.
  unfold matches. split.
  - intros H.
    apply in_bind_pair in H as (d' & s1 & H1 & H).
    apply in_bind_pair in H as (x1 & s2 & H2 & H).
    apply in_bind_pair in H as (m' & s3 & H3 & H).
    apply in_bind_pair in H as (x2 & s4 & H4 & H).
    apply in_bind_pair in H as (y' & s5 & H5 & [[= <- <- <- <-]|[]]).
    apply run_sound in H1 as [-> L1], H2 as [-> L2], H3 as [-> L3],
      H4 as [-> L4], H5 as [-> L5].
    inversion L2 as [r c Hc| | |]; subst. apply N.eqb_eq in Hc as ->.
    inversion L4 as [r c Hc| | |]; subst. apply N.eqb_eq in Hc as ->.
    auto.
  - intros (-> & L1 & L2 & L3).
    apply in_bind_pair. exists d, ([46%N] ++ m ++ [46%N] ++ y ++ rest).
    split; [apply run_complete, L1|].
    apply in_bind_pair. exists [46%N], (m ++ [46%N] ++ y ++ rest).
    split; [left; reflexivity|].
    apply in_bind_pair. exists m, ([46%N] ++ y ++ rest).
    split; [apply run_complete, L2|].
    apply in_bind_pair. exists [46%N], (y ++ rest).
    split; [left; reflexivity|].
    apply in_bind_pair. exists y, rest.
    split; [apply run_complete, L3 | left; reflexivity].
Qed.

(** Splitting at the first occurrence of a character. *)
Lemma split_first (c : N) (x1 y1 x2 y2 : pystr) :
  ~ In c x1 -> ~ In c x2 -> x1 ++ c :: y1 = x2 ++ c :: y2 ->
  x1 = x2 /\ y1 = y2.
Proof.
  revert x2. induction x1 as [|a x1 IH]; intros [|b x2] H1 H2; simpl.
  - intros [= ->]. auto.
  - intros [= <- _]. exfalso. apply H2. left. reflexivity.
  - intros [= -> _]. exfalso. apply H1. left. reflexivity.
  - intros [= -> H].
    destruct (IH x2) as [-> ->]; auto.
    + intros Hc. apply H1. right. exact Hc.
    + intros Hc. apply H2. right. exact Hc.
Qed.

Lemma no_dot r m : lang r m -> may_match r 46 = false -> ~ In 46%N m.
Proof.
  intros L H Hin. rewrite (lang_may_match r m L _ Hin) in H. discriminate.
Qed.

Lemma re_Y_length y : lang re_Y y -> length y = 4%nat.
Proof.
  intros L. apply (lang_fixed_length _ _ L). simpl.
  exists 1%nat, 3%nat. split; [reflexivity|]. split; [|reflexivity].
  exists 1%nat, 2%nat. split; [reflexivity|]. split; [|reflexivity].
  exists 1%nat, 1%nat. auto.
Qed.

Lemma matches_unique data p q :
  In p (matches data) -> In q (matches data) -> p = q.
Proof.
  destruct p as [[[d1 m1] y1] r1], q as [[[d2 m2] y2] r2].
  rewrite !matches_spec.
  intros (-> & Ld1 & Lm1 & Ly1) (Heq & Ld2 & Lm2 & Ly2).
  apply split_first in Heq as [-> Heq];
    [|eapply no_dot; [eassumption | reflexivity] ..].
  apply split_first in Heq as [-> Heq];
    [|eapply no_dot; [eassumption | reflexivity] ..].
  apply app_inj_1 in Heq as [-> ->]; [reflexivity|].
  rewrite (re_Y_length _ Ly1), (re_Y_length _ Ly2). reflexivity.
Qed.

Lemma head_of_unique {A} (l : list A) x :
  (forall a b, In a l -> In b l -> a = b) -> In x l -> head l = Some x.
Proof.
  destruct l as [|a l]; [intros _ []|].
  intros H Hx. simpl. f_equal. apply H; [left; reflexivity | exact Hx].
Qed.

Lemma head_In {A} (l : list A) x : head l = Some x -> In x l.
Proof. destruct l; [discriminate | intros [= ->]; left; reflexivity]. Qed.

Lemma to_int_ok s n : to_int s = Ok n <-> py_int s = Some n.
Proof.
  unfold to_int. destruct (py_int s); split; intros H; inversion H; reflexivity.
Qed.

Lemma parse_spec data dt : parse data = Ok dt <-> date_text data dt.
Proof.
  unfold parse, date_text. split.
  - destruct (head (matches data)) as [[[[d m] y] rest]|] eqn:Hh;
      [|discriminate].
    apply head_In, matches_spec in Hh as (-> & Ld & Lm & Ly).
    destruct rest; [|discriminate]. unfold rbind.
    destruct (to_int y) as [year|] eqn:Hy; [|discriminate].
    destruct (to_int m) as [month|] eqn:Hm; [|discriminate].
    destruct (to_int d) as [day|] eqn:Hd; [|discriminate].
    intros H. apply new_inv in H as [-> Hv].
    apply to_int_ok in Hy, Hm, Hd.
    exists d, m, y. rewrite app_nil_r. auto 10.
  - intros (d & m & y & -> & Ld & Lm & Ly & Hd & Hm & Hy & Hv).
    assert (Hin : In (d, m, y, []) (matches (d ++ [46%N] ++ m ++ [46%N] ++ y))).
    { apply matches_spec. rewrite app_nil_r. auto. }
    rewrite (head_of_unique _ _ (matches_unique _) Hin).
    apply to_int_ok in Hd, Hm, Hy. rewrite Hy, Hm, Hd. simpl.
    destruct dt as [year month day]. apply new_valid, Hv.
Qed.

Lemma Birthday_init_ok raw dt :
  date_text raw dt -> Birthday.init raw = Ok (Field.init raw).
Proof.
  intros H. apply parse_spec in H. unfold Birthday.init. rewrite H.
  reflexivity.
Qed.

Lemma Birthday_init_cases raw :
  (exists dt, parse raw = Ok dt /\ Birthday.init raw = Ok (Field.init raw))
  \/ (is_ok (parse raw) = false
      /\ Birthday.init raw = Raise (ValueError Birthday.error)).
Proof.
  unfold Birthday.init. destruct (parse raw) as [dt|e] eqn:Hp.
  - left. exists dt. auto.
  - right. split; [reflexivity|].
    apply parse_raise in Hp as (msg & c & -> & _). reflexivity.
Qed.

End Strptime.

(** ** Birthday texts of ASCII characters *)

Section AsciiDates.

Import strptime.

Lemma ascii_decimal c :
  Unicode.is_ascii c = true ->
  Unicode.decimal c
  = if Unicode.is_ascii_digit c then Some (c - 48)%N else None.
Proof.
  intros Hc.
  assert (Hall : forallb
            (fun n => match Unicode.decimal n, Unicode.is_ascii_digit n with
                      | Some v, true => (v =? n - 48)%N
                      | None, false => true
                      | _, _ => false
                      end)
            (map N.of_nat (seq 0 128)) = true) by (vm_compute; reflexivity).
  rewrite forallb_forall in Hall.
  assert (Hin : In c (map N.of_nat (seq 0 128))).
  { apply in_map_iff. exists (N.to_nat c). split; [apply N2Nat.id|].
    apply in_seq. unfold Unicode.is_ascii in Hc.
    apply N.ltb_lt in Hc. lia. }
  specialize (Hall c Hin).
  destruct (Unicode.decimal c) as [v|], (Unicode.is_ascii_digit c);
    try discriminate; try reflexivity.
  apply N.eqb_eq in Hall as ->. reflexivity.
Qed.

Lemma ascii_digit_bounds c :
  Unicode.is_ascii_digit c = true <-> (48 <= c <= 57)%N.
Proof.
  unfold Unicode.is_ascii_digit. rewrite andb_true_iff, !N.leb_le.
  reflexivity.
Qed.

Lemma ascii_digit_is_ascii c :
  Unicode.is_ascii_digit c = true -> Unicode.is_ascii c = true.
Proof.
  rewrite ascii_digit_bounds. unfold Unicode.is_ascii. rewrite N.ltb_lt. lia.
Qed.

Lemma ascii_digit_decimal c :
  Unicode.is_ascii_digit c = true -> Unicode.decimal c = Some (c - 48)%N.
Proof.
  intros Hc. rewrite (ascii_decimal _ (ascii_digit_is_ascii _ Hc)), Hc.
  reflexivity.
Qed.

Lemma ascii_isdecimal c :
  Unicode.is_ascii c = true ->
  Unicode.isdecimal c = Unicode.is_ascii_digit c.
Proof.
  intros Hc. unfold Unicode.isdecimal. rewrite (ascii_decimal _ Hc).
  destruct (Unicode.is_ascii_digit c); reflexivity.
Qed.

Lemma int_digits_ascii s acc :
  Forall (fun c => Unicode.is_ascii_digit c = true) s ->
  int_digits s acc
  = Some (fold_left (fun a c => 10 * a + (Z.of_N c - 48)) s acc).
Proof.
  intros H. revert acc. induction H as [|c s Hc _ IH]; intros acc; simpl.
  - reflexivity.
  - rewrite (ascii_digit_decimal _ Hc), IH.
    apply ascii_digit_bounds in Hc.
    do 2 f_equal. lia.
Qed.

Lemma lstrip_digit c s :
  Unicode.is_ascii_digit c = true -> lstrip (c :: s) = c :: s.
Proof.
  intros Hc. apply ascii_digit_bounds in Hc. simpl.
  destruct (c =? 32)%N eqn:E; [apply N.eqb_eq in E; lia | reflexivity].
Qed.

Lemma py_int_digits k s :
  ascii_digits (S k) s -> py_int s = Some (number s).
Proof.
  intros [Hlen Hall]. destruct s as [|c s]; [discriminate|].
  unfold py_int, number.
  rewrite (lstrip_digit c s) by (inversion Hall; assumption).
  apply int_digits_ascii, Hall.
Qed.

Lemma py_int_blank c :
  Unicode.is_ascii_digit c = true -> py_int [32%N; c] = Some (number [32%N; c]).
Proof.
  intros Hc. unfold py_int, number.
  change (lstrip [32%N; c]) with (lstrip [c]). rewrite (lstrip_digit c []) by exact Hc.
  apply int_digits_ascii. constructor; [exact Hc | constructor].
Qed.

Lemma py_int_day d : day_shape d -> py_int d = Some (number d).
Proof.
  intros [H|[H|(c & -> & Hc)]];
    [eapply py_int_digits, H | eapply py_int_digits, H | apply py_int_blank, Hc].
Qed.

Lemma py_int_month m : month_shape m -> py_int m = Some (number m).
Proof. intros [H|H]; eapply py_int_digits, H. Qed.

Ltac lang_inv :=
  repeat match goal with
  | H : lang (re.Alt _ _) _ |- _ => inversion H; clear H; subst
  | H : lang (re.Cat _ _) _ |- _ => inversion H; clear H; subst
  | H : lang (re.Chr _) _ |- _ => inversion H; clear H; subst
  | H : lang (re.Rng _ _) _ |- _ => inversion H; clear H; subst
  | H : lang re.Digit _ |- _ => inversion H; clear H; subst
  | H : re.accepts (re.Alt _ _) _ = true |- _ => discriminate H
  | H : re.accepts (re.Cat _ _) _ = true |- _ => discriminate H
  end.

Ltac accepts_facts :=
  repeat match goal with
  | H : re.accepts (re.Chr _) _ = true |- _ =>
      simpl in H; apply N.eqb_eq in H; subst
  | H : re.accepts (re.Rng _ _) _ = true |- _ =>
      simpl in H; apply andb_prop in H as [? ?]
  | H : re.accepts re.Digit ?c = true, A : Unicode.is_ascii ?c = true |- _ =>
      simpl in H; rewrite (ascii_isdecimal _ A) in H
  | H : (_ <=? _)%N = true |- _ => apply N.leb_le in H
  end.

Ltac ascii_split :=
  repeat match goal with
  | H : ascii_only (_ ++ _) |- _ => apply Forall_app in H as [? ?]
  | H : ascii_only (_ :: _) |- _ => apply Forall_cons in H as [? ?]
  | H : Forall _ (_ ++ _) |- _ => apply Forall_app in H as [? ?]
  | H : Forall _ (_ :: _) |- _ => apply Forall_cons in H as [? ?]
  end.

Ltac digits_goal :=
  split; [reflexivity|];
  repeat (apply Forall_cons; split;
          [first [assumption | apply ascii_digit_bounds; lia]|]);
  apply Forall_nil_2.

Lemma re_d_shape d : lang re_d d -> ascii_only d -> day_shape d.
Proof.
  unfold re_d, day_shape, ascii_only. intros L Ha. lang_inv; simpl in Ha;
    ascii_split; accepts_facts.
  - right. left. digits_goal.
  - right. left. digits_goal.
  - right. left. digits_goal.
  - left. digits_goal.
  - right. right. eexists. split; [reflexivity|].
    apply ascii_digit_bounds. lia.
Qed.

Lemma re_m_shape m : lang re_m m -> ascii_only m -> month_shape m.
Proof.
  unfold re_m, month_shape, ascii_only. intros L Ha. lang_inv; simpl in Ha;
    ascii_split; accepts_facts.
  - right. digits_goal.
  - right. digits_goal.
  - left. digits_goal.
Qed.

Lemma re_Y_shape y : lang re_Y y -> ascii_only y -> ascii_digits 4 y.
Proof.
  unfold re_Y, ascii_only. intros L Ha. lang_inv; simpl in Ha;
    ascii_split; accepts_facts.
  digits_goal.
Qed.

End AsciiDates.

Section AsciiDatesConverse.

Import strptime.

Lemma lang_atom r c : re.accepts r c = true -> lang r [c].
Proof. apply lang_one. Qed.

Lemma lang_pair r1 r2 c1 c2 :
  re.accepts r1 c1 = true -> re.accepts r2 c2 = true ->
  lang (re.Cat r1 r2) [c1; c2].
Proof.
  intros H1 H2. change [c1; c2] with ([c1] ++ [c2]).
  apply lang_cat; apply lang_one; assumption.
Qed.

Lemma accepts_Rng lo hi c :
  (lo <= c <= hi)%N -> re.accepts (re.Rng lo hi) c = true.
Proof. intros H. simpl. rewrite andb_true_iff, !N.leb_le. exact H. Qed.

Lemma accepts_Digit c :
  Unicode.is_ascii_digit c = true -> re.accepts re.Digit c = true.
Proof.
  intros H. simpl. rewrite (ascii_isdecimal _ (ascii_digit_is_ascii _ H)).
  exact H.
Qed.

Lemma number_1 c : number [c] = if (c =? 32)%N then 0 else Z.of_N c - 48.
Proof. unfold number. simpl. destruct (c =? 32)%N; reflexivity. Qed.

Lemma number_2 c1 c2 :
  Unicode.is_ascii_digit c1 = true ->
  number [c1; c2] = 10 * (Z.of_N c1 - 48) + (Z.of_N c2 - 48).
Proof.
  intros H. unfold number. rewrite (lstrip_digit _ _ H). simpl. lia.
Qed.

Lemma number_blank c :
  Unicode.is_ascii_digit c = true -> number [32%N; c] = Z.of_N c - 48.
Proof.
  intros H. unfold number. change (lstrip [32%N; c]) with (lstrip [c]).
  rewrite (lstrip_digit _ _ H). simpl. lia.
Qed.

Ltac digits_inv :=
  repeat match goal with
  | H : ascii_digits _ ?s |- _ =>
      destruct H as [Hlen Hall];
      repeat (destruct s as [|? s]; try discriminate Hlen);
      clear Hlen
  | H : Forall _ (_ :: _) |- _ => apply Forall_cons in H as [? ?]
  | H : Forall _ [] |- _ => clear H
  end.

Lemma day_shape_lang d :
  day_shape d -> 1 <= number d <= 31 -> lang re_d d.
Proof.
  unfold re_d. intros [H|[H|(c & -> & Hc)]] Hn; digits_inv.
  - rewrite number_1 in Hn.
    match goal with H : Unicode.is_ascii_digit ?c = true |- _ =>
      pose proof (proj1 (ascii_digit_bounds c) H) as Hb end.
    destruct (n =? 32)%N; [lia|].
    do 3 apply lang_alt_r. apply lang_alt_l, lang_atom, accepts_Rng. lia.
  - rewrite number_2 in Hn by assumption.
    pose proof (proj1 (ascii_digit_bounds n) H) as Hb1.
    pose proof (proj1 (ascii_digit_bounds n0) H0) as Hb2.
    assert (Hc : n = 48%N \/ n = 49%N \/ n = 50%N \/ n = 51%N) by lia.
    destruct Hc as [->|[->|[->| ->]]].
    + do 2 apply lang_alt_r. apply lang_alt_l, lang_pair;
        [reflexivity | apply accepts_Rng; lia].
    + apply lang_alt_r, lang_alt_l, lang_pair;
        [reflexivity | apply accepts_Digit, H0].
    + apply lang_alt_r, lang_alt_l, lang_pair;
        [reflexivity | apply accepts_Digit, H0].
    + apply lang_alt_l, lang_pair; [reflexivity | apply accepts_Rng; lia].
  - rewrite number_blank in Hn by exact Hc.
    apply ascii_digit_bounds in Hc.
    do 4 apply lang_alt_r. apply lang_pair;
      [reflexivity | apply accepts_Rng; lia].
Qed.

Lemma month_shape_lang m :
  month_shape m -> 1 <= number m <= 12 -> lang re_m m.
Proof.
  unfold re_m. intros [H|H] Hn; digits_inv.
  - rewrite number_1 in Hn.
    match goal with H : Unicode.is_ascii_digit ?c = true |- _ =>
      pose proof (proj1 (ascii_digit_bounds c) H) as Hb end.
    destruct (n =? 32)%N; [lia|].
    do 2 apply lang_alt_r. apply lang_atom, accepts_Rng. lia.
  - rewrite number_2 in Hn by assumption.
    pose proof (proj1 (ascii_digit_bounds n) H) as Hb1.
    pose proof (proj1 (ascii_digit_bounds n0) H0) as Hb2.
    assert (Hc : n = 48%N \/ n = 49%N) by lia.
    destruct Hc as [->| ->].
    + apply lang_alt_r, lang_alt_l, lang_pair;
        [reflexivity | apply accepts_Rng; lia].
    + apply lang_alt_l, lang_pair; [reflexivity | apply accepts_Rng; lia].
Qed.

Lemma year_shape_lang y : ascii_digits 4 y -> lang re_Y y.
Proof.
  unfold re_Y. intros H. digits_inv.
  change [n; n0; n1; n2] with ([n] ++ [n0] ++ [n1] ++ [n2]).
  repeat apply lang_cat; apply lang_atom, accepts_Digit; assumption.
Qed.

Lemma ascii_digits_ascii k s : ascii_digits k s -> ascii_only s.
Proof.
  intros [_ H]. eapply Forall_impl; [exact H|].
  intros c. apply ascii_digit_is_ascii.
Qed.

Lemma day_shape_ascii d : day_shape d -> ascii_only d.
Proof.
  intros [H|[H|(c & -> & Hc)]]; try (eapply ascii_digits_ascii, H).
  constructor; [reflexivity|]. constructor; [|constructor].
  apply ascii_digit_is_ascii, Hc.
Qed.

Lemma ascii_date_text_spec raw :
  ascii_only raw -> ((exists dt, date_text raw dt) <-> ascii_date_text raw).
Proof.
  intros Ha. split.
  - intros ([year month day] & d & m & y & -> & Ld & Lm & Ly
            & Hd & Hm & Hy & Hv).
    simpl in Hd, Hm, Hy.
    unfold ascii_only in Ha.
    apply Forall_app in Ha as [Had Ha]. apply Forall_cons in Ha as [_ Ha].
    apply Forall_app in Ha as [Ham Ha]. apply Forall_cons in Ha as [_ Hay].
    pose proof (re_d_shape _ Ld Had) as Sd.
    pose proof (re_m_shape _ Lm Ham) as Sm.
    pose proof (re_Y_shape _ Ly Hay) as Sy.
    rewrite (py_int_day _ Sd) in Hd. rewrite (py_int_month _ Sm) in Hm.
    rewrite (py_int_digits _ _ Sy) in Hy.
    injection Hd as <-. injection Hm as <-. injection Hy as <-.
    exists d, m, y. auto 10.
  - intros (d & m & y & -> & Sd & Sm & Sy & Hv).
    exists (datetime.Date (number y) (number m) (number d)), d, m, y.
    destruct Hv as (Hyear & Hmonth & Hday). simpl in Hyear, Hmonth, Hday.
    pose proof (days_in_month_bounds (number y) (number m) Hmonth) as Hdim.
    split; [reflexivity|].
    split; [apply day_shape_lang; [exact Sd | lia]|].
    split; [apply month_shape_lang; [exact Sm | lia]|].
    split; [apply year_shape_lang, Sy|]. simpl.
    split; [apply py_int_day, Sd|].
    split; [apply py_int_month, Sm|].
    split; [eapply py_int_digits, Sy|].
    unfold datetime.valid. simpl. auto.
Qed.

Lemma claimed_date_text_ascii raw :
  claimed_date_text raw -> ascii_only raw /\ ascii_date_text raw.
Proof.
  intros (d & m & y & -> & Sd & Sm & Sy & Hv). split.
  - unfold ascii_only. rewrite !Forall_app, !Forall_cons.
    pose proof (ascii_digits_ascii _ _ Sd).
    pose proof (ascii_digits_ascii _ _ Sm).
    pose proof (ascii_digits_ascii _ _ Sy).
    repeat split; auto.
  - exists d, m, y. unfold day_shape, month_shape. auto 10.
Qed.

End AsciiDatesConverse.

(** C5, as the code has it.  [Birthday(raw)] succeeds exactly on the
    texts the pattern of [strptime] matches whole and whose numbers make a
    date of the years 1 to 9999, and raises the ValueError of the validator
    on every other string.  On a text of ASCII characters these are the
    texts D.M.YYYY with a day of one or two digits (a single digit may
    follow a blank), a month of one or two digits and a year of exactly
    four digits that denote such a date; every text DD.MM.YYYY that
    denotes one is accepted. *)
Theorem Birthday_init_spec (raw : pystr) :
  (Birthday.init raw = Ok (Field.init raw) <-> exists dt, date_text raw dt)
  /\ (~ (exists dt, date_text raw dt)
      <-> Birthday.init raw = Raise (ValueError Birthday.error))
  /\ (ascii_only raw -> ((exists dt, date_text raw dt) <-> ascii_date_text raw))
  /\ (claimed_date_text raw -> Birthday.init raw = Ok (Field.init raw)).
Proof.
  split; [|split; [|split]].
  - split.
    + intros H. destruct (Birthday_init_cases raw) as [(dt & Hp & _)|[_ Hr]].
      * exists dt. apply parse_spec, Hp.
      * rewrite Hr in H. discriminate.
    + intros [dt H]. eapply Birthday_init_ok, H.
  - split.
    + intros Hn. destruct (Birthday_init_cases raw) as [(dt & Hp & _)|[_ Hr]].
      * exfalso. apply Hn. exists dt. apply parse_spec, Hp.
      * exact Hr.
    + intros Hr [dt H]. rewrite (Birthday_init_ok _ _ H) in Hr. discriminate.
  - apply ascii_date_text_spec.
  - intros H. apply claimed_date_text_ascii in H as [Ha H].
    apply (ascii_date_text_spec raw Ha) in H as [dt H].
    eapply Birthday_init_ok, H.
Qed.

(** C5 as the spec states it fails: 1.1.2024 is accepted, and it is not
    of the pattern DD.MM.YYYY. *)
Lemma Birthday_init_accepts_short_day :
  Birthday.init (lit "1.1.2024") = Ok (Field.init (lit "1.1.2024"))
  /\ ~ claimed_date_text (lit "1.1.2024").
Proof.
  split; [reflexivity|].
  intros (d & m & y & Heq & [Hlen Hall] & _).
  destruct d as [|a [|b [|c d]]]; try discriminate Hlen.
  change (lit "1.1.2024") with [49; 46; 49; 46; 50; 48; 50; 52]%N in Heq.
  injection Heq as <- <- _.
  apply Forall_cons in Hall as [_ Hall]. apply Forall_cons in Hall as [Hb _].
  discriminate Hb.
Qed.

Example Birthday_init_examples :
  is_ok (Birthday.init (lit "29.02.2024")) = true
  /\ is_ok (Birthday.init (lit "29.02.2023")) = false
  /\ is_ok (Birthday.init (lit "30.02.2023")) = false
  /\ is_ok (Birthday.init (lit "31.04.2023")) = false
  /\ is_ok (Birthday.init (lit "2024-02-29")) = false
  /\ is_ok (Birthday.init (lit "01.01.0000")) = false.
Proof. repeat split. Qed.

(** ** Rendering a record and reading it back *)

Section RoundTrip.

Lemma strip_prefix_app p s : strip_prefix p (p ++ s) = Some s.
Proof.
  induction p as [|a p IH]; simpl; [destruct s; reflexivity|].
  rewrite N.eqb_refl. exact IH.
Qed.

Lemma split_last_absent c s : ~ In c s -> split_last c s = None.
Proof.
  induction s as [|a s IH]; simpl; [reflexivity|].
  intros H. rewrite IH by (intros Hc; apply H; right; exact Hc).
  destruct (a =? c)%N eqn:E; [|reflexivity].
  apply N.eqb_eq in E. exfalso. apply H. left. exact E.
Qed.

Lemma split_last_app c x y :
  ~ In c y -> split_last c (x ++ c :: y) = Some (x, y).
Proof.
  intros Hy. induction x as [|a x IH]; simpl.
  - rewrite (split_last_absent _ _ Hy), N.eqb_refl. reflexivity.
  - rewrite IH. reflexivity.
Qed.

Lemma split_on_absent c s : ~ In c s -> split_on c s = [s].
Proof.
  induction s as [|a s IH]; simpl; [reflexivity|].
  intros H. rewrite IH by (intros Hc; apply H; right; exact Hc).
  destruct (a =? c)%N eqn:E; [|reflexivity].
  apply N.eqb_eq in E. exfalso. apply H. left. exact E.
Qed.

Lemma split_on_app c x y :
  ~ In c x -> split_on c (x ++ c :: y) = x :: split_on c y.
Proof.
  induction x as [|a x IH]; simpl; intros H.
  - rewrite N.eqb_refl. reflexivity.
  - rewrite IH by (intros Hc; apply H; right; exact Hc).
    destruct (a =? c)%N eqn:E; [|reflexivity].
    apply N.eqb_eq in E. exfalso. apply H. left. exact E.
Qed.

Lemma split_on_join pre p ps :
  ~ In 59%N pre -> Forall (fun q => ~ In 59%N q) (p :: ps) ->
  split_on 59 (pre ++ join (lit "; ") (p :: ps))
  = (pre ++ p) :: map (fun q => 32%N :: q) ps.
Proof.
  revert pre p. induction ps as [|q ps IH]; intros pre p Hpre Hall.
  - simpl. apply split_on_absent. rewrite in_app_iff.
    apply Forall_cons in Hall as [Hp _]. tauto.
  - apply Forall_cons in Hall as [Hp Hall].
    change (join (lit "; ") (p :: q :: ps))
      with (p ++ 59%N :: [32%N] ++ join (lit "; ") (q :: ps)).
    rewrite app_assoc, split_on_app by (rewrite in_app_iff; tauto).
    rewrite IH; [reflexivity | | exact Hall].
    intros [H|[]]. discriminate H.
Qed.

Lemma isdigit_not c x : Unicode.isdigit x = false -> Unicode.isdigit c = true -> c <> x.
Proof. intros Hx Hc ->. congruence. Qed.

Lemma ten_digits_without s x :
  Unicode.isdigit x = false -> ten_digits s -> ~ In x s.
Proof.
  intros Hx [_ Hall] Hin. rewrite List.Forall_forall in Hall.
  apply (isdigit_not x x Hx); [apply Hall, Hin | reflexivity].
Qed.

Lemma Field_eta (f : Field.t) : Field.init (Field.value f) = f.
Proof. destruct f. reflexivity. Qed.

Lemma join_nonempty sep (x : pystr) l : x <> [] -> join sep (x :: l) <> [].
Proof.
  intros Hx. destruct l; simpl; [exact Hx|].
  destruct x; [contradiction | discriminate].
Qed.

Lemma parse_phones_nonempty joined :
  joined <> [] ->
  parse_phones joined
  = match split_on 59 joined with
    | [] => []
    | p :: ps => map Field.init (p :: map (drop 1) ps)
    end.
Proof. destruct joined; [contradiction | reflexivity]. Qed.

Lemma parse_phones_join ps :
  Forall (fun p => ten_digits (Field.value p)) ps ->
  parse_phones (join (lit "; ") (map Field.value ps)) = ps.
Proof.
  intros Hall. destruct ps as [|p ps]; [reflexivity|].
  pose proof (split_on_join [] (Field.value p) (map Field.value ps)) as Hs.
  rewrite !app_nil_l in Hs.
  change (map Field.value (p :: ps))
    with (Field.value p :: map Field.value ps).
  rewrite parse_phones_nonempty.
  2:{ apply join_nonempty. apply Forall_cons in Hall as [[Hlen _] _].
      intros E. rewrite E in Hlen. discriminate Hlen. }
  unfold pystr in *. rewrite Hs.
  - change (map Field.init
              (Field.value p
               :: map (drop 1) (map (fun q => 32%N :: q) (map Field.value ps))))
      with (Field.init (Field.value p)
            :: map Field.init
                 (map (drop 1) (map (fun q => 32%N :: q) (map Field.value ps)))).
    rewrite Field_eta. f_equal. rewrite !map_map.
    rewrite <- (map_id ps) at 2. apply map_ext. intros q.
    unfold drop. apply Field_eta.
  - intros [].
  - change (Field.value p :: map Field.value ps)
      with (map Field.value (p :: ps)).
    apply Forall_map. eapply Forall_impl; [exact Hall|].
    intros q Hq. apply ten_digits_without; [reflexivity | exact Hq].
Qed.

Lemma join_without x sep ps :
  ~ In x sep -> Forall (fun p => ~ In x p) ps -> ~ In x (join sep ps).
Proof.
  intros Hsep Hall. induction Hall as [|p ps Hp Hall IH]; [intros []|].
  destruct ps as [|q ps]; [exact Hp|].
  change (join sep (p :: q :: ps)) with (p ++ sep ++ join sep (q :: ps)).
  rewrite !in_app_iff. tauto.
Qed.

Lemma date_text_without raw dt x :
  x <> 46%N -> may_match strptime.re_d x = false ->
  may_match strptime.re_m x = false -> may_match strptime.re_Y x = false ->
  date_text raw dt -> ~ In x raw.
Proof.
  intros Hx Hd Hm Hy (d & m & y & -> & Ld & Lm & Ly & _).
  rewrite !in_app_iff. simpl.
  intros [H|[[H|[]]|[H|[[H|[]]|H]]]]; try congruence.
  - rewrite (lang_may_match _ _ Ld _ H) in Hd. discriminate.
  - rewrite (lang_may_match _ _ Lm _ H) in Hm. discriminate.
  - rewrite (lang_may_match _ _ Ly _ H) in Hy. discriminate.
Qed.

Lemma date_text_not_None dt : ~ date_text (lit "None") dt.
Proof. intros H. apply parse_spec in H. discriminate H. Qed.

Lemma str_parse_back (r : ContactRecord.t) :
  record_inv r -> birthday_inv r ->
  parse_back (ContactRecord.str r) = Some r.
Proof.
  intros Hphones Hbirthday. destruct r as [[name] phones birthday].
  unfold record_inv, birthday_inv in *. simpl in Hphones, Hbirthday.
  unfold ContactRecord.str, parse_back. simpl ContactRecord.name.
  simpl ContactRecord.phones. simpl ContactRecord.birthday. simpl Field.value.
  set (J := join (lit "; ") (map Field.value phones)).
  set (B := match birthday with
            | Some b => Field.value b
            | None => lit "None"
            end).
  assert (HJ : ~ In 44%N J).
  { apply join_without; [intros [H|[H|[]]]; discriminate H|].
    apply Forall_map. eapply Forall_impl; [exact Hphones|].
    intros q Hq. apply ten_digits_without; [reflexivity | exact Hq]. }
  assert (HB : ~ In 44%N B).
  { unfold B. destruct birthday as [b|].
    - destruct (Hbirthday b eq_refl) as [dt Hdt].
      eapply date_text_without; [| | | |exact Hdt];
        reflexivity || discriminate.
    - intros [H|[H|[H|[H|[]]]]]; discriminate H. }
  rewrite strip_prefix_app. cbn [mbind option_bind].
  change (lit ", birthday: ") with (44%N :: lit " birthday: ").
  change (lit ", phones: ") with (44%N :: lit " phones: ").
  replace (name ++ (44%N :: lit " phones: ") ++ J
           ++ (44%N :: lit " birthday: ") ++ B)
    with ((name ++ 44%N :: lit " phones: " ++ J)
          ++ 44%N :: lit " birthday: " ++ B)
    by (rewrite <- !app_assoc; reflexivity).
  rewrite split_last_app.
  2:{ rewrite in_app_iff. intros [H|H]; [|exact (HB H)].
      revert H. clear. vm_compute. intuition discriminate. }
  cbn [mbind option_bind]. rewrite strip_prefix_app. cbn [mbind option_bind].
  rewrite split_last_app.
  2:{ rewrite in_app_iff. intros [H|H]; [|exact (HJ H)].
      revert H. clear. vm_compute. intuition discriminate. }
  cbn [mbind option_bind]. rewrite strip_prefix_app. cbn [mbind option_bind].
  unfold J. rewrite (parse_phones_join _ Hphones).
  unfold Name.init. do 2 f_equal.
  unfold B. destruct birthday as [b|].
  - destruct (decide (Field.value b = lit "None")) as [E|_].
    + destruct (Hbirthday b eq_refl) as [dt Hdt]. rewrite E in Hdt.
      destruct (date_text_not_None _ Hdt).
    + rewrite Field_eta. reflexivity.
  - destruct (decide (lit "None" = lit "None")); [reflexivity | contradiction].
Qed.

Lemma birthday_inv_add_birthday birthday self :
  birthday_inv self ->
  birthday_inv (snd (ContactRecord.add_birthday birthday self)).
Proof.
  intros Hr. unfold ContactRecord.add_birthday, bind, lift, modify.
  destruct (Birthday_init_cases birthday) as [(dt & Hp & ->)|[_ ->]];
    simpl; [|exact Hr].
  intros b [= <-]. exists dt. apply parse_spec, Hp.
Qed.

Lemma birthday_edit_phone_loop old_phone new_phone rest i self :
  ContactRecord.birthday
    (snd (ContactRecord.edit_phone_loop i rest old_phone new_phone self))
  = ContactRecord.birthday self.
Proof.
  revert i. induction rest as [|p rest IH]; intros i; simpl; [reflexivity|].
  destruct (decide (Field.value p = old_phone)) as [_|_]; [|apply IH].
  unfold bind, lift, modify. destruct (Phone.init new_phone); reflexivity.
Qed.

Lemma built_inv r : built r -> record_inv r /\ birthday_inv r.
Proof.
  induction 1 as [name|r phone _ [IHp IHb]|r phone _ [IHp IHb]
                  |r old_phone new_phone _ [IHp IHb]|r birthday _ [IHp IHb]].
  - split; [apply record_inv_init | intros b [=]].
  - split; [apply record_inv_add_phone, IHp|].
    unfold ContactRecord.add_phone, bind, lift, modify.
    destruct (Phone.init phone); exact IHb.
  - split; [apply record_inv_remove_phone, IHp | exact IHb].
  - split; [apply record_inv_edit_phone, IHp|].
    unfold birthday_inv, ContactRecord.edit_phone.
    rewrite birthday_edit_phone_loop. exact IHb.
  - split; [apply record_inv_add_birthday, IHp
           | apply birthday_inv_add_birthday, IHb].
Qed.

(** C9.  The text of a record the program can build is read back to the
    record: its name, whatever characters it has, its phones in order and
    its birthday. *)
Theorem str_round_trip (r : ContactRecord.t) :
  built r -> parse_back (ContactRecord.str r) = Some r.
Proof.
  intros H. apply built_inv in H as [Hp Hb]. apply str_parse_back; assumption.
Qed.

Lemma str_round_trip_witness :
  parse_back (ContactRecord.str tricky_record) = Some tricky_record.
Proof.
  apply (str_round_trip tricky_record). unfold tricky_record.
  repeat constructor.
Defined.

Example tricky_record_str :
  ContactRecord.str tricky_record
  = lit "Contact name: A, phones: 1111111111, birthday: None, phones: 0123456789; 9876543210, birthday: 1.1.2024".
Proof. reflexivity. Qed.

End RoundTrip.

(** ** The names of the records of a book are distinct *)

Section Keys.

Import AddressBook.

Lemma getitem_None key (data : AddressBook.t) :
  getitem key data = None <-> ~ In key (map fst data).
Proof.
  induction data as [|[k r] data IH]; simpl; [tauto|].
  destruct (decide (k = key)) as [->|Hne].
  - split; [discriminate | intros H; exfalso; apply H; left; reflexivity].
  - rewrite IH. tauto.
Qed.

Lemma keys_setitem key record (data : AddressBook.t) :
  map fst (setitem key record data)
  = match getitem key data with
    | Some _ => map fst data
    | None => map fst data ++ [key]
    end.
Proof.
  induction data as [|[k r] data IH]; simpl; [reflexivity|].
  destruct (decide (k = key)) as [->|Hne]; [reflexivity|].
  simpl. rewrite IH. destruct (getitem key data); reflexivity.
Qed.

Lemma keyed_setitem key record data :
  keyed_by_name data -> record_name record = key ->
  keyed_by_name (setitem key record data).
Proof.
  intros [Hnd Hall] Hkey. split.
  - rewrite keys_setitem. destruct (getitem key data) eqn:Hget; [exact Hnd|].
    apply NoDup_app. split; [exact Hnd|]. split.
    + intros x Hx [->|[]]%list_elem_of_In. apply getitem_None in Hget.
      apply Hget, list_elem_of_In, Hx.
    + apply NoDup_singleton.
  - clear Hnd. induction data as [|[k r] data IH]; simpl.
    + constructor; [exact Hkey | constructor].
    + apply Forall_cons in Hall as [Hk Hall].
      destruct (decide (k = key)); constructor; auto.
Qed.

Lemma keys_delitem key (data : AddressBook.t) x :
  In x (map fst (delitem key data)) -> In x (map fst data).
Proof.
  induction data as [|[k r] data IH]; simpl; [tauto|].
  destruct (decide (k = key)); simpl; [tauto|].
  intros [H|H]; [left; exact H | right; apply IH, H].
Qed.

Lemma keyed_delitem key data :
  keyed_by_name data -> keyed_by_name (delitem key data).
Proof.
  intros [Hnd Hall].
  induction data as [|[k r] data IH]; simpl; [split; assumption|].
  apply NoDup_cons in Hnd as [Hk Hnd]. apply Forall_cons in Hall as [Hr Hall].
  destruct (decide (k = key)) as [_|Hne]; [split; assumption|].
  destruct (IH Hnd Hall) as [Hnd' Hall']. split.
  - simpl. apply NoDup_cons. split; [|exact Hnd'].
    intros Hin. apply Hk. apply list_elem_of_In in Hin.
    apply list_elem_of_In. eapply keys_delitem, Hin.
  - constructor; assumption.
Qed.

Lemma keyed_getitem key data record :
  keyed_by_name data -> getitem key data = Some record ->
  record_name record = key.
Proof.
  intros [_ Hall]. induction data as [|[k r] data IH]; simpl; [discriminate|].
  apply Forall_cons in Hall as [Hr Hall].
  destruct (decide (k = key)) as [<-|_]; [intros [= <-]; exact Hr | auto].
Qed.

Lemma keyed_empty : keyed_by_name [].
Proof. split; constructor. Qed.

Lemma keyed_unique_names book : keyed_by_name book -> unique_names book.
Proof.
  intros [Hnd Hall]. unfold unique_names, values.
  rewrite map_map.
  replace (map (fun x => record_name (snd x)) book) with (map fst book);
    [exact Hnd|].
  clear Hnd. induction Hall as [|kr book Hkr _ IH]; simpl;
    [reflexivity | rewrite Hkr, IH; reflexivity].
Qed.

Lemma name_add_phone phone self :
  record_name (snd (ContactRecord.add_phone phone self)) = record_name self.
Proof.
  unfold ContactRecord.add_phone, bind, lift, modify.
  destruct (Phone.init phone); reflexivity.
Qed.

Lemma name_edit_phone old_phone new_phone self :
  record_name (snd (ContactRecord.edit_phone old_phone new_phone self))
  = record_name self.
Proof.
  unfold ContactRecord.edit_phone. generalize 0%nat.
  induction (ContactRecord.phones self) as [|p rest IH]; intros i; simpl;
    [reflexivity|].
  destruct (decide (Field.value p = old_phone)) as [_|_]; [|apply IH].
  unfold bind, lift, modify. destruct (Phone.init new_phone); reflexivity.
Qed.

Lemma name_add_birthday birthday self :
  record_name (snd (ContactRecord.add_birthday birthday self))
  = record_name self.
Proof.
  unfold ContactRecord.add_birthday, bind, lift, modify.
  destruct (Birthday.init birthday); reflexivity.
Qed.

Lemma keyed_on_record {A} record (method : M ContactRecord.t A) data :
  keyed_by_name data ->
  record_name (snd (method record)) = record_name record ->
  keyed_by_name (snd (on_record record method data)).
Proof.
  intros Hd Hn. unfold on_record.
  destruct (method record) as [res record']. simpl in *.
  apply keyed_setitem; assumption.
Qed.

Variable book : AddressBook.t.
Hypothesis Hbook : keyed_by_name book.

Lemma keyed_add_contact args : keyed_by_name (snd (add_contact args book)).
Proof.
  unfold add_contact. rewrite input_error_state.
  unfold add_contact_body, bind, lift.
  destruct (unpack2_cases args) as [(name & phone & -> & ->)| ->];
    [|exact Hbook].
  unfold find. destruct (getitem name book) as [record|] eqn:Hget.
  - pose proof (keyed_on_record record (ContactRecord.add_phone phone) book
      Hbook (name_add_phone phone record)) as H.
    destruct (on_record record (ContactRecord.add_phone phone) book)
      as [[u|e] book']; exact H.
  - unfold add_record, modify.
    set (book1 := setitem _ _ book).
    assert (H1 : keyed_by_name book1)
      by (apply keyed_setitem; [exact Hbook | reflexivity]).
    pose proof (keyed_on_record (ContactRecord.init name)
      (ContactRecord.add_phone phone) book1 H1 (name_add_phone phone _)) as H.
    destruct (on_record (ContactRecord.init name)
                (ContactRecord.add_phone phone) book1) as [[u|e] book'];
      exact H.
Qed.

Lemma keyed_change_contact args :
  keyed_by_name (snd (change_contact args book)).
Proof.
  unfold change_contact. rewrite input_error_state.
  unfold change_contact_body, bind, lift.
  destruct (unpack3_cases args) as [(name & old & new & -> & ->)| ->];
    [|exact Hbook].
  unfold find. destruct (getitem name book) as [record|] eqn:Hget;
    [|exact Hbook].
  pose proof (keyed_on_record record (ContactRecord.edit_phone old new) book
    Hbook (name_edit_phone old new record)) as H.
  destruct (on_record record (ContactRecord.edit_phone old new) book)
    as [[u|e] book']; exact H.
Qed.

Lemma keyed_add_birthday args : keyed_by_name (snd (add_birthday args book)).
Proof.
  unfold add_birthday. rewrite input_error_state.
  unfold add_birthday_body, bind, lift.
  destruct (unpack2_cases args) as [(name & birthday & -> & ->)| ->];
    [|exact Hbook].
  unfold find. destruct (getitem name book) as [record|] eqn:Hget;
    [|exact Hbook].
  pose proof (keyed_on_record record (ContactRecord.add_birthday birthday)
    book Hbook (name_add_birthday birthday record)) as H.
  destruct (on_record record (ContactRecord.add_birthday birthday) book)
    as [[u|e] book']; exact H.
Qed.

End Keys.

(** ** When the query returns, and whom it lists *)

Section QueryFailure.

Import datetime.

Lemma leap_then_not_leap y : is_leap y = true -> is_leap (y + 1) = false.
Proof.
  unfold is_leap. intros H. apply andb_prop in H as [H4 _].
  apply Z.eqb_eq in H4.
  assert (E : ((y + 1) mod 4 =? 0) = false)
    by (apply Z.eqb_neq; Z.div_mod_to_equations; lia).
  rewrite E. reflexivity.
Qed.

Lemma days_in_month_not_feb y1 y2 m : m <> 2 ->
  days_in_month y1 m = days_in_month y2 m.
Proof.
  intros Hm. unfold days_in_month.
  assert (E : (m =? 2) = false) by (apply Z.eqb_neq, Hm).
  rewrite E. reflexivity.
Qed.

Lemma days_in_feb y : 28 <= days_in_month y 2 <= 29.
Proof. unfold days_in_month. destruct (is_leap y); simpl; lia. Qed.

(** Any day but a February 29 exists in every year. *)
Lemma replace_year_ok bday y :
  valid bday -> ~ feb29 bday -> MINYEAR <= y <= MAXYEAR ->
  replace_year bday y = Ok (Date y (month bday) (day bday)).
Proof.
  intros (_ & Hm & Hd) Hn Hy. unfold replace_year. apply new_valid.
  unfold valid. simpl. split; [exact Hy|]. split; [exact Hm|].
  destruct (Z.eq_dec (month bday) 2) as [E|E].
  - rewrite E in *. pose proof (days_in_feb (year bday)).
    pose proof (days_in_feb y).
    assert (day bday <> 29) by (intros Hd29; apply Hn; split; assumption).
    lia.
  - rewrite (days_in_month_not_feb y (year bday) _ E). exact Hd.
Qed.

Lemma replace_year_feb29 bday y :
  feb29 bday -> MINYEAR <= y <= MAXYEAR ->
  replace_year bday y
  = if is_leap y then Ok (Date y 2 29)
    else Raise (ValueError day_out_of_range).
Proof.
  intros [Hm Hd] Hy. unfold replace_year. rewrite Hm, Hd.
  destruct (is_leap y) eqn:Hleap; [|apply new_feb29; assumption].
  apply new_valid. unfold valid, days_in_month. simpl. rewrite Hleap.
  simpl. lia.
Qed.

Variable today : date.
Hypothesis Htoday : valid today.
Hypothesis Hyear : year today < MAXYEAR.

Lemma occurrence_ok_iff bday :
  valid bday ->
  (exists occ, AddressBook.occurrence today bday = Ok occ)
  <-> (feb29 bday ->
       is_leap (year today) = true
       /\ ltb (Date (year today) 2 29) today = false).
Proof.
  intros Hv. unfold AddressBook.occurrence, rbind.
  assert (Hy0 : MINYEAR <= year today <= MAXYEAR) by apply Htoday.
  assert (Hy1 : MINYEAR <= year today + 1 <= MAXYEAR)
    by (unfold MINYEAR, MAXYEAR in *; lia).
  assert (Hfeb : {month bday = 2 /\ day bday = 29} + {~ feb29 bday}).
  { unfold feb29. destruct (Z.eq_dec (month bday) 2);
      destruct (Z.eq_dec (day bday) 29); tauto. }
  destruct Hfeb as [Hf|Hn].
  - rewrite (replace_year_feb29 bday _ Hf Hy0).
    destruct (is_leap (year today)) eqn:Hleap.
    + destruct (ltb (Date (year today) 2 29) today) eqn:Hlt.
      * rewrite (replace_year_feb29 (Date (year today) 2 29) _
                   ltac:(split; reflexivity) Hy1).
        rewrite (leap_then_not_leap _ Hleap).
        split; [intros [occ H]; discriminate|].
        intros H. destruct (H Hf) as [_ H']. discriminate.
      * split; [intros _ _; auto | intros _; eauto].
    + split; [intros [occ H]; discriminate|].
      intros H. destruct (H Hf) as [H' _]. discriminate.
  - rewrite (replace_year_ok bday _ Hv Hn Hy0).
    split; [intros _ Hf; contradiction|]. intros _.
    destruct (ltb _ today); [|eauto].
    rewrite replace_year_ok; eauto.
    + apply new_inv with (y := year today) (m := month bday) (d := day bday).
      apply (replace_year_ok bday _ Hv Hn Hy0).
Qed.

End QueryFailure.

Lemma date_text_valid raw dt : date_text raw dt -> datetime.valid dt.
Proof. intros (d & m & y & _ & _ & _ & _ & _ & _ & _ & Hv). exact Hv. Qed.




(** * Further properties of the code *)

(** ** Record: phones *)

Section RecordPhones.

Import ContactRecord.

Lemma find_phone_loop_None rest phone :
  find_phone_loop rest phone = None
  <-> forall p, In p rest -> Field.value p <> phone.
Proof.
  induction rest as [|x rest IH]; simpl.
  - split; [intros _ p [] | reflexivity].
  - destruct (decide (Field.value x = phone)) as [Hx|Hx].
    + split; [discriminate|]. intros H. exfalso. apply (H x); auto.
    + rewrite IH. split.
      * intros H p [<-|Hp]; [exact Hx | apply H, Hp].
      * intros H p Hp. apply H. right. exact Hp.
Qed.

Lemma find_phone_loop_Some rest phone p :
  find_phone_loop rest phone = Some p
  <-> exists pre post, rest = pre ++ p :: post /\ Field.value p = phone
        /\ forall x, In x pre -> Field.value x <> phone.
Proof.
  induction rest as [|x rest IH]; simpl.
  - split; [discriminate|]. intros (pre & post & H & _).
    destruct pre; discriminate H.
  - destruct (decide (Field.value x = phone)) as [Hx|Hx].
    + split.
      * intros [= <-]. exists [], rest. split; [reflexivity|].
        split; [exact Hx | intros y []].
      * intros ([|y pre] & post & Heq & Hp & Hpre).
        -- injection Heq as -> _. reflexivity.
        -- injection Heq as -> _. exfalso. apply (Hpre y); auto.
           left. reflexivity.
    + rewrite IH. split.
      * intros (pre & post & -> & Hp & Hpre). exists (x :: pre), post.
        split; [reflexivity|]. split; [exact Hp|].
        intros y [<-|Hy]; [exact Hx | apply Hpre, Hy].
      * intros ([|y pre] & post & Heq & Hp & Hpre).
        -- injection Heq as -> _. contradiction.
        -- injection Heq as -> ->. exists pre, post.
           split; [reflexivity|]. split; [exact Hp|].
           intros z Hz. apply Hpre. right. exact Hz.
Qed.

Lemma find_phone_loop_app l1 l2 phone :
  find_phone_loop (l1 ++ l2) phone
  = match find_phone_loop l1 phone with
    | Some p => Some p
    | None => find_phone_loop l2 phone
    end.
Proof.
  induction l1 as [|x l1 IH]; simpl; [reflexivity|].
  destruct (decide (Field.value x = phone)); [reflexivity | exact IH].
Qed.

Lemma find_phone_loop_filter rest phone q :
  q <> phone ->
  find_phone_loop (filter (fun p => Field.value p <> phone) rest) q
  = find_phone_loop rest q.
Proof.
  intros Hq. induction rest as [|x rest IH]; [reflexivity|].
  rewrite filter_cons. simpl.
  destruct (decide (Field.value x <> phone)) as [Hx|Hx]; simpl.
  - destruct (decide (Field.value x = q)); [reflexivity | exact IH].
  - destruct (decide (Field.value x = q)) as [Hxq|_]; [|exact IH].
    exfalso. apply Hx. congruence.
Qed.

Lemma filter_absent rest phone :
  (forall p, In p rest -> Field.value p <> phone) ->
  filter (fun p => Field.value p <> phone) rest = rest.
Proof.
  induction rest as [|x rest IH]; intros H; [reflexivity|].
  rewrite filter_cons.
  destruct (decide (Field.value x <> phone)) as [_|Hx].
  - f_equal. apply IH. intros p Hp. apply H. right. exact Hp.
  - exfalso. apply Hx, H. left. reflexivity.
Qed.

Lemma t_eta (r : t) : mk (name r) (phones r) (birthday r) = r.
Proof. destruct r. reflexivity. Qed.

(** X1.  [add_phone] with a phone the validator takes appends it: the
    record has one phone more, the new phone is found, and every other
    phone is found as before (a phone already there stays the first of its
    value).  With any other phone it raises the validator's error and
    leaves the record as it was. *)
Theorem add_phone_spec (self : t) (phone : pystr) :
  (ten_digits phone ->
   fst (add_phone phone self) = Ok tt
   /\ phones (snd (add_phone phone self)) = phones self ++ [Field.init phone]
   /\ name (snd (add_phone phone self)) = name self
   /\ birthday (snd (add_phone phone self)) = birthday self
   /\ (exists p, find_phone (snd (add_phone phone self)) phone = Some p
                 /\ Field.value p = phone)
   /\ (forall q p, find_phone self q = Some p ->
                   find_phone (snd (add_phone phone self)) q = Some p)
   /\ (forall q, q <> phone ->
                 find_phone (snd (add_phone phone self)) q = find_phone self q))
  /\ (~ ten_digits phone ->
      add_phone phone self = (Raise (ValueError Phone.error), self)).
Proof.
  split.
  - intros Hd. unfold add_phone, bind, lift, modify.
    rewrite (Phone_init_ok _ Hd). simpl. unfold find_phone. simpl.
    repeat split.
    + rewrite find_phone_loop_app. simpl.
      destruct (decide (phone = phone)); [|contradiction].
      destruct (find_phone_loop (phones self) phone) as [p|] eqn:Hf.
      * exists p. split; [reflexivity|].
        apply find_phone_loop_Some in Hf as (_ & _ & _ & Hp & _). exact Hp.
      * exists (Field.init phone). split; reflexivity.
    + intros q p Hq. rewrite find_phone_loop_app, Hq. reflexivity.
    + intros q Hq. rewrite find_phone_loop_app. simpl.
      destruct (decide (phone = q)); [congruence|].
      destruct (find_phone_loop (phones self) q); reflexivity.
  - intros Hd. unfold add_phone, bind, lift.
    rewrite (Phone_init_raise _ Hd). reflexivity.
Qed.

(** X2.  [remove_phone] never raises; afterwards no phone of that value
    is found, every other value is found as before, and name and birthday
    are kept; when no phone has the value the record is unchanged. *)
Theorem remove_phone_spec (self : t) (phone : pystr) :
  fst (remove_phone phone self) = Ok tt
  /\ find_phone (snd (remove_phone phone self)) phone = None
  /\ (forall q, q <> phone ->
        find_phone (snd (remove_phone phone self)) q = find_phone self q)
  /\ name (snd (remove_phone phone self)) = name self
  /\ birthday (snd (remove_phone phone self)) = birthday self
  /\ (length (phones (snd (remove_phone phone self))) <= length (phones self))%nat
  /\ (find_phone self phone = None -> snd (remove_phone phone self) = self).
Proof.
  unfold remove_phone, modify, find_phone. simpl.
  split; [reflexivity|]. split; [|split; [|split; [|split; [|split]]]].
  - apply find_phone_loop_None. intros p Hp.
    apply list_elem_of_In, list_elem_of_filter in Hp. apply Hp.
  - intros q Hq. apply find_phone_loop_filter, Hq.
  - reflexivity.
  - reflexivity.
  - apply length_filter.
  - intros Hnone. pose proof (proj1 (find_phone_loop_None _ _) Hnone) as Hno.
    unfold set_phones. rewrite (filter_absent _ _ Hno). apply t_eta.
Qed.

(** X3.  [find_phone] returns the first phone of the value asked for, and
    None exactly when the record has no phone of that value. *)
Theorem find_phone_spec (self : t) (phone : pystr) :
  (find_phone self phone = None
   <-> forall p, In p (phones self) -> Field.value p <> phone)
  /\ (forall p, find_phone self phone = Some p
        <-> exists pre post,
              phones self = pre ++ p :: post /\ Field.value p = phone
              /\ forall x, In x pre -> Field.value x <> phone).
Proof.
  split; [apply find_phone_loop_None|].
  intros p. apply find_phone_loop_Some.
Qed.

(** X4.  Removing a phone just added gives the record back, when the
    record had no phone of that value. *)
Theorem add_then_remove (self : t) (phone : pystr) :
  ten_digits phone -> find_phone self phone = None ->
  snd (remove_phone phone (snd (add_phone phone self))) = self.
Proof.
  intros Hd Hnone. unfold add_phone, bind, lift, modify.
  rewrite (Phone_init_ok _ Hd). unfold remove_phone, modify. simpl.
  pose proof (proj1 (find_phone_loop_None _ _) Hnone) as Hno.
  rewrite filter_app, (filter_absent _ _ Hno).
  rewrite filter_cons. simpl.
  destruct (decide (phone <> phone)) as [Hne|_]; [contradiction|].
  rewrite filter_nil, app_nil_r. unfold set_phones. simpl. apply t_eta.
Qed.

Lemma add_then_remove_witness :
  snd (remove_phone (lit "0123456789")
         (snd (add_phone (lit "0123456789") (init (lit "Ann")))))
  = init (lit "Ann").
Proof.
  apply (add_then_remove (init (lit "Ann")) (lit "0123456789")).
  - repeat constructor.
  - reflexivity.
Defined.

End RecordPhones.

Section RecordEdit.

Import ContactRecord.

Lemma find_phone_loop_middle pre p p' post q :
  Field.value p <> q -> Field.value p' <> q ->
  find_phone_loop (pre ++ p' :: post) q = find_phone_loop (pre ++ p :: post) q.
Proof.
  intros Hp Hp'. rewrite !find_phone_loop_app. simpl.
  destruct (decide (Field.value p' = q)); [contradiction|].
  destruct (decide (Field.value p = q)); [contradiction|]. reflexivity.
Qed.

(** X5.  When [edit_phone] returns, the record had a phone of the old
    value and the new value is one the validator takes; the record has as
    many phones as before, the new value is found, every value other than
    the two is found as before, and name and birthday are kept. *)
Theorem edit_then_find (self : t) (old_phone new_phone : pystr) :
  fst (edit_phone old_phone new_phone self) = Ok tt ->
  (exists p, find_phone self old_phone = Some p)
  /\ ten_digits new_phone
  /\ length (phones (snd (edit_phone old_phone new_phone self)))
     = length (phones self)
  /\ (exists p, find_phone (snd (edit_phone old_phone new_phone self))
                  new_phone = Some p /\ Field.value p = new_phone)
  /\ (forall q, q <> old_phone -> q <> new_phone ->
        find_phone (snd (edit_phone old_phone new_phone self)) q
        = find_phone self q)
  /\ name (snd (edit_phone old_phone new_phone self)) = name self
  /\ birthday (snd (edit_phone old_phone new_phone self)) = birthday self.
Proof.
  unfold edit_phone. intros Hok.
  destruct (first_match old_phone (phones self))
    as [Hno|(pre & p & post & Hphones & Hp & Hpre)].
  { rewrite (edit_phone_loop_absent _ _ _ _ _ Hno) in Hok. discriminate. }
  revert Hok. rewrite Hphones.
  rewrite (edit_phone_loop_found old_phone new_phone pre p post 0 self Hp Hpre).
  destruct (Phone.init new_phone) as [q|e] eqn:Hq; [|discriminate].
  apply Phone_init_inv in Hq as [-> Hd]. intros _. simpl.
  rewrite Hphones, insert_middle. unfold find_phone. simpl. rewrite Hphones.
  split; [|split; [exact Hd|split; [|split; [|split; [|split]]]]].
  - exists p. apply find_phone_loop_Some. exists pre, post. auto.
  - rewrite !length_app. reflexivity.
  - rewrite find_phone_loop_app. simpl.
    destruct (decide (new_phone = new_phone)); [|contradiction].
    destruct (find_phone_loop pre new_phone) as [x|] eqn:Hx.
    + exists x. split; [reflexivity|].
      apply find_phone_loop_Some in Hx as (_ & _ & _ & Hv & _). exact Hv.
    + exists (Field.init new_phone). split; reflexivity.
  - intros q Hq1 Hq2. apply find_phone_loop_middle; simpl; congruence.
  - reflexivity.
  - reflexivity.
Qed.

Lemma edit_then_find_witness :
  (exists p, find_phone
               (mk (Name.init (lit "Ann")) [Field.init (lit "0123456789")] None)
               (lit "0123456789") = Some p)
  /\ ten_digits (lit "1111111111")
  /\ length (phones (snd (edit_phone (lit "0123456789") (lit "1111111111")
       (mk (Name.init (lit "Ann")) [Field.init (lit "0123456789")] None))))
     = length (phones
         (mk (Name.init (lit "Ann")) [Field.init (lit "0123456789")] None))
  /\ (exists p, find_phone (snd (edit_phone (lit "0123456789") (lit "1111111111")
       (mk (Name.init (lit "Ann")) [Field.init (lit "0123456789")] None)))
                  (lit "1111111111") = Some p
                /\ Field.value p = lit "1111111111")
  /\ (forall q, q <> lit "0123456789" -> q <> lit "1111111111" ->
        find_phone (snd (edit_phone (lit "0123456789") (lit "1111111111")
          (mk (Name.init (lit "Ann")) [Field.init (lit "0123456789")] None))) q
        = find_phone
            (mk (Name.init (lit "Ann")) [Field.init (lit "0123456789")] None) q)
  /\ name (snd (edit_phone (lit "0123456789") (lit "1111111111")
       (mk (Name.init (lit "Ann")) [Field.init (lit "0123456789")] None)))
     = name (mk (Name.init (lit "Ann")) [Field.init (lit "0123456789")] None)
  /\ birthday (snd (edit_phone (lit "0123456789") (lit "1111111111")
       (mk (Name.init (lit "Ann")) [Field.init (lit "0123456789")] None)))
     = birthday
         (mk (Name.init (lit "Ann")) [Field.init (lit "0123456789")] None).
Proof.
  apply (edit_then_find
           (mk (Name.init (lit "Ann")) [Field.init (lit "0123456789")] None)
           (lit "0123456789") (lit "1111111111")).
  reflexivity.
Defined.

(** X6.  [add_birthday] with a text that [Birthday] takes stores the text
    as it is, in place of any earlier birthday, and keeps name and phones;
    with any other text it raises the validator's error and leaves the
    record as it was. *)
Theorem add_birthday_spec (self : t) (text : pystr) :
  ((exists dt, date_text text dt) ->
   add_birthday text self
   = (Ok tt, mk (name self) (phones self) (Some (Field.init text))))
  /\ (~ (exists dt, date_text text dt) ->
      add_birthday text self = (Raise (ValueError Birthday.error), self)).
Proof.
  unfold add_birthday, bind, lift, modify. split.
  - intros [dt Hdt]. rewrite (Birthday_init_ok _ _ Hdt). reflexivity.
  - intros Hn.
    destruct (Birthday_init_cases text) as [(dt & Hp & _)|[_ ->]];
      [|reflexivity].
    exfalso. apply Hn. exists dt. apply parse_spec, Hp.
Qed.

End RecordEdit.

(** ** AddressBook: add_record, find, delete *)

Section BookOperations.

Import AddressBook.

Lemma getitem_setitem_eq key record (data : AddressBook.t) :
  getitem key (setitem key record data) = Some record.
Proof.
  induction data as [|[k r] data IH]; simpl.
  - destruct (decide (key = key)); [reflexivity | contradiction].
  - destruct (decide (k = key)) as [->|Hne]; simpl.
    + destruct (decide (key = key)); [reflexivity | contradiction].
    + destruct (decide (k = key)); [contradiction | exact IH].
Qed.

Lemma getitem_setitem_ne key other record (data : AddressBook.t) :
  other <> key ->
  getitem other (setitem key record data) = getitem other data.
Proof.
  intros Hne. induction data as [|[k r] data IH]; simpl.
  - destruct (decide (key = other)); [congruence | reflexivity].
  - destruct (decide (k = key)) as [->|Hk]; simpl.
    + destruct (decide (key = other)); [congruence | reflexivity].
    + destruct (decide (k = other)); [reflexivity | exact IH].
Qed.

Lemma getitem_delitem_ne key other (data : AddressBook.t) :
  other <> key -> getitem other (delitem key data) = getitem other data.
Proof.
  intros Hne. induction data as [|[k r] data IH]; simpl; [reflexivity|].
  destruct (decide (k = key)) as [->|Hk]; simpl.
  - destruct (decide (key = other)); [congruence | reflexivity].
  - destruct (decide (k = other)); [reflexivity | exact IH].
Qed.

Lemma getitem_delitem_eq key (data : AddressBook.t) :
  NoDup (map fst data) -> getitem key (delitem key data) = None.
Proof.
  induction data as [|[k r] data IH]; simpl; [reflexivity|].
  intros Hnd. apply NoDup_cons in Hnd as [Hk Hnd].
  destruct (decide (k = key)) as [->|Hne]; simpl.
  - apply getitem_None. intros Hin. apply Hk, list_elem_of_In, Hin.
  - destruct (decide (k = key)); [contradiction | apply IH, Hnd].
Qed.

Lemma delitem_absent key (data : AddressBook.t) :
  getitem key data = None -> delitem key data = data.
Proof.
  induction data as [|[k r] data IH]; simpl; [reflexivity|].
  destruct (decide (k = key)); [discriminate|].
  intros H. rewrite (IH H). reflexivity.
Qed.

Lemma delitem_setitem_fresh key record (data : AddressBook.t) :
  getitem key data = None -> delitem key (setitem key record data) = data.
Proof.
  induction data as [|[k r] data IH]; simpl.
  - destruct (decide (key = key)); [reflexivity | contradiction].
  - destruct (decide (k = key)) as [->|Hne]; [discriminate|]. simpl.
    destruct (decide (k = key)); [contradiction|].
    intros H. rewrite (IH H). reflexivity.
Qed.

Lemma length_setitem key record (data : AddressBook.t) :
  length (setitem key record data)
  = match getitem key data with
    | Some _ => length data
    | None => S (length data)
    end.
Proof.
  induction data as [|[k r] data IH]; simpl; [reflexivity|].
  destruct (decide (k = key)); simpl; [reflexivity|].
  rewrite IH. destruct (getitem key data); reflexivity.
Qed.

(** X7.  After [add_record] the record is found under its name and every
    other name is found as before; a record under a new name is put last,
    a record under a name the book has takes the place of the old one, its
    position kept.  [find] does not change the book. *)
Theorem add_record_find (record : ContactRecord.t) (book : AddressBook.t) :
  fst (add_record record book) = Ok tt
  /\ fst (find (record_name record) (snd (add_record record book)))
     = Ok (Some record)
  /\ (forall name, name <> record_name record ->
        fst (find name (snd (add_record record book)))
        = fst (find name book))
  /\ (fst (find (record_name record) book) = Ok None ->
      snd (add_record record book) = book ++ [(record_name record, record)])
  /\ (forall old, fst (find (record_name record) book) = Ok (Some old) ->
        map fst (snd (add_record record book)) = map fst book)
  /\ (forall name, snd (find name book) = book).
Proof.
  unfold add_record, modify, find. simpl. fold (record_name record).
  split; [reflexivity|]. split; [|split; [|split; [|split]]].
  - rewrite getitem_setitem_eq. reflexivity.
  - intros name Hne. rewrite (getitem_setitem_ne _ _ _ _ Hne). reflexivity.
  - intros [= Hnone]. apply setitem_fresh, Hnone.
  - intros old [= Hold]. rewrite keys_setitem, Hold. reflexivity.
  - reflexivity.
Qed.

(** X8.  [delete] never raises.  Afterwards the name is not found (the
    keys of a dict being distinct) and every other name is found as
    before; a name the book does not have leaves it unchanged; deleting a
    record just added under a new name gives the book back. *)
Theorem delete_find (name : pystr) (book : AddressBook.t) :
  fst (delete name book) = Ok tt
  /\ (NoDup (map fst book) ->
      fst (find name (snd (delete name book))) = Ok None)
  /\ (forall other, other <> name ->
        fst (find other (snd (delete name book))) = fst (find other book))
  /\ (fst (find name book) = Ok None -> snd (delete name book) = book)
  /\ (forall record,
        record_name record = name -> fst (find name book) = Ok None ->
        snd (delete name (snd (add_record record book))) = book).
Proof.
  unfold delete, find, add_record, modify. simpl.
  split; [destruct (getitem name book); reflexivity|].
  split; [|split; [|split]].
  - intros Hnd. destruct (getitem name book) eqn:Hget; simpl.
    + rewrite (getitem_delitem_eq _ _ Hnd). reflexivity.
    + rewrite Hget. reflexivity.
  - intros other Hne. destruct (getitem name book); simpl; [|reflexivity].
    rewrite (getitem_delitem_ne _ _ _ Hne). reflexivity.
  - intros [= ->]. reflexivity.
  - intros record Hname [= Hnone]. fold (record_name record). rewrite Hname.
    rewrite getitem_setitem_eq. simpl. apply delitem_setitem_fresh, Hnone.
Qed.

End BookOperations.

(** ** The occurrence of a birthday *)

Section NextOccurrence.

Import datetime.

Lemma ltb_year a b : year a < year b -> ltb a b = true.
Proof.
  intros H. unfold ltb. apply orb_true_iff. left. apply Z.ltb_lt, H.
Qed.

Lemma not_ltb_toordinal a b :
  valid a -> valid b -> ltb a b = false -> toordinal b <= toordinal a.
Proof.
  intros Ha Hb H. destruct (Z.le_gt_cases (toordinal b) (toordinal a)) as [|Hlt];
    [assumption|].
  apply (ltb_toordinal a b Ha Hb) in Hlt. congruence.
Qed.

Lemma year_toordinal a b :
  valid a -> valid b -> toordinal a <= toordinal b -> year a <= year b.
Proof.
  intros Ha Hb Hle. destruct (Z.le_gt_cases (year a) (year b)) as [|Hlt];
    [assumption|].
  pose proof (ltb_lt_toordinal b a Hb Ha (ltb_year b a Hlt)). lia.
Qed.

Lemma days_before_month_years y1 y2 m :
  days_before_month y2 m - days_before_month y1 m <= 1.
Proof.
  unfold days_before_month.
  destruct ((2 <? m) && is_leap y1), ((2 <? m) && is_leap y2); lia.
Qed.

(** X9.  The occurrence that [get_upcoming_birthdays] computes is the next
    one: it has the day and month of the birthday, it is not before
    [today] and at most 366 days after it, and no date of that day and
    month lies between [today] and it. *)
Theorem occurrence_is_next (today bday occ : date) :
  valid today ->
  AddressBook.occurrence today bday = Ok occ ->
  valid occ
  /\ month occ = month bday /\ day occ = day bday
  /\ 0 <= sub_days occ today <= 366
  /\ (forall dt, valid dt -> month dt = month bday -> day dt = day bday ->
        toordinal today <= toordinal dt -> toordinal occ <= toordinal dt).
Proof.
  intros Htoday. unfold AddressBook.occurrence, replace_year, rbind, sub_days.
  destruct (new (year today) (month bday) (day bday)) as [x|e] eqn:Hx;
    [|discriminate].
  apply new_inv in Hx as [-> Hvx]. simpl.
  set (x := Date (year today) (month bday) (day bday)) in *.
  assert (Hnext : forall dt, valid dt -> month dt = month bday ->
            day dt = day bday -> year dt = year today -> dt = x).
  { intros [y m d] _ Hm Hd Hy. simpl in *. subst. reflexivity. }
  destruct (ltb x today) eqn:Hlt.
  - intros Hocc. apply new_inv in Hocc as [-> Hvo].
    set (o := Date (year today + 1) (month bday) (day bday)) in *.
    pose proof (ltb_lt_toordinal x today Hvx Htoday Hlt) as Hxt.
    pose proof (ltb_lt_toordinal today o Htoday Hvo
                  (ltb_year today o ltac:(simpl; lia))) as Hto.
    assert (Hgap : toordinal o - toordinal x <= 367).
    { unfold toordinal, ymd2ord, o, x. simpl.
      pose proof (year_length (year today)) as Hlen.
      pose proof (days_before_month_years (year today) (year today + 1)
                    (month bday)).
      destruct (is_leap (year today)); lia. }
    split; [exact Hvo|]. split; [reflexivity|]. split; [reflexivity|].
    split; [lia|].
    intros dt Hv Hm Hd Hle.
    pose proof (year_toordinal today dt Htoday Hv Hle) as Hy.
    destruct (Z.eq_dec (year dt) (year today)) as [Heq|Hne].
    { rewrite (Hnext dt Hv Hm Hd Heq) in Hle. lia. }
    destruct (Z.eq_dec (year dt) (year today + 1)) as [Heq1|Hne1].
    + assert (dt = o) as ->; [|lia].
      destruct dt as [y m d]. simpl in *. subst. reflexivity.
    + pose proof (ltb_lt_toordinal o dt Hvo Hv
                    (ltb_year o dt ltac:(simpl; lia))). lia.
  - intros [= <-].
    pose proof (not_ltb_toordinal x today Hvx Htoday Hlt) as Hxt.
    assert (Hsame : toordinal x - toordinal today <= 366).
    { destruct Hvx as (_ & Hm & Hd). destruct Htoday as (_ & Htm & Htd).
      pose proof (day_of_year_bounds _ _ _ Hm Hd).
      pose proof (day_of_year_bounds _ _ _ Htm Htd).
      unfold toordinal, ymd2ord, x in *. simpl in *.
      destruct (is_leap (year today)); lia. }
    split; [exact Hvx|]. split; [reflexivity|]. split; [reflexivity|].
    split; [lia|].
    intros dt Hv Hm Hd Hle.
    pose proof (year_toordinal today dt Htoday Hv Hle) as Hy.
    destruct (Z.eq_dec (year dt) (year today)) as [Heq|Hne].
    + rewrite (Hnext dt Hv Hm Hd Heq). lia.
    + pose proof (ltb_lt_toordinal x dt Hvx Hv
                    (ltb_year x dt ltac:(simpl; lia))). lia.
Qed.

Lemma occurrence_is_next_witness :
  valid (Date 2025 1 2)
  /\ month (Date 2025 1 2) = month (Date 1990 1 2)
  /\ day (Date 2025 1 2) = day (Date 1990 1 2)
  /\ 0 <= sub_days (Date 2025 1 2) (Date 2024 12 31) <= 366
  /\ (forall dt, valid dt -> month dt = month (Date 1990 1 2) ->
        day dt = day (Date 1990 1 2) ->
        toordinal (Date 2024 12 31) <= toordinal dt ->
        toordinal (Date 2025 1 2) <= toordinal dt).
Proof.
  apply (occurrence_is_next (Date 2024 12 31) (Date 1990 1 2) (Date 2025 1 2)).
  - unfold valid. simpl. vm_compute. intuition discriminate.
  - reflexivity.
Defined.

End NextOccurrence.

(** ** The dates the query reports *)

Section ReportedDates.

Import datetime.

Lemma reads_as_sound r n s :
  reads_as r n s = true -> lang r s /\ py_int s = Some n.
Proof.
  unfold reads_as. intros H. apply andb_prop in H as [Hrun Hint]. split.
  - apply existsb_exists in Hrun as ([m rest] & Hin & Hrest).
    simpl in Hrest. destruct rest; [|discriminate].
    apply run_sound in Hin as [-> L]. rewrite app_nil_r. exact L.
  - destruct (py_int s) as [k|]; [|discriminate].
    apply Z.eqb_eq in Hint as ->. reflexivity.
Qed.

Lemma in_range_seq lo len n :
  Z.of_nat lo <= n < Z.of_nat (lo + len) -> In n (map Z.of_nat (seq lo len)).
Proof.
  intros H. apply in_map_iff. exists (Z.to_nat n).
  split; [lia | apply in_seq; lia].
Qed.

Lemma day_text n :
  1 <= n <= 31 -> lang strptime.re_d (zfill 2 n) /\ py_int (zfill 2 n) = Some n.
Proof.
  intros Hn. apply reads_as_sound.
  assert (Hall : forallb (fun n => reads_as strptime.re_d n (zfill 2 n))
                   (map Z.of_nat (seq 1 31)) = true)
    by (vm_compute; reflexivity).
  rewrite forallb_forall in Hall. apply Hall, in_range_seq. lia.
Qed.

Lemma month_text n :
  1 <= n <= 12 -> lang strptime.re_m (zfill 2 n) /\ py_int (zfill 2 n) = Some n.
Proof.
  intros Hn. apply reads_as_sound.
  assert (Hall : forallb (fun n => reads_as strptime.re_m n (zfill 2 n))
                   (map Z.of_nat (seq 1 12)) = true)
    by (vm_compute; reflexivity).
  rewrite forallb_forall in Hall. apply Hall, in_range_seq. lia.
Qed.

Lemma year_text n :
  1000 <= n <= 9999 ->
  lang strptime.re_Y (str_of_int n) /\ py_int (str_of_int n) = Some n.
Proof.
  intros Hn. apply reads_as_sound.
  assert (Hall : forallb (fun n => reads_as strptime.re_Y n (str_of_int n))
                   (map Z.of_nat (seq 1000 (Z.to_nat 9000))) = true)
    by (vm_compute; reflexivity).
  rewrite forallb_forall in Hall. apply Hall, in_range_seq. lia.
Qed.

(** [strptime] reads back what [strftime] writes, from the year 1000 on,
    where the year has its four digits. *)
Lemma parse_strftime dt :
  valid dt -> 1000 <= year dt -> strptime.parse (strftime_dmY dt) = Ok dt.
Proof.
  intros Hv H1000. apply parse_spec.
  destruct Hv as (Hy & Hm & Hd).
  pose proof (days_in_month_bounds (year dt) (month dt) Hm) as Hdim.
  destruct (day_text (day dt) ltac:(lia)) as [Ld Id].
  destruct (month_text (month dt) Hm) as [Lm Im].
  destruct (year_text (year dt)
              ltac:(unfold MAXYEAR in Hy; lia)) as [Ly Iy].
  exists (zfill 2 (day dt)), (zfill 2 (month dt)), (str_of_int (year dt)).
  split; [reflexivity|]. unfold valid. auto 10.
Qed.

(** Before the year 1000 the year is written with fewer digits, and
    [Birthday] refuses the text. *)
Example short_year_refused :
  strftime_dmY (Date 999 6 17) = lit "17.06.999"
  /\ is_ok (Birthday.init (lit "17.06.999")) = false.
Proof. split; reflexivity. Qed.

End ReportedDates.

Section QueryResults.

Import datetime.
Variable today : date.

Lemma entries_of_cases record :
  entries_of today record = []
  \/ exists b bday occ,
       ContactRecord.birthday record = Some b
       /\ strptime.parse (Field.value b) = Ok bday
       /\ AddressBook.occurrence today bday = Ok occ
       /\ in_window today occ = true
       /\ entries_of today record
          = [AddressBook.Entry (record_name record)
               (strftime_dmY (claimed_congratulation occ))].
Proof.
  unfold entries_of.
  destruct (ContactRecord.birthday record) as [b|] eqn:Hb;
    [|rewrite (produced_no_birthday _ _ Hb); left; reflexivity].
  destruct (strptime.parse (Field.value b)) as [bday|ep] eqn:Hp;
    [|rewrite (produced_parse_raise _ _ _ _ Hb Hp); left; reflexivity].
  destruct (AddressBook.occurrence today bday) as [occ|eo] eqn:Ho;
    [|rewrite (produced_occurrence_raise _ _ _ _ _ Hb Hp Ho); left;
      reflexivity].
  rewrite (produced_occurrence_ok _ _ _ _ _ Hb Hp Ho).
  destruct (in_window today occ) eqn:Hw; [|left; reflexivity].
  right. exists b, bday, occ. auto 10.
Qed.

Lemma weekday_range dt : 0 <= weekday dt <= 6.
Proof. unfold weekday. Z.div_mod_to_equations. lia. Qed.

Lemma year_not_before a b :
  valid a -> valid b -> 0 <= sub_days b a -> year a <= year b.
Proof.
  intros Ha Hb H. apply (year_toordinal a b Ha Hb).
  unfold sub_days in H. lia.
Qed.

(** X10.  Every date in a result of the query is a working day, Monday to
    Friday, between [today] and nine days after it.  With a clock in the
    year 1000 or later it is written DD.MM.YYYY, so that [strptime] reads
    it back: [Birthday] takes the text.  (Before the year 1000 the year is
    written with fewer than four digits.) *)
Theorem reported_dates (book : AddressBook.t) (res : list AddressBook.entry) :
  valid today -> 1000 <= year today ->
  AddressBook.get_upcoming_birthdays today book = Ok res ->
  forall u, In u res ->
    exists dt,
      valid dt
      /\ AddressBook.birthday u = strftime_dmY dt
      /\ 0 <= weekday dt <= 4
      /\ 0 <= sub_days dt today <= 9
      /\ strptime.parse (AddressBook.birthday u) = Ok dt
      /\ Birthday.init (AddressBook.birthday u)
         = Ok (Field.init (AddressBook.birthday u)).
Proof.
  intros Htoday H1000 Hres u Hu. apply loop_inv in Hres as [_ ->].
  simpl in Hu.
  apply in_flat_map in Hu as (record & _ & Hu).
  destruct (entries_of_cases record)
    as [Hnil|(b & bday & occ & _ & _ & Ho & Hw & Hone)];
    [rewrite Hnil in Hu; destruct Hu|].
  rewrite Hone in Hu. destruct Hu as [<-|[]]. cbn [AddressBook.birthday].
  apply occurrence_inv in Ho as [_ Hv].
  apply in_window_spec in Hw.
  destruct (claimed_congratulation_spec occ Hv) as (H5 & H6 & Hother).
  pose proof (weekday_range occ) as Hrange.
  assert (Hcc : valid (claimed_congratulation occ)
                /\ 0 <= weekday (claimed_congratulation occ) <= 4
                /\ 0 <= sub_days (claimed_congratulation occ) today <= 9).
  { unfold sub_days in *.
    destruct (Z.eq_dec (weekday occ) 5) as [E5|N5].
    { destruct (H5 E5) as (Ho & Hw0 & Hv'). rewrite Ho, Hw0.
      split; [exact Hv' | lia]. }
    destruct (Z.eq_dec (weekday occ) 6) as [E6|N6].
    { destruct (H6 E6) as (Ho & Hw0 & Hv'). rewrite Ho, Hw0.
      split; [exact Hv' | lia]. }
    rewrite (Hother N5 N6). split; [exact Hv | lia]. }
  destruct Hcc as (Hvc & Hwc & Hdc).
  exists (claimed_congratulation occ).
  assert (Hyc : 1000 <= year (claimed_congratulation occ)).
  { apply Z.le_trans with (year today); [exact H1000|].
    exact (year_not_before _ _ Htoday Hvc (proj1 Hdc)). }
  pose proof (parse_strftime _ Hvc Hyc) as Hparse.
  split; [exact Hvc|]. split; [reflexivity|]. split; [exact Hwc|].
  split; [exact Hdc|]. split; [exact Hparse|].
  unfold Birthday.init. rewrite Hparse. reflexivity.
Qed.

End QueryResults.

Lemma reported_dates_witness :
  exists dt,
    datetime.valid dt
    /\ lit "17.06.2024" = datetime.strftime_dmY dt
    /\ 0 <= datetime.weekday dt <= 4
    /\ 0 <= datetime.sub_days dt (datetime.Date 2024 6 15) <= 9
    /\ strptime.parse (lit "17.06.2024") = Ok dt
    /\ Birthday.init (lit "17.06.2024") = Ok (Field.init (lit "17.06.2024")).
Proof.
  assert (Hv : datetime.valid (datetime.Date 2024 6 15))
    by (unfold datetime.valid; simpl; vm_compute; intuition discriminate).
  assert (Hy : 1000 <= datetime.year (datetime.Date 2024 6 15))
    by (simpl; lia).
  apply (reported_dates (datetime.Date 2024 6 15)
           [with_birthday "Bob" "16.06.2024"]
           [AddressBook.Entry (lit "Bob") (lit "17.06.2024")] Hv Hy eq_refl
           (AddressBook.Entry (lit "Bob") (lit "17.06.2024"))).
  left. reflexivity.
Defined.


Section QueryOrder.

Variable today : datetime.date.

Lemma entries_sublist records :
  sublist (map AddressBook.name (flat_map (entries_of today) records))
          (map record_name records).
Proof.
  induction records as [|r records IH]; simpl; [constructor|].
  destruct (entries_of_cases today r)
    as [->|(b & bday & occ & _ & _ & _ & _ & ->)]; simpl.
  - apply sublist_cons, IH.
  - apply sublist_skip, IH.
Qed.

Lemma entries_length records :
  (length (flat_map (entries_of today) records) <= length records)%nat.
Proof.
  induction records as [|r records IH]; simpl; [lia|].
  rewrite length_app.
  destruct (entries_of_cases today r)
    as [->|(b & bday & occ & _ & _ & _ & _ & ->)]; simpl; lia.
Qed.

(** X11.  A result of the query lists the records in the order of the
    book, each at most once, and only records that have a birthday; the
    empty book gives the empty list. *)
Theorem upcoming_order (book : AddressBook.t) (res : list AddressBook.entry) :
  AddressBook.get_upcoming_birthdays today book = Ok res ->
  sublist (map AddressBook.name res)
          (map record_name (AddressBook.values book))
  /\ (length res <= length book)%nat
  /\ (forall u, In u res ->
        exists record b,
          In record (AddressBook.values book)
          /\ ContactRecord.birthday record = Some b
          /\ AddressBook.name u = record_name record)
  /\ AddressBook.get_upcoming_birthdays today [] = Ok [].
Proof.
  intros Hres. apply loop_inv in Hres as [_ ->]. simpl.
  split; [apply entries_sublist|]. split.
  { etransitivity; [apply entries_length|].
    unfold AddressBook.values. rewrite length_map. reflexivity. }
  split; [|reflexivity].
  intros u Hu. apply in_flat_map in Hu as (record & Hin & Hu).
  destruct (entries_of_cases today record)
    as [Hnil|(b & bday & occ & Hb & _ & _ & _ & Hone)];
    [rewrite Hnil in Hu; destruct Hu|].
  rewrite Hone in Hu. destruct Hu as [<-|[]].
  exists record, b. auto.
Qed.

End QueryOrder.

Lemma upcoming_order_witness :
  sublist (map AddressBook.name [AddressBook.Entry (lit "Eve") (lit "24.06.2024")])
          (map record_name
             (AddressBook.values
                [with_birthday "Eve" "22.06.1985";
                 with_birthday "Dan" "23.07.1985"]))
  /\ (length [AddressBook.Entry (lit "Eve") (lit "24.06.2024")]
      <= length [with_birthday "Eve" "22.06.1985";
                 with_birthday "Dan" "23.07.1985"])%nat
  /\ (forall u, In u [AddressBook.Entry (lit "Eve") (lit "24.06.2024")] ->
        exists record b,
          In record
            (AddressBook.values
               [with_birthday "Eve" "22.06.1985";
                with_birthday "Dan" "23.07.1985"])
          /\ ContactRecord.birthday record = Some b
          /\ AddressBook.name u = record_name record)
  /\ AddressBook.get_upcoming_birthdays (datetime.Date 2024 6 15) [] = Ok [].
Proof.
  apply (upcoming_order (datetime.Date 2024 6 15)
           [with_birthday "Eve" "22.06.1985"; with_birthday "Dan" "23.07.1985"]).
  reflexivity.
Defined.

(** ** When the query fails *)

(** X12.  With a clock before the year 9999 and a book whose birthdays
    are texts [Birthday] has taken, the query returns unless the book has a
    February 29: it raises exactly when the year of [today] is not a leap
    year, or [today] is after the 29th of February of a leap year. *)
Theorem query_fails_only_on_feb29 (today : datetime.date)
    (book : AddressBook.t) :
  datetime.valid today -> datetime.year today < datetime.MAXYEAR ->
  birthdays_inv book ->
  ((exists res, AddressBook.get_upcoming_birthdays today book = Ok res)
   <-> forall record b bday,
         In record (AddressBook.values book) ->
         ContactRecord.birthday record = Some b ->
         strptime.parse (Field.value b) = Ok bday ->
         feb29 bday ->
         datetime.is_leap (datetime.year today) = true
         /\ datetime.ltb (datetime.Date (datetime.year today) 2 29) today
            = false).
Proof.
  intros Htoday Hyear Hinv. split.
  - intros [res Hres] record b bday Hin Hb Hp.
    apply loop_inv in Hres as [Hall _].
    rewrite List.Forall_forall in Hall.
    destruct (entries_of_spec today record b bday (Hall _ Hin) Hb Hp)
      as (occ & Ho & _).
    apply (occurrence_ok_iff today Htoday Hyear bday).
    + apply parse_spec in Hp. eapply date_text_valid, Hp.
    + exists occ. exact Ho.
  - intros Hfeb. apply get_upcoming_birthdays_total.
    apply List.Forall_forall. intros record Hin b Hb.
    unfold AddressBook.values in Hin. apply in_map_iff in Hin as (kr & <- & Hkr).
    unfold birthdays_inv in Hinv. rewrite List.Forall_forall in Hinv.
    destruct (Hinv kr Hkr b Hb) as [bday Hdt].
    pose proof (proj2 (parse_spec _ _) Hdt) as Hp.
    exists bday.
    destruct (proj2 (occurrence_ok_iff today Htoday Hyear bday
                       (date_text_valid _ _ Hdt))) as [occ Ho].
    + apply (Hfeb (snd kr) b bday); [|exact Hb|exact Hp].
      apply in_map. exact Hkr.
    + exists occ. split; assumption.
Qed.

Lemma query_fails_only_on_feb29_witness :
  (exists res,
     AddressBook.get_upcoming_birthdays (datetime.Date 2024 2 10)
       [with_birthday "Bob" "29.02.2000"] = Ok res)
  <-> forall record b bday,
        In record (AddressBook.values [with_birthday "Bob" "29.02.2000"]) ->
        ContactRecord.birthday record = Some b ->
        strptime.parse (Field.value b) = Ok bday ->
        feb29 bday ->
        datetime.is_leap (datetime.year (datetime.Date 2024 2 10)) = true
        /\ datetime.ltb
             (datetime.Date (datetime.year (datetime.Date 2024 2 10)) 2 29)
             (datetime.Date 2024 2 10)
           = false.
Proof.
  apply (query_fails_only_on_feb29 (datetime.Date 2024 2 10)
           [with_birthday "Bob" "29.02.2000"]).
  - unfold datetime.valid. simpl. vm_compute. intuition discriminate.
  - reflexivity.
  - constructor; [|constructor]. intros b [= <-].
    exists (datetime.Date 2000 2 29). apply parse_spec. reflexivity.
Defined.

(** ** The handlers on a book whose records are filed under their names *)

Section HandlerResults.

Import AddressBook.
Variable book : AddressBook.t.
Hypothesis Hkeyed : keyed_by_name book.

Lemma on_record_found {A} name record (method : M ContactRecord.t A) :
  getitem name book = Some record ->
  on_record record method book
  = (fst (method record), setitem name (snd (method record)) book).
Proof.
  intros Hget. unfold on_record.
  fold (record_name record). rewrite (keyed_getitem _ _ _ Hkeyed Hget).
  destruct (method record); reflexivity.
Qed.

Lemma on_record_unchanged {A} name record (method : M ContactRecord.t A) :
  getitem name book = Some record ->
  snd (method record) = record ->
  on_record record method book = (fst (method record), book).
Proof.
  intros Hget Hsame. rewrite (on_record_found name record method Hget).
  rewrite Hsame, (setitem_same _ _ _ Hget). reflexivity.
Qed.

(** X13.  [add_contact] with a phone the validator takes: for a name the
    book does not have it answers "Contact added." and puts a record with
    that one phone last; for a name it has it answers "Contact updated."
    and appends the phone to the record, whose earlier phones, birthday and
    position are kept, as are all other records. *)
Theorem add_contact_valid (name phone : pystr) :
  ten_digits phone ->
  (getitem name book = None ->
   add_contact [name; phone] book
   = (Ok (lit "Contact added."),
      book ++ [(name, ContactRecord.mk (Name.init name) [Field.init phone]
                        None)]))
  /\ (forall record, getitem name book = Some record ->
        fst (add_contact [name; phone] book) = Ok (lit "Contact updated.")
        /\ getitem name (snd (add_contact [name; phone] book))
           = Some (ContactRecord.mk (ContactRecord.name record)
                     (ContactRecord.phones record ++ [Field.init phone])
                     (ContactRecord.birthday record))
        /\ map fst (snd (add_contact [name; phone] book)) = map fst book
        /\ (forall other, other <> name ->
              getitem other (snd (add_contact [name; phone] book))
              = getitem other book)).
Proof.
  intros Hd. split.
  - intros Hget.
    unfold add_contact, input_error, add_contact_body, bind, lift. simpl.
    unfold find. rewrite Hget.
    unfold add_record, modify, on_record, ContactRecord.add_phone, bind, lift,
      modify.
    rewrite (Phone_init_ok _ Hd). simpl.
    rewrite (setitem_fresh _ _ _ Hget), (setitem_last _ _ _ _ Hget).
    reflexivity.
  - intros record Hget.
    unfold add_contact, input_error, add_contact_body, bind, lift. simpl.
    unfold find. rewrite Hget.
    rewrite (on_record_found name record _ Hget).
    unfold ContactRecord.add_phone, bind, lift, modify.
    rewrite (Phone_init_ok _ Hd). simpl.
    split; [reflexivity|]. split; [apply getitem_setitem_eq|].
    split; [rewrite keys_setitem, Hget; reflexivity|].
    intros other Hne. apply getitem_setitem_ne, Hne.
Qed.

(** X14.  [add_contact] with a phone the validator refuses, for a name the
    book has: it answers the validator's message and the book is
    unchanged. *)
Theorem add_contact_existing_invalid (name phone : pystr)
    (record : ContactRecord.t) :
  getitem name book = Some record -> ~ ten_digits phone ->
  add_contact [name; phone] book = (Ok Phone.error, book).
Proof.
  intros Hget Hd.
  unfold add_contact, input_error, add_contact_body, bind, lift. simpl.
  unfold find. rewrite Hget.
  rewrite (on_record_unchanged name record _ Hget);
    unfold ContactRecord.add_phone, bind, lift;
    rewrite (Phone_init_raise _ Hd); reflexivity.
Qed.

(** X15.  [change_contact]: "Contact not found." for a name the book does
    not have, "Phone not found" when the record has no phone of the old
    value, the validator's message when the new value is refused, the book
    unchanged in the three cases; otherwise "Phone updated.", the record
    edited and every other record kept. *)
Theorem change_contact_spec (name old_phone new_phone : pystr) :
  (getitem name book = None ->
   change_contact [name; old_phone; new_phone] book
   = (Ok contact_not_found, book))
  /\ (forall record, getitem name book = Some record ->
        (ContactRecord.find_phone record old_phone = None ->
         change_contact [name; old_phone; new_phone] book
         = (Ok ContactRecord.not_found, book))
        /\ (ContactRecord.find_phone record old_phone <> None ->
            ~ ten_digits new_phone ->
            change_contact [name; old_phone; new_phone] book
            = (Ok Phone.error, book))
        /\ (ContactRecord.find_phone record old_phone <> None ->
            ten_digits new_phone ->
            fst (change_contact [name; old_phone; new_phone] book)
            = Ok (lit "Phone updated.")
            /\ getitem name
                 (snd (change_contact [name; old_phone; new_phone] book))
               = Some (snd (ContactRecord.edit_phone old_phone new_phone
                              record))
            /\ (forall other, other <> name ->
                  getitem other
                    (snd (change_contact [name; old_phone; new_phone] book))
                  = getitem other book))).
Proof.
  split.
  - intros Hget.
    unfold change_contact, input_error, change_contact_body, bind, lift.
    simpl. unfold find. rewrite Hget. reflexivity.
  - intros record Hget.
    assert (Hrun : change_contact [name; old_phone; new_phone] book
              = match on_record record
                        (ContactRecord.edit_phone old_phone new_phone) book with
                | (Ok _, book') => (Ok (lit "Phone updated."), book')
                | (Raise (ValueError e), book') => (Ok e, book')
                | (Raise IndexError, book') => (Ok not_enough_arguments, book')
                | (Raise KeyError, book') => (Ok contact_not_found, book')
                | (Raise e, book') => (Raise e, book')
                end).
    { unfold change_contact, input_error, change_contact_body, bind, lift.
      simpl. unfold find. rewrite Hget.
      destruct (on_record record _ book) as [[u|[msg| | |msg]] book'];
        reflexivity. }
    rewrite Hrun. clear Hrun.
    destruct (first_match old_phone (ContactRecord.phones record))
      as [Hno|(pre & p & post & Hphones & Hp & Hpre)].
    + pose proof (proj2 (find_phone_loop_None _ _) Hno) as Hnone.
      split; [|split]; try (intros Hsome; contradiction).
      intros _. rewrite (on_record_unchanged name record _ Hget);
        unfold ContactRecord.edit_phone;
        rewrite (edit_phone_loop_absent _ _ _ _ _ Hno); reflexivity.
    + assert (Hsome : ContactRecord.find_phone record old_phone = Some p)
        by (apply find_phone_loop_Some; exists pre, post; auto).
      split; [intros Hnone; congruence|].
      assert (Hedit : ContactRecord.edit_phone old_phone new_phone record
                = match Phone.init new_phone with
                  | Ok q =>
                      (Ok tt,
                       ContactRecord.set_phones
                         (<[(0 + length pre)%nat := q]>
                            (ContactRecord.phones record)) record)
                  | Raise e => (Raise e, record)
                  end).
      { unfold ContactRecord.edit_phone. rewrite Hphones at 1.
        apply edit_phone_loop_found; assumption. }
      split; intros _ Hd.
      * rewrite (on_record_unchanged name record _ Hget);
          rewrite Hedit, (Phone_init_raise _ Hd); reflexivity.
      * rewrite (on_record_found name record _ Hget).
        rewrite Hedit, (Phone_init_ok _ Hd). simpl.
        split; [reflexivity|]. split; [apply getitem_setitem_eq|].
        intros other Hne. apply getitem_setitem_ne, Hne.
Qed.

End HandlerResults.

Lemma sample_book_keyed : keyed_by_name sample_book.
Proof.
  split; [apply NoDup_singleton|]. constructor; [reflexivity | constructor].
Qed.

Lemma sample_digits : ten_digits (lit "1111111111").
Proof. repeat constructor. Qed.

Lemma sample_not_digits : ~ ten_digits (lit "123").
Proof. intros [H _]. discriminate H. Qed.

Lemma add_contact_valid_witness :
  (AddressBook.getitem (lit "Ann") sample_book = None ->
   add_contact [lit "Ann"; lit "1111111111"] sample_book
   = (Ok (lit "Contact added."),
      sample_book
      ++ [(lit "Ann",
           ContactRecord.mk (Name.init (lit "Ann"))
             [Field.init (lit "1111111111")] None)]))
  /\ (forall record,
        AddressBook.getitem (lit "Ann") sample_book = Some record ->
        fst (add_contact [lit "Ann"; lit "1111111111"] sample_book)
        = Ok (lit "Contact updated.")
        /\ AddressBook.getitem (lit "Ann")
             (snd (add_contact [lit "Ann"; lit "1111111111"] sample_book))
           = Some (ContactRecord.mk (ContactRecord.name record)
                     (ContactRecord.phones record
                      ++ [Field.init (lit "1111111111")])
                     (ContactRecord.birthday record))
        /\ map fst (snd (add_contact [lit "Ann"; lit "1111111111"] sample_book))
           = map fst sample_book
        /\ (forall other, other <> lit "Ann" ->
              AddressBook.getitem other
                (snd (add_contact [lit "Ann"; lit "1111111111"] sample_book))
              = AddressBook.getitem other sample_book)).
Proof.
  apply (add_contact_valid sample_book sample_book_keyed (lit "Ann")
           (lit "1111111111") sample_digits).
Defined.

Lemma add_contact_existing_invalid_witness :
  add_contact [lit "Ann"; lit "123"] sample_book = (Ok Phone.error, sample_book).
Proof.
  apply (add_contact_existing_invalid sample_book sample_book_keyed
           (lit "Ann") (lit "123") sample_record).
  - reflexivity.
  - exact sample_not_digits.
Defined.

Lemma change_contact_spec_witness :
  change_contact [lit "Ann"; lit "0123456789"; lit "1111111111"] sample_book
  = (Ok (lit "Phone updated."),
     [(lit "Ann",
       ContactRecord.mk (Name.init (lit "Ann")) [Field.init (lit "1111111111")]
         (Some (Field.init (lit "17.06.1990"))))])
  /\ change_contact [lit "Bob"; lit "0123456789"; lit "1111111111"] sample_book
     = (Ok contact_not_found, sample_book).
Proof.
  destruct (change_contact_spec sample_book sample_book_keyed (lit "Bob")
              (lit "0123456789") (lit "1111111111")) as [Hmissing _].
  split; [reflexivity | apply Hmissing; reflexivity].
Defined.

Section ShowHandlers.

Import AddressBook.
Variable book : AddressBook.t.

(** X16.  [show_phone] reads its first token only.  For a name the book
    does not have it answers "Contact not found."; otherwise it answers
    the phones joined by "; ", from which the phones of the record can be
    read back.  The book is unchanged. *)
Theorem show_phone_spec (name : pystr) (rest : list pystr) :
  (getitem name book = None ->
   show_phone (name :: rest) book = (Ok contact_not_found, book))
  /\ (forall record, getitem name book = Some record ->
        show_phone (name :: rest) book
        = (Ok (join (lit "; ")
                 (map Field.value (ContactRecord.phones record))), book)
        /\ (record_inv record ->
            parse_phones
              (join (lit "; ") (map Field.value (ContactRecord.phones record)))
            = ContactRecord.phones record)).
Proof.
  split.
  - intros Hget. unfold show_phone, input_error, show_phone_body, bind, lift.
    simpl. unfold find. rewrite Hget. reflexivity.
  - intros record Hget. split; [|apply parse_phones_join].
    unfold show_phone, input_error, show_phone_body, bind, lift.
    simpl. unfold find. rewrite Hget. reflexivity.
Qed.

Lemma show_birthday_eval name rest :
  show_birthday (name :: rest) book
  = (Ok match getitem name book with
        | Some record =>
            match ContactRecord.birthday record with
            | Some b => Field.value b
            | None => lit "Birthday not set."
            end
        | None => lit "Birthday not set."
        end, book).
Proof.
  unfold show_birthday, input_error, show_birthday_body, bind, lift.
  simpl. unfold find. destruct (getitem name book) as [record|];
    [|reflexivity].
  destruct (ContactRecord.birthday record); reflexivity.
Qed.

(** X18.  On a book whose birthdays [Birthday] has taken, [show_birthday]
    answers "Birthday not set." exactly when the book has no record of
    that name or the record has no birthday; it never answers
    "Contact not found.". *)
Theorem show_birthday_not_set (name : pystr) (rest : list pystr) :
  birthdays_inv book ->
  (fst (show_birthday (name :: rest) book) = Ok (lit "Birthday not set.")
   <-> getitem name book = None
       \/ exists record, getitem name book = Some record
                         /\ ContactRecord.birthday record = None)
  /\ fst (show_birthday (name :: rest) book) <> Ok contact_not_found.
Proof.
  intros Hinv. rewrite show_birthday_eval. simpl.
  destruct (getitem name book) as [record|] eqn:Hget.
  2:{ split; [|discriminate]. split; [auto | reflexivity]. }
  destruct (ContactRecord.birthday record) as [b|] eqn:Hb.
  2:{ split; [|discriminate]. split; [eauto | reflexivity]. }
  assert (Hdt : exists dt, date_text (Field.value b) dt).
  { unfold birthdays_inv in Hinv. rewrite List.Forall_forall in Hinv.
    clear -Hinv Hget Hb. induction book as [|[k r] data IH];
      simpl in Hget; [discriminate|].
    destruct (decide (k = name)).
    - injection Hget as ->. apply (Hinv (k, record)); [left; reflexivity|].
      exact Hb.
    - apply IH; [|exact Hget]. intros kr Hkr. apply Hinv. right. exact Hkr. }
  destruct Hdt as [dt Hdt]. split.
  - split.
    + intros [= E]. rewrite E in Hdt. apply parse_spec in Hdt.
      discriminate Hdt.
    + intros [H|(r & [= <-] & H)]; congruence.
  - intros [= E]. rewrite E in Hdt. apply parse_spec in Hdt.
    discriminate Hdt.
Qed.

End ShowHandlers.

Lemma sample_book_birthdays : birthdays_inv sample_book.
Proof.
  constructor; [|constructor]. intros b [= <-].
  exists (datetime.Date 1990 6 17). apply parse_spec. reflexivity.
Qed.

Lemma show_birthday_not_set_witness :
  (fst (show_birthday [lit "Bob"] sample_book) = Ok (lit "Birthday not set.")
   <-> AddressBook.getitem (lit "Bob") sample_book = None
       \/ exists record,
            AddressBook.getitem (lit "Bob") sample_book = Some record
            /\ ContactRecord.birthday record = None)
  /\ fst (show_birthday [lit "Bob"] sample_book) <> Ok contact_not_found.
Proof.
  apply (show_birthday_not_set sample_book (lit "Bob") []).
  exact sample_book_birthdays.
Defined.

Section BirthdayHandlers.

Import AddressBook.
Variable book : AddressBook.t.
Hypothesis Hkeyed : keyed_by_name book.

(** X17.  [add_birthday]: "Contact not found." for a name the book does
    not have and the validator's message for a text [Birthday] refuses,
    the book unchanged in both cases; for a text it takes, "Birthday
    added.", after which [show_birthday] answers that text, the phones of
    the record and all other records being kept. *)
Theorem add_birthday_then_show (name text : pystr) :
  (getitem name book = None ->
   add_birthday [name; text] book = (Ok contact_not_found, book))
  /\ (forall record, getitem name book = Some record ->
        (~ (exists dt, date_text text dt) ->
         add_birthday [name; text] book = (Ok Birthday.error, book))
        /\ ((exists dt, date_text text dt) ->
            fst (add_birthday [name; text] book) = Ok (lit "Birthday added.")
            /\ fst (show_birthday [name] (snd (add_birthday [name; text] book)))
               = Ok text
            /\ getitem name (snd (add_birthday [name; text] book))
               = Some (ContactRecord.mk (ContactRecord.name record)
                         (ContactRecord.phones record)
                         (Some (Field.init text)))
            /\ (forall other, other <> name ->
                  getitem other (snd (add_birthday [name; text] book))
                  = getitem other book))).
Proof.
  split.
  - intros Hget. unfold add_birthday, input_error, add_birthday_body, bind,
      lift. simpl. unfold find. rewrite Hget. reflexivity.
  - intros record Hget. split.
    + intros Hn.
      unfold add_birthday, input_error, add_birthday_body, bind, lift. simpl.
      unfold find. rewrite Hget.
      assert (Hr : ContactRecord.add_birthday text record
                   = (Raise (ValueError Birthday.error), record)).
      { unfold ContactRecord.add_birthday, bind, lift.
        destruct (Birthday_init_cases text) as [(dt & Hp & _)|[_ ->]];
          [|reflexivity].
        exfalso. apply Hn. exists dt. apply parse_spec, Hp. }
      rewrite (on_record_unchanged book Hkeyed name record _ Hget);
        rewrite Hr; reflexivity.
    + intros [dt Hdt].
      assert (Hr : ContactRecord.add_birthday text record
                   = (Ok tt, ContactRecord.mk (ContactRecord.name record)
                               (ContactRecord.phones record)
                               (Some (Field.init text)))).
      { unfold ContactRecord.add_birthday, bind, lift, modify.
        rewrite (Birthday_init_ok _ _ Hdt). reflexivity. }
      assert (Hrun : add_birthday [name; text] book
                = (Ok (lit "Birthday added."),
                   setitem name
                     (ContactRecord.mk (ContactRecord.name record)
                        (ContactRecord.phones record)
                        (Some (Field.init text))) book)).
      { unfold add_birthday, input_error, add_birthday_body, bind, lift.
        simpl. unfold find. rewrite Hget.
        rewrite (on_record_found book Hkeyed name record _ Hget), Hr.
        reflexivity. }
      rewrite Hrun. simpl.
      split; [reflexivity|]. split.
      { rewrite show_birthday_eval. simpl. rewrite getitem_setitem_eq.
        reflexivity. }
      split; [apply getitem_setitem_eq|].
      intros other Hne. apply getitem_setitem_ne, Hne.
Qed.

End BirthdayHandlers.

Lemma add_birthday_then_show_witness :
  fst (add_birthday [lit "Ann"; lit "1.1.2024"] sample_book)
  = Ok (lit "Birthday added.")
  /\ fst (show_birthday [lit "Ann"]
            (snd (add_birthday [lit "Ann"; lit "1.1.2024"] sample_book)))
     = Ok (lit "1.1.2024").
Proof.
  destruct (add_birthday_then_show sample_book sample_book_keyed (lit "Ann")
              (lit "1.1.2024")) as [_ Hfound].
  destruct (Hfound sample_record eq_refl) as [_ Hvalid].
  destruct Hvalid as (H1 & H2 & _).
  - exists (datetime.Date 2024 1 1). apply parse_spec. reflexivity.
  - split; assumption.
Defined.

(** ** The decorator catches what the handlers raise *)

Section NeverRaise.

Import AddressBook.

Lemma input_error_ok {S A} (func : A -> M S pystr) args (s : S) :
  (forall e s', func args s = (Raise e, s') -> caught e) ->
  exists text, fst (input_error func args s) = Ok text.
Proof.
  intros H. unfold input_error.
  destruct (func args s) as [[r|[msg| | |msg]] s'] eqn:E; simpl; eauto.
  destruct (H _ _ eq_refl).
Qed.

Lemma unpack_error_caught n args : caught (unpack_error n args).
Proof. unfold unpack_error. destruct (length args <? n)%nat; exact I. Qed.

Lemma unpack2_caught args e : unpack2 args = Raise e -> caught e.
Proof.
  destruct (unpack2_cases args) as [(a & b & _ & ->)| ->];
    [discriminate|]. intros [= <-]. apply unpack_error_caught.
Qed.

Lemma unpack3_caught args e : unpack3 args = Raise e -> caught e.
Proof.
  destruct (unpack3_cases args) as [(a & b & c & _ & ->)| ->];
    [discriminate|]. intros [= <-]. apply unpack_error_caught.
Qed.

Lemma Phone_init_caught phone e : Phone.init phone = Raise e -> caught e.
Proof.
  destruct (Phone_init_cases phone) as [->| ->]; [discriminate|].
  intros [= <-]. exact I.
Qed.

Lemma Birthday_init_caught text e : Birthday.init text = Raise e -> caught e.
Proof.
  destruct (Birthday_init_cases text) as [(dt & _ & ->)|[_ ->]];
    [discriminate|]. intros [= <-]. exact I.
Qed.

Lemma add_phone_caught phone self e self' :
  ContactRecord.add_phone phone self = (Raise e, self') -> caught e.
Proof.
  unfold ContactRecord.add_phone, bind, lift, modify.
  destruct (Phone.init phone) eqn:Hp; [discriminate|].
  intros [= <- _]. eapply Phone_init_caught, Hp.
Qed.

Lemma edit_phone_caught old_phone new_phone self e self' :
  ContactRecord.edit_phone old_phone new_phone self = (Raise e, self') ->
  caught e.
Proof.
  unfold ContactRecord.edit_phone. generalize 0%nat.
  induction (ContactRecord.phones self) as [|p rest IH]; intros i; simpl.
  - intros [= <- _]. exact I.
  - destruct (decide (Field.value p = old_phone)) as [_|_]; [|apply IH].
    unfold bind, lift, modify.
    destruct (Phone.init new_phone) eqn:Hp; [discriminate|].
    intros [= <- _]. eapply Phone_init_caught, Hp.
Qed.

Lemma add_birthday_caught text self e self' :
  ContactRecord.add_birthday text self = (Raise e, self') -> caught e.
Proof.
  unfold ContactRecord.add_birthday, bind, lift, modify.
  destruct (Birthday.init text) eqn:Hb; [discriminate|].
  intros [= <- _]. eapply Birthday_init_caught, Hb.
Qed.

Lemma on_record_caught {A} record (method : M ContactRecord.t A) book e book' :
  (forall e' r', method record = (Raise e', r') -> caught e') ->
  on_record record method book = (Raise e, book') -> caught e.
Proof.
  intros H. unfold on_record. destruct (method record) as [[a|e0] r'] eqn:E;
    [discriminate|].
  intros [= <- _]. eapply H. reflexivity.
Qed.

Lemma loop_raise_inv today records res e :
  loop today records res = Raise e ->
  exists r, In r records /\ produced today r = Raise e.
Proof.
  revert res. induction records as [|x records IH]; intros res; simpl;
    [discriminate|].
  rewrite visit_produced.
  destruct (produced today x) as [es|ex] eqn:Hx; simpl.
  - intros H. apply IH in H as (r & Hin & Hr). exists r. auto.
  - intros [= <-]. exists x. auto.
Qed.

Lemma get_upcoming_birthdays_caught today book e :
  get_upcoming_birthdays today book = Raise e -> caught e.
Proof.
  intros H. apply loop_raise_inv in H as (r & _ & Hr).
  apply produced_raise in Hr as (msg & c & -> & _). exact I.
Qed.

Lemma add_contact_body_caught args book e book' :
  add_contact_body args book = (Raise e, book') -> caught e.
Proof.
  unfold add_contact_body, bind, lift.
  destruct (unpack2 args) as [[name phone]|e0] eqn:Hu;
    [|intros [= <- _]; eapply unpack2_caught, Hu].
  unfold find. destruct (getitem name book) as [record|].
  - destruct (on_record record _ book) as [[u|e0] b1] eqn:Ho;
      [discriminate|].
    intros [= <- _]. eapply on_record_caught; [|exact Ho].
    intros e' r'. apply add_phone_caught.
  - unfold add_record, modify.
    destruct (on_record _ _ _) as [[u|e0] b1] eqn:Ho; [discriminate|].
    intros [= <- _]. eapply on_record_caught; [|exact Ho].
    intros e' r'. apply add_phone_caught.
Qed.

Lemma change_contact_body_caught args book e book' :
  change_contact_body args book = (Raise e, book') -> caught e.
Proof.
  unfold change_contact_body, bind, lift.
  destruct (unpack3 args) as [[[name old] new]|e0] eqn:Hu;
    [|intros [= <- _]; eapply unpack3_caught, Hu].
  unfold find. destruct (getitem name book) as [record|];
    [|intros [= <- _]; exact I].
  destruct (on_record record _ book) as [[u|e0] b1] eqn:Ho; [discriminate|].
  intros [= <- _]. eapply on_record_caught; [|exact Ho].
  intros e' r'. apply edit_phone_caught.
Qed.

Lemma show_phone_body_caught args book e book' :
  show_phone_body args book = (Raise e, book') -> caught e.
Proof.
  unfold show_phone_body, bind, lift.
  destruct args as [|name rest]; simpl; [intros [= <- _]; exact I|].
  unfold find. destruct (getitem name book); [discriminate|].
  intros [= <- _]. exact I.
Qed.

Lemma show_all_body_caught args book e book' :
  show_all_body args book = (Raise e, book') -> caught e.
Proof. unfold show_all_body, bind, get. destruct book; discriminate. Qed.

Lemma add_birthday_body_caught args book e book' :
  add_birthday_body args book = (Raise e, book') -> caught e.
Proof.
  unfold add_birthday_body, bind, lift.
  destruct (unpack2 args) as [[name text]|e0] eqn:Hu;
    [|intros [= <- _]; eapply unpack2_caught, Hu].
  unfold find. destruct (getitem name book) as [record|];
    [|intros [= <- _]; exact I].
  destruct (on_record record _ book) as [[u|e0] b1] eqn:Ho; [discriminate|].
  intros [= <- _]. eapply on_record_caught; [|exact Ho].
  intros e' r'. apply add_birthday_caught.
Qed.

Lemma show_birthday_body_caught args book e book' :
  show_birthday_body args book = (Raise e, book') -> caught e.
Proof.
  unfold show_birthday_body, bind, lift.
  destruct args as [|name rest]; simpl; [intros [= <- _]; exact I|].
  unfold find. destruct (getitem name book) as [record|]; [|discriminate].
  destruct (ContactRecord.birthday record); discriminate.
Qed.

Lemma birthdays_body_caught today args book e book' :
  birthdays_body today args book = (Raise e, book') -> caught e.
Proof.
  unfold birthdays_body, bind, get, lift.
  destruct (get_upcoming_birthdays today book) as [[|u l]|e0] eqn:Hq;
    try discriminate.
  intros [= <- _]. eapply get_upcoming_birthdays_caught, Hq.
Qed.

(** X19.  No handler lets an exception out: whatever the tokens and the
    book, each of the seven returns a text.  (The decorator has a clause
    for everything the handlers can raise; the only other exception of
    the code, the overflow of a date, cannot occur.) *)
Theorem handlers_never_raise (args : list pystr) (book : AddressBook.t)
    (today : datetime.date) :
  (exists text, fst (add_contact args book) = Ok text)
  /\ (exists text, fst (change_contact args book) = Ok text)
  /\ (exists text, fst (show_phone args book) = Ok text)
  /\ (exists text, fst (show_all args book) = Ok text)
  /\ (exists text, fst (add_birthday args book) = Ok text)
  /\ (exists text, fst (show_birthday args book) = Ok text)
  /\ (exists text, fst (birthdays today args book) = Ok text).
Proof.
  repeat split; apply input_error_ok; intros e book'.
  - apply add_contact_body_caught.
  - apply change_contact_body_caught.
  - apply show_phone_body_caught.
  - apply show_all_body_caught.
  - apply add_birthday_body_caught.
  - apply show_birthday_body_caught.
  - apply birthdays_body_caught.
Qed.

(** X20.  The handlers that only answer, [show_phone], [show_all],
    [show_birthday] and [birthdays], leave the book as it is, whatever
    they answer. *)
Theorem show_handlers_read_only (args : list pystr) (book : AddressBook.t)
    (today : datetime.date) :
  snd (show_phone args book) = book
  /\ snd (show_all args book) = book
  /\ snd (show_birthday args book) = book
  /\ snd (birthdays today args book) = book.
Proof.
  split; [apply show_phone_state|]. split; [apply show_all_state|].
  split; [apply show_birthday_state | apply birthdays_state].
Qed.

End NeverRaise.

(** ** The invariants of a book *)

Section BookInvariants.

Import AddressBook.

Lemma birthdays_inv_setitem key record data :
  birthdays_inv data -> birthday_inv record ->
  birthdays_inv (setitem key record data).
Proof.
  unfold birthdays_inv. intros Hd Hr.
  induction data as [|[k r] data IH]; simpl.
  - constructor; [exact Hr | constructor].
  - inversion Hd as [|x l Hx Hl]; subst.
    destruct (decide (k = key)); constructor; auto.
Qed.

Lemma birthdays_inv_delitem key data :
  birthdays_inv data -> birthdays_inv (delitem key data).
Proof.
  unfold birthdays_inv. intros Hd.
  induction data as [|[k r] data IH]; simpl; [constructor|].
  inversion Hd as [|x l Hx Hl]; subst.
  destruct (decide (k = key)); [exact Hl | constructor; auto].
Qed.

Lemma birthdays_inv_getitem key data record :
  birthdays_inv data -> getitem key data = Some record -> birthday_inv record.
Proof.
  unfold birthdays_inv. intros Hd.
  induction data as [|[k r] data IH]; simpl; [discriminate|].
  inversion Hd as [|x l Hx Hl]; subst.
  destruct (decide (k = key)); [intros [= <-]; exact Hx | auto].
Qed.

Lemma birthdays_inv_on_record {A} record (method : M ContactRecord.t A) data :
  birthdays_inv data -> birthday_inv (snd (method record)) ->
  birthdays_inv (snd (on_record record method data)).
Proof.
  intros Hd Hr. unfold on_record.
  destruct (method record) as [res record']. simpl in *.
  apply birthdays_inv_setitem; assumption.
Qed.

Lemma birthday_inv_add_phone phone self :
  birthday_inv self -> birthday_inv (snd (ContactRecord.add_phone phone self)).
Proof.
  unfold ContactRecord.add_phone, bind, lift, modify.
  destruct (Phone.init phone); intros H; exact H.
Qed.

Lemma birthday_inv_edit_phone old_phone new_phone self :
  birthday_inv self ->
  birthday_inv (snd (ContactRecord.edit_phone old_phone new_phone self)).
Proof.
  unfold birthday_inv, ContactRecord.edit_phone.
  rewrite birthday_edit_phone_loop. intros H; exact H.
Qed.

Variable book : AddressBook.t.
Hypothesis Hinv : birthdays_inv book.

Lemma birthdays_inv_add_contact args : birthdays_inv (snd (add_contact args book)).
Proof.
  unfold add_contact. rewrite input_error_state.
  unfold add_contact_body, bind, lift.
  destruct (unpack2_cases args) as [(name & phone & -> & ->)| ->];
    [|exact Hinv].
  unfold find. destruct (getitem name book) as [record|] eqn:Hget.
  - pose proof (birthdays_inv_on_record record (ContactRecord.add_phone phone)
      book Hinv (birthday_inv_add_phone phone record
                   (birthdays_inv_getitem _ _ _ Hinv Hget))) as H.
    destruct (on_record record (ContactRecord.add_phone phone) book)
      as [[u|e] book']; exact H.
  - unfold add_record, modify.
    set (book1 := setitem _ _ book).
    assert (Hnew : birthday_inv (ContactRecord.init name))
      by (intros b [=]).
    assert (H1 : birthdays_inv book1)
      by (apply birthdays_inv_setitem; assumption).
    pose proof (birthdays_inv_on_record (ContactRecord.init name)
      (ContactRecord.add_phone phone) book1 H1
      (birthday_inv_add_phone phone _ Hnew)) as H.
    destruct (on_record (ContactRecord.init name)
                (ContactRecord.add_phone phone) book1) as [[u|e] book'];
      exact H.
Qed.

Lemma birthdays_inv_change_contact args :
  birthdays_inv (snd (change_contact args book)).
Proof.
  unfold change_contact. rewrite input_error_state.
  unfold change_contact_body, bind, lift.
  destruct (unpack3_cases args) as [(name & old & new & -> & ->)| ->];
    [|exact Hinv].
  unfold find. destruct (getitem name book) as [record|] eqn:Hget;
    [|exact Hinv].
  pose proof (birthdays_inv_on_record record
    (ContactRecord.edit_phone old new) book Hinv
    (birthday_inv_edit_phone old new record
       (birthdays_inv_getitem _ _ _ Hinv Hget))) as H.
  destruct (on_record record (ContactRecord.edit_phone old new) book)
    as [[u|e] book']; exact H.
Qed.

Lemma birthdays_inv_add_birthday args :
  birthdays_inv (snd (add_birthday args book)).
Proof.
  unfold add_birthday. rewrite input_error_state.
  unfold add_birthday_body, bind, lift.
  destruct (unpack2_cases args) as [(name & text & -> & ->)| ->];
    [|exact Hinv].
  unfold find. destruct (getitem name book) as [record|] eqn:Hget;
    [|exact Hinv].
  pose proof (birthdays_inv_on_record record
    (ContactRecord.add_birthday text) book Hinv
    (birthday_inv_add_birthday text record
       (birthdays_inv_getitem _ _ _ Hinv Hget))) as H.
  destruct (on_record record (ContactRecord.add_birthday text) book)
    as [[u|e] book']; exact H.
Qed.

End BookInvariants.

Lemma book_wf_empty : book_wf [].
Proof. split; [apply keyed_empty|]. split; constructor. Qed.

Lemma book_wf_handlers book :
  book_wf book ->
  forall args today,
    book_wf (snd (add_contact args book))
    /\ book_wf (snd (change_contact args book))
    /\ book_wf (snd (show_phone args book))
    /\ book_wf (snd (show_all args book))
    /\ book_wf (snd (add_birthday args book))
    /\ book_wf (snd (show_birthday args book))
    /\ book_wf (snd (birthdays today args book)).
Proof.
  intros (Hk & Hp & Hb) args today.
  rewrite show_phone_state, show_all_state, show_birthday_state,
    birthdays_state.
  assert (Hwf : book_wf book) by (split; [|split]; assumption).
  split; [|split; [|split; [|split; [|split; [|split]]]]]; try exact Hwf.
  - split; [apply keyed_add_contact, Hk|].
    split; [apply book_inv_add_contact, Hp
           | apply birthdays_inv_add_contact, Hb].
  - split; [apply keyed_change_contact, Hk|].
    split; [apply book_inv_change_contact, Hp
           | apply birthdays_inv_change_contact, Hb].
  - split; [apply keyed_add_birthday, Hk|].
    split; [apply book_inv_add_birthday, Hp
           | apply birthdays_inv_add_birthday, Hb].
Qed.

(** X21.  The empty book has, and every handler keeps, the invariants of a
    book: the names of the records are distinct, each record is filed
    under its name, and every stored phone and birthday is a text its
    validator has taken.  So does [add_record] of such a record, and
    [delete]. *)
Theorem handlers_keep_invariants :
  book_wf []
  /\ (forall book, book_wf book ->
        (forall args today,
           book_wf (snd (add_contact args book))
           /\ book_wf (snd (change_contact args book))
           /\ book_wf (snd (show_phone args book))
           /\ book_wf (snd (show_all args book))
           /\ book_wf (snd (add_birthday args book))
           /\ book_wf (snd (show_birthday args book))
           /\ book_wf (snd (birthdays today args book)))
        /\ (forall record, record_inv record -> birthday_inv record ->
              book_wf (snd (AddressBook.add_record record book)))
        /\ (forall name, book_wf (snd (AddressBook.delete name book)))).
Proof.
  split; [apply book_wf_empty|]. intros book Hwf.
  split; [apply book_wf_handlers, Hwf|].
  destruct Hwf as (Hk & Hp & Hb). split.
  - intros record Hr Hbr. unfold AddressBook.add_record, modify. simpl.
    split; [apply keyed_setitem; [exact Hk | reflexivity]|].
    split; [apply book_inv_setitem | apply birthdays_inv_setitem]; assumption.
  - intros name. unfold AddressBook.delete.
    destruct (AddressBook.getitem name book); simpl;
      [|split; [|split]; assumption].
    split; [apply keyed_delitem, Hk|].
    split; [apply book_inv_delitem, Hp | apply birthdays_inv_delitem, Hb].
Qed.

(** ** The listing of the book *)

Section Listing.

Lemma split_on_join_char (c : N) pre p ps :
  ~ In c pre -> Forall (fun q => ~ In c q) (p :: ps) ->
  split_on c (pre ++ join [c] (p :: ps)) = (pre ++ p) :: ps.
Proof.
  revert pre p. induction ps as [|q ps IH]; intros pre p Hpre Hall.
  - simpl. apply split_on_absent. rewrite in_app_iff.
    apply Forall_cons in Hall as [Hp _]. tauto.
  - apply Forall_cons in Hall as [Hp Hall].
    change (join [c] (p :: q :: ps)) with (p ++ c :: join [c] (q :: ps)).
    rewrite app_assoc, split_on_app by (rewrite in_app_iff; tauto).
    f_equal. apply (IH [] q); [intros [] | exact Hall].
Qed.

Lemma str_no_newline r :
  record_inv r -> birthday_inv r -> ~ In 10%N (record_name r) ->
  ~ In 10%N (ContactRecord.str r).
Proof.
  intros Hp Hb Hn. unfold ContactRecord.str. cbv zeta.
  rewrite !in_app_iff. intros [H|[H|[H|[H|[H|H]]]]].
  - revert H. clear. vm_compute. intuition discriminate.
  - exact (Hn H).
  - revert H. clear. vm_compute. intuition discriminate.
  - revert H. apply join_without.
    + clear. vm_compute. intuition discriminate.
    + apply Forall_map. eapply Forall_impl; [exact Hp|].
      intros q Hq. apply ten_digits_without; [reflexivity | exact Hq].
  - revert H. clear. vm_compute. intuition discriminate.
  - destruct (ContactRecord.birthday r) as [b|] eqn:Eb.
    + destruct (Hb b Eb) as [dt Hdt]. revert H.
      eapply date_text_without; [| | | |exact Hdt];
        reflexivity || discriminate.
    + revert H. clear. vm_compute. intuition discriminate.
Qed.

(** X22.  [show_all] answers "No contacts." exactly for the empty book.
    For any other book whose phones and birthdays the validators have
    taken and whose names have no line break, it answers one line a
    record, in the order of the book, and every line is read back to its
    record.  The book is unchanged. *)
Theorem show_all_lines (args : list pystr) (book : AddressBook.t) :
  (fst (show_all args book) = Ok (lit "No contacts.") <-> book = [])
  /\ snd (show_all args book) = book
  /\ (book <> [] -> book_inv book -> birthdays_inv book ->
      Forall (fun kr => ~ In 10%N (record_name (snd kr))) book ->
      exists text,
        fst (show_all args book) = Ok text
        /\ map parse_back (split_on 10 text)
           = map Some (AddressBook.values book)).
Proof.
  split; [|split; [apply show_all_state|]].
  - unfold show_all, input_error, show_all_body, bind, get.
    destruct book as [|[k r] data]; simpl; [tauto|].
    split; [|discriminate]. intros [= H]. exfalso. revert H.
    unfold AddressBook.str, AddressBook.values. simpl map.
    destruct (map ContactRecord.str (map snd data)); simpl;
      unfold ContactRecord.str; cbv zeta;
      change (lit "Contact name: ") with (67%N :: lit "ontact name: ");
      discriminate.
  - intros Hne Hp Hb Hn.
    destruct book as [|[k r] data]; [contradiction|].
    exists (AddressBook.str ((k, r) :: data)).
    split; [reflexivity|].
    unfold AddressBook.str, AddressBook.values.
    change (lit (String "010" EmptyString)) with [10%N].
    set (records := map snd ((k, r) :: data)).
    assert (Hall : Forall (fun x => record_inv x /\ birthday_inv x
                                    /\ ~ In 10%N (record_name x)) records).
    { unfold records, book_inv, birthdays_inv in *.
      rewrite List.Forall_forall in *. intros x Hx.
      apply in_map_iff in Hx as (kr & <- & Hkr). auto. }
    assert (Hsplit : split_on 10 (join [10%N] (map ContactRecord.str records))
                     = map ContactRecord.str records).
    { unfold records. simpl map.
      apply (split_on_join_char 10 [] (ContactRecord.str r)
               (map ContactRecord.str (map snd data))); [intros []|].
      change (ContactRecord.str r :: map ContactRecord.str (map snd data))
        with (map ContactRecord.str records).
      apply Forall_map. eapply Forall_impl; [exact Hall|].
      intros x (H1 & H2 & H3). apply str_no_newline; assumption. }
    rewrite Hsplit, map_map. apply map_ext_in. intros x Hx.
    rewrite List.Forall_forall in Hall.
    destruct (Hall x Hx) as (H1 & H2 & _). apply str_parse_back; assumption.
Qed.

End Listing.

(** ** Splitting a line *)

Section Split.

Lemma split_from_tokens s word :
  match word with Some w => token w | None => True end ->
  Forall token (split_from s word).
Proof.
  revert word. induction s as [|c s IH]; intros word Hw; simpl.
  - destruct word; [constructor; [exact Hw | constructor] | constructor].
  - destruct (isspace c) eqn:Hc.
    + destruct word; [constructor; [exact Hw|]|]; apply IH; exact I.
    + apply IH. destruct word as [w|].
      * destruct Hw as [Hne Hall]. split; [destruct w; discriminate|].
        apply Forall_app. split; [exact Hall|].
        constructor; [exact Hc | constructor].
      * split; [discriminate|]. constructor; [exact Hc | constructor].
Qed.

Lemma split_from_blank s :
  blank s -> forall word,
  split_from s word = match word with Some w => [w] | None => [] end.
Proof.
  induction 1 as [|c s Hc _ IH]; intros word; simpl; [reflexivity|].
  rewrite Hc. destruct word; rewrite IH; reflexivity.
Qed.

Lemma split_from_Some_nonempty s w : split_from s (Some w) <> [].
Proof.
  revert w. induction s as [|c s IH]; intros w; simpl; [discriminate|].
  destruct (isspace c); [discriminate | apply IH].
Qed.

Lemma split_empty_blank s : split s = [] -> blank s.
Proof.
  unfold split, blank. induction s as [|c s IH]; simpl; [constructor|].
  destruct (isspace c) eqn:Hc.
  - intros H. constructor; [exact Hc | apply IH, H].
  - intros H. destruct (split_from_Some_nonempty _ _ H).
Qed.

Lemma split_from_word t s w :
  Forall (fun c => isspace c = false) t ->
  split_from (t ++ s) (Some w) = split_from s (Some (w ++ t)).
Proof.
  intros Ht. revert w. induction Ht as [|c t Hc _ IH]; intros w; simpl.
  - rewrite app_nil_r. reflexivity.
  - rewrite Hc, IH, <- app_assoc. reflexivity.
Qed.

Lemma split_token t s :
  token t -> split_from (t ++ s) None = split_from s (Some t).
Proof.
  intros [Hne Hall]. destruct t as [|c t]; [contradiction|].
  apply Forall_cons in Hall as [Hc Hall]. simpl. rewrite Hc.
  apply (split_from_word t s [c] Hall).
Qed.

Lemma split_from_blank_char s w :
  split_from (32%N :: s) (Some w) = w :: split_from s None.
Proof. reflexivity. Qed.

Lemma split_join tokens :
  Forall token tokens -> split (join [32%N] tokens) = tokens.
Proof.
  unfold split. induction 1 as [|t tokens Ht Hall IH]; [reflexivity|].
  destruct tokens as [|t' tokens].
  - simpl. rewrite <- (app_nil_r t) at 1. rewrite (split_token _ _ Ht).
    reflexivity.
  - change (join [32%N] (t :: t' :: tokens))
      with (t ++ 32%N :: join [32%N] (t' :: tokens)).
    rewrite (split_token _ _ Ht), split_from_blank_char, IH. reflexivity.
Qed.

End Split.

Section ParseInput.

Variable lower : pystr -> pystr.

(** X23.  [parse_input] raises the ValueError of the failed unpacking
    exactly on a line of whitespace only; otherwise the command is the
    first token, lowercased, and the arguments are the other tokens as they
    are: none is empty and none has whitespace.  Tokens joined by blanks
    are split back into the same tokens. *)
Theorem parse_input_spec (line : pystr) :
  (blank line <-> parse_input lower line = Raise unpack_at_least_1)
  /\ (forall command args,
        parse_input lower line = Ok (command, args) ->
        exists cmd, command = lower cmd /\ split line = cmd :: args
                    /\ token cmd /\ Forall token args)
  /\ (forall cmd args,
        Forall token (cmd :: args) ->
        parse_input lower (join [32%N] (cmd :: args)) = Ok (lower cmd, args)).
Proof.
  unfold parse_input. split; [|split].
  - split.
    + intros Hb. unfold split. rewrite (split_from_blank _ Hb). reflexivity.
    + destruct (split line) eqn:Hs; [|discriminate].
      intros _. apply split_empty_blank, Hs.
  - intros command args.
    pose proof (split_from_tokens line None I) as Htok. fold (split line) in Htok.
    destruct (split line) as [|cmd rest]; [discriminate|].
    intros [= <- <-]. apply Forall_cons in Htok as [Hc Hr].
    exists cmd. auto.
  - intros cmd args Hall. rewrite (split_join _ Hall). reflexivity.
Qed.

End ParseInput.

(** ** The command loop *)

Lemma choose_cases command :
  (choose command = Bye /\ (command = lit "close" \/ command = lit "exit"))
  \/ (choose command = Hello /\ command = lit "hello")
  \/ (choose command = Handler add_contact /\ command = lit "add")
  \/ (choose command = Handler change_contact /\ command = lit "change")
  \/ (choose command = Handler show_phone /\ command = lit "phone")
  \/ (choose command = Handler show_all /\ command = lit "all")
  \/ (choose command = Handler add_birthday /\ command = lit "add-birthday")
  \/ (choose command = Handler show_birthday
      /\ command = lit "show-birthday")
  \/ (choose command = Nothing /\ ~ In command command_names).
Proof.
  unfold choose.
  destruct (decide (command = lit "close" \/ command = lit "exit")) as [P1|N1];
    [left; auto|].
  destruct (decide (command = lit "hello")) as [P2|N2]; [right; left; auto|].
  destruct (decide (command = lit "add")) as [P3|N3];
    [do 2 right; left; auto|].
  destruct (decide (command = lit "change")) as [P4|N4];
    [do 3 right; left; auto|].
  destruct (decide (command = lit "phone")) as [P5|N5];
    [do 4 right; left; auto|].
  destruct (decide (command = lit "all")) as [P6|N6];
    [do 5 right; left; auto|].
  destruct (decide (command = lit "add-birthday")) as [P7|N7];
    [do 6 right; left; auto|].
  destruct (decide (command = lit "show-birthday")) as [P8|N8];
    [do 7 right; left; auto|].
  do 8 right. split; [reflexivity|].
  unfold command_names. simpl. intuition congruence.
Qed.

Lemma choose_returns command handler args book :
  choose command = Handler handler ->
  exists text, fst (handler args book) = Ok text.
Proof.
  intros Hc.
  destruct (choose_cases command)
    as [[H _]|[[H _]|[[H _]|[[H _]|[[H _]|[[H _]|[[H _]|[[H _]|[H _]]]]]]]]];
    rewrite H in Hc; try discriminate; injection Hc as <-;
    apply input_error_ok; intros e book'.
  - apply add_contact_body_caught.
  - apply change_contact_body_caught.
  - apply show_phone_body_caught.
  - apply show_all_body_caught.
  - apply add_birthday_body_caught.
  - apply show_birthday_body_caught.
Qed.

Section MainLoop.

Variable lower : pystr -> pystr.

Lemma main_loop_blank line inputs book :
  blank line ->
  main_loop lower (line :: inputs) book = ([prompt], book, Uncaught unpack_at_least_1).
Proof.
  intros Hb. simpl. unfold parse_input, split.
  rewrite (split_from_blank _ Hb). reflexivity.
Qed.

Lemma parse_input_cases line :
  (blank line /\ parse_input lower line = Raise unpack_at_least_1)
  \/ (~ blank line
      /\ exists command args,
           parse_input lower line = Ok (command, args) /\ Forall token args).
Proof.
  unfold parse_input.
  pose proof (split_from_tokens line None I) as Htok. fold (split line) in Htok.
  destruct (split line) as [|cmd rest] eqn:Hs.
  - left. split; [apply split_empty_blank, Hs | reflexivity].
  - right. split.
    + intros Hb. unfold split in Hs. rewrite (split_from_blank _ Hb) in Hs.
      discriminate.
    + apply Forall_cons in Htok as [_ Hr]. eauto.
Qed.

(** X24.  A line whose command, lowercased, is none of the nine names
    [main] has a branch for is passed over: nothing is printed for it and
    the book is unchanged.  [birthdays] is such a command: the handler of
    the query has no branch in [main]. *)
Theorem unknown_commands_ignored (line : pystr) (inputs : list pystr)
    (book : AddressBook.t) (command : pystr) (args : list pystr) :
  parse_input lower line = Ok (command, args) ->
  ~ In command command_names ->
  main_loop lower (line :: inputs) book
  = (prompt :: events_of (main_loop lower inputs book),
     final_book (main_loop lower inputs book),
     ending_of (main_loop lower inputs book))
  /\ ~ In (lit "birthdays") command_names.
Proof.
  intros Hp Hn. split.
  - simpl. rewrite Hp.
    destruct (choose_cases command)
      as [[_ H]|[[_ H]|[[_ H]|[[_ H]|[[_ H]|[[_ H]|[[_ H]|[[_ H]|[H _]]]]]]]]];
      try (exfalso; apply Hn; unfold command_names; simpl;
           intuition congruence).
    rewrite H. destruct (main_loop lower inputs book) as [[events book'] e].
    reflexivity.
  - unfold command_names. simpl. intuition discriminate.
Qed.

(** X25.  [main] is left by an exception only at a line of whitespace
    only, where the unpacking in [parse_input] fails: the exception is that
    ValueError, nothing is printed for the line and no later line is read.
    When no line is blank, [main] returns or comes to the end of the
    input. *)
Theorem main_ending (inputs : list pystr) (book : AddressBook.t) :
  (forall e, ending_of (main_loop lower inputs book) = Uncaught e ->
     e = unpack_at_least_1 /\ exists line, In line inputs /\ blank line)
  /\ (ending_of (main_loop lower inputs book) = EndOfInput ->
      Forall (fun line => ~ blank line) inputs)
  /\ (forall line rest, blank line ->
        main_loop lower (line :: rest) book
        = ([prompt], book, Uncaught unpack_at_least_1)).
Proof.
  split; [|split; [|intros line rest; apply main_loop_blank]].
  - revert book. induction inputs as [|line inputs IH]; intros book e;
      [discriminate|].
    destruct (parse_input_cases line) as [[Hb Hp]|(Hnb & command & args & Hp & _)].
    + rewrite (main_loop_blank _ _ _ Hb). intros [= <-].
      split; [reflexivity|]. exists line. split; [left; reflexivity | exact Hb].
    + assert (Hrest : forall book1,
                ending_of (main_loop lower inputs book1) = Uncaught e ->
                e = unpack_at_least_1
                /\ exists l, In l (line :: inputs) /\ blank l).
      { intros book1 H. destruct (IH book1 e H) as [He (l & Hl & Hbl)].
        split; [exact He|]. exists l. split; [right; exact Hl | exact Hbl]. }
      simpl. rewrite Hp. destruct (choose command) as [| |handler|] eqn:Hc.
      * discriminate.
      * specialize (Hrest book).
        destruct (main_loop lower inputs book) as [[events book'] e'].
        exact Hrest.
      * destruct (choose_returns command handler args book Hc) as [text Ht].
        destruct (handler args book) as [[t|e0] book1]; [|discriminate].
        specialize (Hrest book1).
        destruct (main_loop lower inputs book1) as [[events book'] e'].
        exact Hrest.
      * specialize (Hrest book).
        destruct (main_loop lower inputs book) as [[events book'] e'].
        exact Hrest.
  - revert book. induction inputs as [|line inputs IH]; intros book;
      [constructor|].
    destruct (parse_input_cases line) as [[Hb Hp]|(Hnb & command & args & Hp & _)].
    + rewrite (main_loop_blank _ _ _ Hb). discriminate.
    + simpl. rewrite Hp. destruct (choose command) as [| |handler|] eqn:Hc.
      * discriminate.
      * specialize (IH book).
        destruct (main_loop lower inputs book) as [[events book'] e'].
        intros H. constructor; [exact Hnb | apply IH, H].
      * destruct (handler args book) as [[t|e0] book1]; [|discriminate].
        specialize (IH book1).
        destruct (main_loop lower inputs book1) as [[events book'] e'].
        intros H. constructor; [exact Hnb | apply IH, H].
      * specialize (IH book).
        destruct (main_loop lower inputs book) as [[events book'] e'].
        intros H. constructor; [exact Hnb | apply IH, H].
Qed.

End MainLoop.

Section MainSession.

Variable lower : pystr -> pystr.

Lemma main_loop_exit line inputs book command args :
  parse_input lower line = Ok (command, args) ->
  command = lit "close" \/ command = lit "exit" ->
  main_loop lower (line :: inputs) book
  = ([prompt; Print (lit "Good bye!")], book, Returned).
Proof.
  intros Hp Hc. simpl. rewrite Hp.
  destruct (choose_cases command)
    as [[H _]|[[_ H]|[[_ H]|[[_ H]|[[_ H]|[[_ H]|[[_ H]|[[_ H]|[_ H]]]]]]]]];
    [rewrite H; reflexivity | ..];
    exfalso; destruct Hc as [-> | ->];
    try discriminate H;
    apply H; unfold command_names; simpl; auto.
Qed.

Lemma main_loop_prefix pre rest1 rest2 book :
  (forall b, main_loop lower rest1 b = main_loop lower rest2 b) ->
  main_loop lower (pre ++ rest1) book = main_loop lower (pre ++ rest2) book.
Proof.
  intros Heq. revert book. induction pre as [|line pre IH]; intros book;
    [apply Heq|].
  simpl. destruct (parse_input lower line) as [[command args]|e];
    [|reflexivity].
  destruct (choose command) as [| |handler|]; [reflexivity| | |].
  - rewrite IH. reflexivity.
  - destruct (handler args book) as [[t|e] book1]; [|reflexivity].
    rewrite IH. reflexivity.
  - rewrite IH. reflexivity.
Qed.

Lemma main_loop_returned inputs book :
  ending_of (main_loop lower inputs book) = Returned ->
  last (events_of (main_loop lower inputs book))
  = Some (Print (lit "Good bye!")).
Proof.
  revert book. induction inputs as [|line inputs IH]; intros book;
    [discriminate|].
  simpl. destruct (parse_input lower line) as [[command args]|e];
    [|discriminate].
  destruct (choose command) as [| |handler|]; [reflexivity| | |].
  - specialize (IH book).
    destruct (main_loop lower inputs book) as [[events book'] e'].
    intros H. specialize (IH H). unfold events_of in *. simpl in *.
    destruct events as [|ev events]; [discriminate IH|].
    exact IH.
  - destruct (handler args book) as [[t|e] book1]; [|discriminate].
    specialize (IH book1).
    destruct (main_loop lower inputs book1) as [[events book'] e'].
    intros H. specialize (IH H). unfold events_of in *. simpl in *.
    destruct events as [|ev events]; [discriminate IH|].
    exact IH.
  - specialize (IH book).
    destruct (main_loop lower inputs book) as [[events book'] e'].
    intros H. specialize (IH H). unfold events_of in *. simpl in *.
    destruct events as [|ev events]; [discriminate IH|].
    exact IH.
Qed.

(** X26.  At a line whose command is [close] or [exit], [main] prints
    "Good bye!" and returns: what follows the line is not read.  Whenever
    [main] returns, "Good bye!" is the last thing printed. *)
Theorem main_stops_at_exit (pre : list pystr) (line : pystr)
    (post : list pystr) (book : AddressBook.t) (command : pystr)
    (args : list pystr) :
  parse_input lower line = Ok (command, args) ->
  command = lit "close" \/ command = lit "exit" ->
  main_loop lower (line :: post) book
  = ([prompt; Print (lit "Good bye!")], book, Returned)
  /\ main_loop lower (pre ++ line :: post) book
     = main_loop lower (pre ++ [line]) book
  /\ ending_of (main_loop lower (pre ++ line :: post) book) <> EndOfInput
  /\ (forall inputs,
        ending_of (main_loop lower inputs book) = Returned ->
        last (events_of (main_loop lower inputs book))
        = Some (Print (lit "Good bye!"))).
Proof.
  intros Hp Hc.
  assert (Heq : main_loop lower (pre ++ line :: post) book
                = main_loop lower (pre ++ [line]) book).
  { apply main_loop_prefix. intros b.
    rewrite !(main_loop_exit _ _ _ _ _ Hp Hc). reflexivity. }
  split; [exact (main_loop_exit _ _ _ _ _ Hp Hc)|].
  split; [exact Heq|]. split; [|intros inputs; apply main_loop_returned].
  rewrite Heq. clear Heq. revert book.
  induction pre as [|l pre IH]; intros book.
  - simpl app. rewrite (main_loop_exit _ _ _ _ _ Hp Hc). discriminate.
  - simpl. destruct (parse_input lower l) as [[c a]|e]; [|discriminate].
    destruct (choose c) as [| |handler|]; [discriminate| | |].
    + specialize (IH book).
      destruct (main_loop lower (pre ++ [line]) book) as [[ev b'] e'].
      exact IH.
    + destruct (handler a book) as [[t|e] book1]; [|discriminate].
      specialize (IH book1).
      destruct (main_loop lower (pre ++ [line]) book1) as [[ev b'] e'].
      exact IH.
    + specialize (IH book).
      destruct (main_loop lower (pre ++ [line]) book) as [[ev b'] e'].
      exact IH.
Qed.

End MainSession.

(** ** The book of a session *)

Lemma names_tokens_setitem key record (data : AddressBook.t) :
  names_tokens data -> token key ->
  names_tokens (AddressBook.setitem key record data).
Proof.
  intros Hd Hk. induction data as [|[k r] data IH]; simpl.
  - constructor; [exact Hk | constructor].
  - apply Forall_cons in Hd as [Hkr Hd].
    destruct (decide (k = key)) as [->|Hne].
    + constructor; [exact Hk | exact Hd].
    + constructor; [exact Hkr | apply IH, Hd].
Qed.

Lemma names_tokens_on_record {A} record (method : M ContactRecord.t A) data :
  names_tokens data -> token (record_name record) ->
  names_tokens (snd (AddressBook.on_record record method data)).
Proof.
  intros Hd Hn. unfold AddressBook.on_record.
  destruct (method record) as [res record']. simpl.
  apply names_tokens_setitem; assumption.
Qed.

Lemma names_tokens_handlers command handler args book :
  choose command = Handler handler ->
  keyed_by_name book -> names_tokens book -> Forall token args ->
  names_tokens (snd (handler args book)).
Proof.
  intros Hc Hk Hn Ha.
  destruct (choose_cases command)
    as [[H _]|[[H _]|[[H _]|[[H _]|[[H _]|[[H _]|[[H _]|[[H _]|[H _]]]]]]]]];
    rewrite H in Hc; try discriminate; injection Hc as <-.
  - unfold add_contact. rewrite input_error_state.
    unfold add_contact_body, bind, lift.
    destruct (unpack2_cases args) as [(name & phone & -> & ->)| ->];
      [|exact Hn].
    apply Forall_cons in Ha as [Hname _].
    unfold AddressBook.find.
    destruct (AddressBook.getitem name book) as [record|] eqn:Hget.
    + pose proof (names_tokens_on_record record
        (ContactRecord.add_phone phone) book Hn) as Hr.
      rewrite (keyed_getitem _ _ _ Hk Hget) in Hr. specialize (Hr Hname).
      destruct (AddressBook.on_record record (ContactRecord.add_phone phone)
                  book) as [[u|e] book']; exact Hr.
    + unfold AddressBook.add_record, modify.
      set (book1 := AddressBook.setitem _ _ book).
      assert (H1 : names_tokens book1)
        by (apply names_tokens_setitem; [exact Hn | exact Hname]).
      pose proof (names_tokens_on_record (ContactRecord.init name)
        (ContactRecord.add_phone phone) book1 H1 Hname) as Hr.
      destruct (AddressBook.on_record (ContactRecord.init name)
                  (ContactRecord.add_phone phone) book1) as [[u|e] book'];
        exact Hr.
  - unfold change_contact. rewrite input_error_state.
    unfold change_contact_body, bind, lift.
    destruct (unpack3_cases args) as [(name & old & new & -> & ->)| ->];
      [|exact Hn].
    apply Forall_cons in Ha as [Hname _].
    unfold AddressBook.find.
    destruct (AddressBook.getitem name book) as [record|] eqn:Hget;
      [|exact Hn].
    pose proof (names_tokens_on_record record
      (ContactRecord.edit_phone old new) book Hn) as Hr.
    rewrite (keyed_getitem _ _ _ Hk Hget) in Hr. specialize (Hr Hname).
    destruct (AddressBook.on_record record (ContactRecord.edit_phone old new)
                book) as [[u|e] book']; exact Hr.
  - rewrite show_phone_state. exact Hn.
  - rewrite show_all_state. exact Hn.
  - unfold add_birthday. rewrite input_error_state.
    unfold add_birthday_body, bind, lift.
    destruct (unpack2_cases args) as [(name & birthday & -> & ->)| ->];
      [|exact Hn].
    apply Forall_cons in Ha as [Hname _].
    unfold AddressBook.find.
    destruct (AddressBook.getitem name book) as [record|] eqn:Hget;
      [|exact Hn].
    pose proof (names_tokens_on_record record
      (ContactRecord.add_birthday birthday) book Hn) as Hr.
    rewrite (keyed_getitem _ _ _ Hk Hget) in Hr. specialize (Hr Hname).
    destruct (AddressBook.on_record record
                (ContactRecord.add_birthday birthday) book)
      as [[u|e] book']; exact Hr.
  - rewrite show_birthday_state. exact Hn.
Qed.

Lemma book_wf_choose command handler args book :
  choose command = Handler handler ->
  book_wf book -> book_wf (snd (handler args book)).
Proof.
  intros Hc Hwf.
  destruct (book_wf_handlers book Hwf args (datetime.Date 1 1 1))
    as (H1 & H2 & H3 & H4 & H5 & H6 & _).
  destruct (choose_cases command)
    as [[H _]|[[H _]|[[H _]|[[H _]|[[H _]|[[H _]|[[H _]|[[H _]|[H _]]]]]]]]];
    rewrite H in Hc; try discriminate; injection Hc as <-; assumption.
Qed.

Lemma token_no_newline t : token t -> ~ In 10%N t.
Proof.
  intros [_ Hall] Hin. rewrite List.Forall_forall in Hall.
  specialize (Hall _ Hin). discriminate Hall.
Qed.

Section Session.

Variable lower : pystr -> pystr.

Lemma main_loop_wf inputs book :
  book_wf book -> names_tokens book ->
  book_wf (final_book (main_loop lower inputs book))
  /\ names_tokens (final_book (main_loop lower inputs book)).
Proof.
  revert book. induction inputs as [|line inputs IH]; intros book Hwf Hn;
    [split; assumption|].
  destruct (parse_input_cases lower line)
    as [[Hb Hp]|(Hnb & command & args & Hp & Ha)].
  - rewrite (main_loop_blank lower _ _ _ Hb). split; assumption.
  - simpl. rewrite Hp. destruct (choose command) as [| |handler|] eqn:Hc.
    + split; assumption.
    + specialize (IH book Hwf Hn).
      destruct (main_loop lower inputs book) as [[events book'] e'].
      exact IH.
    + pose proof (book_wf_choose command handler args book Hc Hwf) as Hwf1.
      pose proof (names_tokens_handlers command handler args book Hc
                    (proj1 Hwf) Hn Ha) as Hn1.
      destruct (handler args book) as [[t|e0] book1]; simpl in Hwf1, Hn1;
        [|split; assumption].
      specialize (IH book1 Hwf1 Hn1).
      destruct (main_loop lower inputs book1) as [[events book'] e'].
      exact IH.
    + specialize (IH book Hwf Hn).
      destruct (main_loop lower inputs book) as [[events book'] e'].
      exact IH.
Qed.

(** X27.  Whatever lines a session reads, the book [main] is left with
    keeps the invariants of a book: the names are distinct, each record is
    filed under its name, every stored phone is ten digits and every
    stored birthday a text [Birthday] has taken.  Its names are tokens of
    [split]: not empty and without whitespace, so without a line break. *)
Theorem session_book (inputs : list pystr) :
  book_wf (final_book (main lower inputs))
  /\ names_tokens (final_book (main lower inputs))
  /\ Forall (fun kr => ~ In 10%N (record_name (snd kr)))
       (final_book (main lower inputs)).
Proof.
  assert (H : book_wf (final_book (main lower inputs))
              /\ names_tokens (final_book (main lower inputs))).
  { unfold main.
    pose proof (main_loop_wf inputs [] book_wf_empty (List.Forall_nil _)) as H.
    destruct (main_loop lower inputs []) as [[events book] e]. exact H. }
  destruct H as [Hwf Hn]. split; [exact Hwf|]. split; [exact Hn|].
  destruct Hwf as [[_ Hkey] _]. unfold names_tokens in Hn.
  rewrite List.Forall_forall in *. intros kr Hin.
  rewrite (Hkey kr Hin). apply token_no_newline, Hn, Hin.
Qed.

End Session.

(** The line [birthdays] is passed over. *)
Lemma unknown_commands_ignored_witness :
  main_loop ascii_lower [lit "Birthdays"; lit "exit"] sample_book
  = (prompt :: events_of (main_loop ascii_lower [lit "exit"] sample_book),
     final_book (main_loop ascii_lower [lit "exit"] sample_book),
     ending_of (main_loop ascii_lower [lit "exit"] sample_book))
  /\ ~ In (lit "birthdays") command_names.
Proof.
  apply (unknown_commands_ignored ascii_lower (lit "Birthdays") [lit "exit"]
           sample_book (lit "birthdays") []).
  - reflexivity.
  - unfold command_names. simpl. intuition discriminate.
Defined.

(** Nothing after [exit] is read. *)
Lemma main_stops_at_exit_witness :
  main_loop ascii_lower (lit "EXIT now" :: [lit "all"]) []
  = ([prompt; Print (lit "Good bye!")], [], Returned)
  /\ main_loop ascii_lower ([lit "hello"] ++ lit "EXIT now" :: [lit "all"]) []
     = main_loop ascii_lower ([lit "hello"] ++ [lit "EXIT now"]) []
  /\ ending_of (main_loop ascii_lower
                  ([lit "hello"] ++ lit "EXIT now" :: [lit "all"]) [])
     <> EndOfInput
  /\ (forall inputs,
        ending_of (main_loop ascii_lower inputs []) = Returned ->
        last (events_of (main_loop ascii_lower inputs []))
        = Some (Print (lit "Good bye!"))).
Proof.
  apply (main_stops_at_exit ascii_lower [lit "hello"] (lit "EXIT now")
           [lit "all"] [] (lit "exit") [lit "now"]).
  - reflexivity.
  - right. reflexivity.
Defined.

(** ** The answer of [birthdays] *)

Lemma new_raise_day y m d e :
  datetime.MINYEAR <= y <= datetime.MAXYEAR -> 1 <= m <= 12 ->
  datetime.new y m d = Raise e -> e = ValueError datetime.day_out_of_range.
Proof.
  intros Hy Hm. unfold datetime.new.
  assert (Ey : (datetime.MINYEAR <=? y) && (y <=? datetime.MAXYEAR) = true)
    by (apply andb_true_iff; split; apply Z.leb_le; lia).
  assert (Em : (1 <=? m) && (m <=? 12) = true)
    by (apply andb_true_iff; split; apply Z.leb_le; lia).
  rewrite Ey, Em. simpl.
  destruct (negb _); [|discriminate]. intros [= <-]. reflexivity.
Qed.

Lemma occurrence_raise_day today bday e :
  datetime.valid today -> datetime.year today < datetime.MAXYEAR ->
  datetime.valid bday ->
  AddressBook.occurrence today bday = Raise e ->
  e = ValueError datetime.day_out_of_range.
Proof.
  intros (Hy & _) Hmax (_ & Hm & _).
  unfold AddressBook.occurrence, datetime.replace_year, rbind.
  destruct (datetime.new (datetime.year today) (datetime.month bday)
              (datetime.day bday)) as [x|ex] eqn:Hx.
  - apply new_inv in Hx as [-> _]. simpl.
    destruct (datetime.ltb _ today); [|discriminate].
    apply new_raise_day; [|exact Hm].
    unfold datetime.MINYEAR, datetime.MAXYEAR in *. lia.
  - intros [= <-]. eapply new_raise_day; [exact Hy | exact Hm | exact Hx].
Qed.

Lemma query_raise_day today book e :
  datetime.valid today -> datetime.year today < datetime.MAXYEAR ->
  birthdays_inv book ->
  AddressBook.get_upcoming_birthdays today book = Raise e ->
  e = ValueError datetime.day_out_of_range.
Proof.
  intros Hv Hmax Hinv H.
  apply loop_raise_inv in H as (r & Hin & Hr).
  unfold AddressBook.values in Hin.
  apply in_map_iff in Hin as (kr & <- & Hkr).
  unfold birthdays_inv in Hinv. rewrite List.Forall_forall in Hinv.
  specialize (Hinv kr Hkr).
  destruct (ContactRecord.birthday (snd kr)) as [b|] eqn:Hb;
    [|rewrite (produced_no_birthday _ _ Hb) in Hr; discriminate].
  destruct (Hinv b Hb) as [bday Hdt].
  pose proof (proj2 (parse_spec _ _) Hdt) as Hp.
  destruct (AddressBook.occurrence today bday) as [occ|eo] eqn:Ho.
  - rewrite (produced_occurrence_ok _ _ _ _ _ Hb Hp Ho) in Hr. discriminate.
  - rewrite (produced_occurrence_raise _ _ _ _ _ Hb Hp Ho) in Hr.
    injection Hr as <-.
    eapply occurrence_raise_day; [exact Hv | exact Hmax | | exact Ho].
    eapply date_text_valid, Hdt.
Qed.

(** X28.  With a clock before the year 9999 and a book whose birthdays
    are texts [Birthday] has taken, [birthdays] answers: "No birthdays in
    the next 7 days." when the query returns the empty list; one line
    "name — date" an entry, in the order of the result, when it returns
    another list; and when the query raises, which it does only for a
    February 29, the message of the library, "day is out of range for
    month", as its text. *)
Theorem birthdays_answer (today : datetime.date) (args : list pystr)
    (book : AddressBook.t) :
  datetime.valid today -> datetime.year today < datetime.MAXYEAR ->
  birthdays_inv book ->
  (AddressBook.get_upcoming_birthdays today book = Ok [] ->
   fst (birthdays today args book)
   = Ok (lit "No birthdays in the next 7 days."))
  /\ (forall u upcoming,
        AddressBook.get_upcoming_birthdays today book = Ok (u :: upcoming) ->
        fst (birthdays today args book)
        = Ok (join [10%N]
                (map (fun u => AddressBook.name u ++ [32; 8212; 32]%N
                               ++ AddressBook.birthday u) (u :: upcoming))))
  /\ (forall e,
        AddressBook.get_upcoming_birthdays today book = Raise e ->
        e = ValueError (lit "day is out of range for month")
        /\ fst (birthdays today args book)
           = Ok (lit "day is out of range for month")).
Proof.
  intros Hv Hmax Hinv.
  unfold birthdays, input_error, birthdays_body, bind, get, lift.
  split; [intros ->; reflexivity|]. split.
  - intros u upcoming Hq. rewrite Hq. reflexivity.
  - intros e Hq.
    pose proof (query_raise_day today book e Hv Hmax Hinv Hq) as ->.
    rewrite Hq. split; reflexivity.
Qed.

(** In 2023 the book with a birthday of 29.02.2000 gets the message of the
    library as the answer. *)
Lemma birthdays_answer_witness :
  fst (birthdays (datetime.Date 2023 6 15) []
         [with_birthday "Bob" "29.02.2000"])
  = Ok (lit "day is out of range for month").
Proof.
  assert (Hv : datetime.valid (datetime.Date 2023 6 15))
    by (unfold datetime.valid; simpl; vm_compute; intuition discriminate).
  assert (Hmax : datetime.year (datetime.Date 2023 6 15) < datetime.MAXYEAR)
    by reflexivity.
  assert (Hinv : birthdays_inv [with_birthday "Bob" "29.02.2000"]).
  { constructor; [|constructor]. intros b [= <-].
    exists (datetime.Date 2000 2 29). apply parse_spec.
    reflexivity. }
  destruct (birthdays_answer (datetime.Date 2023 6 15) []
              [with_birthday "Bob" "29.02.2000"] Hv Hmax Hinv)
    as (_ & _ & H).
  apply (H (ValueError (lit "day is out of range for month"))).
  vm_compute. reflexivity.
Defined.
